(** * MetaApp Marketplace bot: the poll / diff / batch / publish pipeline

    A shallow embedding of the TypeScript sources of the trading bot
    (api/metaforge.ts, bot/formatters.ts, bot/discord.ts, database/db.ts,
    utils/config.ts, utils/events.ts, index.ts) and the properties of
    the pipeline stated about them.

    Conventions.
    - JavaScript numbers that the program uses as integers (quantities,
      prices, positions, batch numbers, milliseconds) are [Z]; [NaN] is
      explicit where [parseInt] can produce it.
    - [null] / [undefined] are [None].
    - Console logging does not influence any value.  Pure functions
      leave it out; effectful functions record it in the trace of the
      world they run in. *)

From Equations Require Import Equations.
From Stdlib Require Import Ascii ZifyNat DecimalString DecimalPos DecimalN DecimalZ.
From stdpp Require Import gmap strings list sorting.

Open Scope Z_scope.

(** ** Data model (types/index.ts) *)

Inductive ListingType := sell | buy.

#[global] Instance ListingType_eq_dec : EqDecision ListingType.
Proof. solve_decision. Defined.

Record Item := {
  item_id : string;
  item_name : string;
  item_icon : string;
  item_rarity : option string;
  item_type : option string
}.

Record UserProfile := {
  full_name : string;
  username : string;
  avatar_url : option string;
  embark_id : string
}.

(** Raw record of the remote API.  The four barter / price fields and the
    description are the ones the interface declares nullable. *)
Record ApiListing := {
  api_id : string;
  api_listing_type : ListingType;
  api_user_id : string;
  api_status : string;
  api_description : option string;
  api_created_at : string;
  api_updated_at : string;
  api_item_id : string;
  api_item : Item;
  api_quantity : Z;
  api_price : option Z;
  api_wanted_item_id : option string;
  api_wanted_item : option Item;
  api_wanted_quantity : option Z;
  api_user_profile : UserProfile
}.

(** One side of a trade ([Listing['selling']] / [Listing['buying']]).
    The interface types [id] and [amount] as non-null, but the transform
    fills them through the non-null assertion [!], which is erased at run
    time: a null [wanted_item_id] or [wanted_quantity] reaches the
    listing.  The two fields are therefore nullable here. *)
Record TradeSide := {
  side_id : option string;
  side_amount : option Z;
  side_name : string;
  side_icon : string;
  side_rarity : option string
}.

Record Listing := {
  listing_id : string;
  listing_type : ListingType;
  user_id : string;
  status : string;
  description : option string;
  created_at : string;
  updated_at : string;
  selling : TradeSide;
  buying : TradeSide;
  user_profile : UserProfile
}.

#[global] Instance Item_eq_dec : EqDecision Item.
Proof. solve_decision. Defined.
#[global] Instance UserProfile_eq_dec : EqDecision UserProfile.
Proof. solve_decision. Defined.
#[global] Instance TradeSide_eq_dec : EqDecision TradeSide.
Proof. solve_decision. Defined.
#[global] Instance Listing_eq_dec : EqDecision Listing.
Proof. solve_decision. Defined.

(** [ListingBatch]; [batch_created_at] is the reading of the clock
    ([new Date()]) in milliseconds. *)
Record ListingBatch := {
  batch_number : Z;
  batch_listings : list Listing;
  batch_created_at : Z
}.

(** ** Diff engine (api/metaforge.ts) *)

(** [fetchedListings.filter(l => !existingListingIds.has(l.id))] *)
Definition getNewListings (fetchedListings : list Listing)
    (existingListingIds : gset string) : list Listing :=
  filter (λ listing, listing_id listing ∉ existingListingIds) fetchedListings.

(** ** Batcher (bot/formatters.ts) *)

Definition LISTINGS_PER_BATCH : nat := 5.

(** [Array.prototype.slice(start, end)] for [0 <= start <= end]. *)
Definition slice {A} (start end_ : nat) (l : list A) : list A :=
  take (end_ - start) (drop start l).

Section Batcher.
  (** [clock k] is what [new Date()] returns at the k-th reading. *)
Variable clock : nat → Z.

  (** The [for (let i = 0; i < listings.length; i += LISTINGS_PER_BATCH)]
      loop, with its three mutable variables as arguments. *)
Equations? batch_loop (listings : list Listing) (i : nat) (batchNumber : Z)
      (batches : list ListingBatch) : list ListingBatch
      by wf (length listings - i)%nat lt :=
    batch_loop listings i batchNumber batches with decide (i < length listings)%nat := {
      | left _ =>
          batch_loop listings (i + LISTINGS_PER_BATCH)%nat (batchNumber + 1)
            (batches ++ [ {| batch_number := batchNumber;
                             batch_listings := slice i (i + LISTINGS_PER_BATCH) listings;
                             batch_created_at := clock (length batches) |} ])
      | right _ => batches }.
  Proof. unfold LISTINGS_PER_BATCH. lia. Defined.

Definition createListingBatches (listings : list Listing) : list ListingBatch :=
    batch_loop listings 0%nat 1 [].
End Batcher.

(** ** JavaScript strings and numbers *)

(** A number that may be [NaN]. *)
Inductive number := NaN | Num (z : Z).

#[global] Instance number_eq_dec : EqDecision number.
Proof. solve_decision. Defined.

Definition isNaN (n : number) : bool :=
  match n with NaN => true | Num _ => false end.

(** [n < k]; every comparison with [NaN] is false. *)
Definition number_lt (n : number) (k : Z) : bool :=
  match n with NaN => false | Num z => bool_decide (z < k) end.

(** [s.split(sep)] for a one-character separator; the empty string splits
    into one empty part. *)
Fixpoint split (sep : ascii) (s : string) : list string :=
  match s with
  | EmptyString => [EmptyString]
  | String c s' =>
      if decide (c = sep) then EmptyString :: split sep s'
      else match split sep s' with
           | part :: parts => String c part :: parts
           | [] => [String c EmptyString]
           end
  end.

(** [String(z)] / [`${z}`] for an integer: decimal digits, with [-] in
    front of a negative one. *)
Definition numberToString (z : Z) : string :=
  NilZero.string_of_int (Z.to_int z).

Definition digit_of (c : ascii) : option Z :=
  let n := nat_of_ascii c in
  if bool_decide (48 ≤ n ≤ 57)%nat then Some (Z.of_nat n - 48) else None.

(** White space that [parseInt] skips (the one-byte part of it). *)
Definition is_white_space (c : ascii) : bool :=
  let n := nat_of_ascii c in
  bool_decide (9 ≤ n ≤ 13)%nat || bool_decide (n = 32%nat).

Fixpoint trim_start (s : string) : string :=
  match s with
  | String c s' => if is_white_space c then trim_start s' else s
  | EmptyString => EmptyString
  end.

(** Value of the longest prefix of decimal digits; [acc] is [None] until a
    digit has been read. *)
Fixpoint parse_digits (s : string) (acc : option Z) : option Z :=
  match s with
  | String c s' =>
      match digit_of c with
      | Some d => parse_digits s' (Some (10 * default 0 acc + d))
      | None => acc
      end
  | EmptyString => acc
  end.

(** [parseInt(s, 10)]: skip white space, read a sign, read digits up to
    the first other character; [NaN] when there is no digit. *)
Definition parseInt (s : string) : number :=
  let s1 := trim_start s in
  let '(sign, s2) :=
    match s1 with
    | String "-" rest => (-1, rest)
    | String "+" rest => (1, rest)
    | _ => (1, s1)
    end in
  match parse_digits s2 None with
  | Some v => Num (sign * v)
  | None => NaN
  end.

(** ** Buttons (bot/formatters.ts) *)

(** The part of a [ButtonBuilder] the program sets: custom id, label and
    emoji ([NUMBER_EMOJIS[i]], undefined from the sixth button on). *)
Record Button := {
  button_customId : string;
  button_label : string;
  button_emoji : option string
}.

(** The keycap emojis, by their names. *)
Definition NUMBER_EMOJIS : list string :=
  ["keycap_1"; "keycap_2"; "keycap_3"; "keycap_4"; "keycap_5"].

(** Body of the loop of [createBatchButtons] for index [i]. *)
Definition batchButton (i : nat) (listing : Listing) : Button :=
  let position := Z.of_nat i + 1 in
  {| button_customId :=
       "buy:" +:+ listing_id listing +:+ ":" +:+ numberToString position;
     button_label := "Buy Item " +:+ numberToString position;
     button_emoji := NUMBER_EMOJIS !! i |}.

(** [createBatchButtons]: one button per listing of the batch, in order;
    the action row is the list of its buttons. *)
Definition createBatchButtons (batch : ListingBatch) : list Button :=
  imap batchButton (batch_listings batch).

Inductive ButtonAction := buy_action.

Record ButtonData := {
  action : ButtonAction;
  bd_listing_id : string;
  batch_position : number
}.

(** [parseButtonCustomId]; nothing in its [try] block can throw. *)
Definition parseButtonCustomId (customId : string) : option ButtonData :=
  match split ":" customId with
  | [p0; p1; p2] =>
      if decide (p0 = "buy") then
        Some {| action := buy_action;
                bd_listing_id := p1;
                batch_position := parseInt p2 |}
      else None
  | _ => None
  end.

(** ** Logging and exceptions (types/index.ts, utils/logger.ts) *)

Module LogLevel.
Inductive t := DEBUG | INFO | WARN | ERROR.

#[global] Instance eq_dec : EqDecision t.
  Proof. solve_decision. Defined.

  (** The string value of an enum member. *)
Definition value (l : t) : string :=
    match l with
    | DEBUG => "debug" | INFO => "info" | WARN => "warn" | ERROR => "error"
    end.

  (** The member a string is the value of ([validLogLevels.includes]). *)
Definition of_string (s : string) : option t :=
    if decide (s = "debug") then Some DEBUG
    else if decide (s = "info") then Some INFO
    else if decide (s = "warn") then Some WARN
    else if decide (s = "error") then Some ERROR
    else None.
End LogLevel.

Module LogCategory.
Inductive t := API | DATABASE | DISCORD | BATCH | AUTO_PURCHASE | SYSTEM | ERROR.

#[global] Instance eq_dec : EqDecision t.
  Proof. solve_decision. Defined.
End LogCategory.

(** One call of [logger.debug/info/warn/error]. *)
Record LogEntry := {
  log_level : LogLevel.t;
  log_category : LogCategory.t;
  log_message : string
}.

#[global] Instance LogEntry_eq_dec : EqDecision LogEntry.
Proof. solve_decision. Defined.

(** A thrown value: the constructor name of the error, its [code] when it
    has one (SQLite, Node), its message, and the two fields of an axios
    error the program looks at: [response] (status and status text) and
    whether [request] is set. *)
Record Exn := {
  exn_name : string;
  exn_code : option string;
  exn_message : string;
  exn_response : option (Z * string);
  exn_request : bool
}.

#[global] Instance Exn_eq_dec : EqDecision Exn.
Proof. solve_decision. Defined.

Definition mkExn (name : string) (code : option string) (message : string) : Exn :=
  {| exn_name := name; exn_code := code; exn_message := message;
     exn_response := None; exn_request := false |}.

(** [new Error(message)] *)
Definition mkError (message : string) : Exn := mkExn "Error" None message.

(** What running a piece of code ends in: a value or a thrown exception. *)
Inductive Outcome (A : Type) :=
| Ok (a : A)
| Throw (e : Exn).
Arguments Ok {A} a.
Arguments Throw {A} e.

(** ** Configuration (utils/config.ts) *)

Record Config := {
  discord_token : string;
  discord_channelId : string;
  polling_interval : number;
  database_path : string;
  logging_level : LogLevel.t;
  autoPurchase_enabled : bool
}.

(** [x || d] on an optional string: [undefined] and the empty string are
    falsy. *)
Definition or_default (x : option string) (d : string) : string :=
  match x with
  | Some s => if decide (s = "") then d else s
  | None => d
  end.

(** [!x] on an optional string. *)
Definition falsy (x : option string) : bool :=
  match x with
  | Some s => bool_decide (s = "")
  | None => true
  end.

(** [`${x}`] on an optional string. *)
Definition show_env (x : option string) : string := default "undefined" x.

Definition show_number (n : number) : string :=
  match n with NaN => "NaN" | Num z => numberToString z end.

Definition entry (l : LogLevel.t) (c : LogCategory.t) (m : string) : LogEntry :=
  {| log_level := l; log_category := c; log_message := m |}.

(** [loadConfig], on the environment [env] ([process.env]).  The result is
    what the temporary logger was given, in order, and the configuration
    or the exception thrown. *)
Definition loadConfig (env : gmap string string) : list LogEntry * Outcome Config :=
  let log0 := [entry LogLevel.INFO LogCategory.SYSTEM
                 "Loading configuration from environment variables..."] in
  let discordToken := env !! "DISCORD_BOT_TOKEN" in
  let discordChannelId := env !! "DISCORD_CHANNEL_ID" in
  if falsy discordToken then
    (log0 ++ [entry LogLevel.ERROR LogCategory.SYSTEM
                "Missing required environment variable: DISCORD_BOT_TOKEN"],
     Throw (mkError "DISCORD_BOT_TOKEN is required. Please set it in your .env file."))
  else if falsy discordChannelId then
    (log0 ++ [entry LogLevel.ERROR LogCategory.SYSTEM
                "Missing required environment variable: DISCORD_CHANNEL_ID"],
     Throw (mkError "DISCORD_CHANNEL_ID is required. Please set it in your .env file."))
  else
    let pollInterval := parseInt (or_default (env !! "POLL_INTERVAL") "5000") in
    let databasePath := or_default (env !! "DATABASE_PATH") "./data/listings.db" in
    let logLevel := or_default (env !! "LOG_LEVEL") "info" in
    let autoPurchaseEnabled := negb (bool_decide (env !! "AUTO_PURCHASE_ENABLED" = Some "false")) in
    let log1 :=
      if LogLevel.of_string logLevel is None then
        [entry LogLevel.WARN LogCategory.SYSTEM
           ("Invalid LOG_LEVEL: " +:+ logLevel +:+ ". Using default: info")]
      else [] in
    let log2 :=
      if isNaN pollInterval || number_lt pollInterval 1000 then
        [entry LogLevel.WARN LogCategory.SYSTEM
           ("Invalid POLL_INTERVAL: " +:+ show_env (env !! "POLL_INTERVAL")
            +:+ ". Using default: 5000ms")]
      else [] in
    let config :=
      {| discord_token := default "" discordToken;
         discord_channelId := default "" discordChannelId;
         polling_interval := pollInterval;
         database_path := databasePath;
         logging_level := default LogLevel.INFO (LogLevel.of_string logLevel);
         autoPurchase_enabled := autoPurchaseEnabled |} in
    (log0 ++ log1 ++ log2 ++
     [entry LogLevel.INFO LogCategory.SYSTEM "Configuration loaded successfully:";
      entry LogLevel.INFO LogCategory.SYSTEM
        ("  - Discord Channel ID: " +:+ discord_channelId config);
      entry LogLevel.INFO LogCategory.SYSTEM
        ("  - Poll Interval: " +:+ show_number (polling_interval config) +:+ "ms");
      entry LogLevel.INFO LogCategory.SYSTEM
        ("  - Database Path: " +:+ database_path config);
      entry LogLevel.INFO LogCategory.SYSTEM
        ("  - Log Level: " +:+ LogLevel.value (logging_level config));
      entry LogLevel.INFO LogCategory.SYSTEM
        ("  - Auto-Purchase: " +:+
         (if autoPurchase_enabled config then "enabled" else "disabled"))],
     Ok config).


(** ** Listing transform (api/metaforge.ts) *)

Definition outcome_bind {A B} (o : Outcome A) (k : A → Outcome B) : Outcome B :=
  match o with
  | Ok a => k a
  | Throw e => Throw e
  end.

(** [l.map(f)] for an [f] that may throw: elements are visited in order
    and the first exception ends the traversal. *)
Fixpoint outcome_map {A B} (f : A → Outcome B) (l : list A) : Outcome (list B) :=
  match l with
  | [] => Ok []
  | x :: l' =>
      outcome_bind (f x) (λ y,
      outcome_bind (outcome_map f l') (λ ys, Ok (y :: ys)))
  end.

(** Reading a property of [null]. *)
Definition null_property_error (prop : string) : Exn :=
  mkExn "TypeError" None
    ("Cannot read properties of null (reading '" +:+ prop +:+ "')").

(** The object literal built from the barter fields.  [wanted_item_id!]
    and [wanted_quantity!] are plain reads; [wanted_item!.name] throws a
    [TypeError] when [wanted_item] is null. *)
Definition barter_side (apiListing : ApiListing) : Outcome TradeSide :=
  match api_wanted_item apiListing with
  | Some wanted_item =>
      Ok {| side_id := api_wanted_item_id apiListing;
            side_amount := api_wanted_quantity apiListing;
            side_name := item_name wanted_item;
            side_icon := item_icon wanted_item;
            side_rarity := item_rarity wanted_item |}
  | None => Throw (null_property_error "name")
  end.

(** [transformApiListing] *)
Definition transformApiListing (apiListing : ApiListing) : Outcome Listing :=
  outcome_bind
    (match api_listing_type apiListing with
     | sell =>
         let selling :=
           {| side_id := Some (api_item_id apiListing);
              side_amount := Some (api_quantity apiListing);
              side_name := item_name (api_item apiListing);
              side_icon := item_icon (api_item apiListing);
              side_rarity := item_rarity (api_item apiListing) |} in
         outcome_bind
           (match api_price apiListing with
            | Some price =>
                Ok {| side_id := Some "assorted-seeds";
                      side_amount := Some price;
                      side_name := "Assorted Seeds";
                      side_icon := "https://cdn.metaforge.app/arc-raiders/icons/assorted-seeds.webp";
                      side_rarity := None |}
            | None => barter_side apiListing
            end)
           (λ buying, Ok (selling, buying))
     | buy =>
         let buying :=
           {| side_id := Some (api_item_id apiListing);
              side_amount := Some (api_quantity apiListing);
              side_name := item_name (api_item apiListing);
              side_icon := item_icon (api_item apiListing);
              side_rarity := item_rarity (api_item apiListing) |} in
         outcome_bind
           (match api_price apiListing with
            | Some price =>
                Ok {| side_id := Some "assorted-seeds";
                      side_amount := Some price;
                      side_name := "Assorted Seeds";
                      side_icon := "https://cdn.metaforge.app/arc-raiders/icons/assorted-seeds.webp";
                      side_rarity := None |}
            | None => barter_side apiListing
            end)
           (λ selling, Ok (selling, buying))
     end)
    (λ '(selling, buying),
       Ok {| listing_id := api_id apiListing;
             listing_type := api_listing_type apiListing;
             user_id := api_user_id apiListing;
             status := api_status apiListing;
             description := api_description apiListing;
             created_at := api_created_at apiListing;
             updated_at := api_updated_at apiListing;
             selling := selling;
             buying := buying;
             user_profile := api_user_profile apiListing |}).

(** The stand-alone JavaScript version of the fetchers (it exports
    [getAllListings], [getSellListings] and [getBuyListings] too).  Its
    two mappers build the counter-side with [price != null] and carry no
    rarity. *)
Module Legacy.
Definition counter_side (data : ApiListing) : Outcome TradeSide :=
  match api_price data with
  | Some price =>
      Ok {| side_id := Some "assorted-seeds";
            side_amount := Some price;
            side_name := "Assorted Seeds";
            side_icon := "https://cdn.metaforge.app/arc-raiders/icons/assorted-seeds.webp";
            side_rarity := None |}
  | None =>
      match api_wanted_item data with
      | Some wanted_item =>
          Ok {| side_id := api_wanted_item_id data;
                side_amount := api_wanted_quantity data;
                side_name := item_name wanted_item;
                side_icon := item_icon wanted_item;
                side_rarity := None |}
      | None => Throw (null_property_error "name")
      end
  end.

Definition item_side (data : ApiListing) : TradeSide :=
  {| side_id := Some (api_item_id data);
     side_amount := Some (api_quantity data);
     side_name := item_name (api_item data);
     side_icon := item_icon (api_item data);
     side_rarity := None |}.

Definition record_of (data : ApiListing) (selling buying : TradeSide) : Listing :=
  {| listing_id := api_id data;
     listing_type := api_listing_type data;
     user_id := api_user_id data;
     status := api_status data;
     description := api_description data;
     created_at := api_created_at data;
     updated_at := api_updated_at data;
     selling := selling;
     buying := buying;
     user_profile := api_user_profile data |}.

(** The callback of [request.data.data.map] in [getSellListings]. *)
Definition sell_mapper (data : ApiListing) : Outcome Listing :=
  outcome_bind (counter_side data) (λ buying,
  Ok (record_of data (item_side data) buying)).

(** The callback of [request.data.data.map] in [getBuyListings]. *)
Definition buy_mapper (data : ApiListing) : Outcome Listing :=
  outcome_bind (counter_side data) (λ selling,
  Ok (record_of data selling (item_side data))).
End Legacy.

(** ** Persistent and external state *)

(** A row of table [listings].  The four columns filled from fields that
    can be null at run time keep their option; [NOT NULL] is enforced by
    the insert. *)
Record DbListing := {
  db_id : string;
  db_type : ListingType;
  db_user_id : string;
  db_status : string;
  db_description : option string;
  db_selling_id : option string;
  db_selling_name : string;
  db_selling_icon : string;
  db_selling_amount : option Z;
  db_buying_id : option string;
  db_buying_name : string;
  db_buying_icon : string;
  db_buying_amount : option Z;
  db_user_full_name : string;
  db_user_username : string;
  db_user_avatar_url : option string;
  db_user_embark_id : string;
  db_created_at : string;
  db_updated_at : string;
  db_fetched_at : string;
  db_posted_to_discord : Z
}.

(** A row of table [posted_listings]. *)
Record DbPostedListing := {
  pl_listing_id : string;
  pl_message_id : string;
  pl_channel_id : string;
  pl_batch_number : Z;
  pl_batch_position : Z;
  pl_posted_at : string
}.

#[global] Instance DbListing_eq_dec : EqDecision DbListing.
Proof. solve_decision. Defined.
#[global] Instance DbPostedListing_eq_dec : EqDecision DbPostedListing.
Proof. solve_decision. Defined.

(** The two tables the pipeline uses, rows in insertion order. *)
Record Database := {
  tbl_listings : list DbListing;
  tbl_posted_listings : list DbPostedListing
}.

(** One rendered entry of an embed: [formatListingEntry(listing, position)].
    The text is a function of these two values. *)
Record Entry := {
  entry_position : Z;
  entry_listing : Listing
}.

Inductive EmbedKind := NewBatchEmbed | StatusUpdateEmbed.

(** The part of an [EmbedBuilder] that depends on the data: the batch
    number of the title, the entries of the description, the count of
    the footer, and which of the two footers it is. *)
Record Embed := {
  embed_batch_number : Z;
  embed_entries : list Entry;
  embed_footer_count : nat;
  embed_kind : EmbedKind
}.

Record Message := {
  message_id : string;
  message_embed : Embed;
  message_components : list Button
}.

(** A channel: whether it is text based, the error with which a write
    ([send], [edit]) is rejected if it is, its messages and the id the
    next message gets. *)
Record Channel := {
  isTextBased : bool;
  write_error : option Exn;
  messages : list Message;
  next_message_id : Z
}.

(** What [client.channels.fetch] resolves to for a known id. *)
Inductive ChannelSlot :=
| NullChannel
| Chan (c : Channel).

(** The Discord client: channels by id; fetching an id that is not there
    is rejected. *)
Record Client := {
  channels : gmap string ChannelSlot
}.

Module BotEvent.
Inductive t :=
| BOT_READY | NEW_LISTING | NEW_LISTINGS_BATCH | LISTING_POSTED
| BATCH_POSTED | PURCHASE_BUTTON_CLICKED | ERROR.

#[global] Instance eq_dec : EqDecision t.
Proof. solve_decision. Defined.
End BotEvent.

(** How a registered listener ends when called. *)
Inductive Handler :=
| Returns
| Throws (e : Exn).

(** What [axios.get] settles with. *)
Inductive AxiosOutcome :=
| AxiosData (data : list ApiListing)
| AxiosRejects (e : Exn).

Record Stats := {
  totalPollsCompleted : Z;
  totalListingsFetched : Z;
  totalNewListingsDetected : Z;
  totalBatchesPosted : Z
}.

(** Things done to the outside, in the order they are done. *)
Inductive Action :=
| ALog (e : LogEntry)
| AHttpGet (t : ListingType)
| AInsertListing (id : string)
| AUpdateStatus (id st updated : string)
| AInsertPosted (row : DbPostedListing)
| AMarkPosted (ids : list string)
| ASend (channelId : string) (m : Message)
| AEdit (channelId messageId : string) (e : Embed)
| AEmit (ev : BotEvent.t)
| ADelay (ms : Z).

(** The state the pipeline runs in: the module-level variables of
    index.ts ([isProcessing], [stats]), of db.ts ([db]), of discord.ts
    ([discordClient]), the listeners of [botEvents], what the remote API
    answers, and the actions performed so far. *)
Record World := {
  isProcessing : bool;
  stats : Stats;
  db : option Database;
  discordClient : option Client;
  listeners : BotEvent.t → list Handler;
  api : ListingType → AxiosOutcome;
  trace : list Action
}.

Definition set_isProcessing (b : bool) (w : World) : World :=
  {| isProcessing := b; stats := stats w; db := db w;
     discordClient := discordClient w; listeners := listeners w;
     api := api w; trace := trace w |}.

Definition set_stats (s : Stats) (w : World) : World :=
  {| isProcessing := isProcessing w; stats := s; db := db w;
     discordClient := discordClient w; listeners := listeners w;
     api := api w; trace := trace w |}.

Definition set_db (d : option Database) (w : World) : World :=
  {| isProcessing := isProcessing w; stats := stats w; db := d;
     discordClient := discordClient w; listeners := listeners w;
     api := api w; trace := trace w |}.

Definition set_discordClient (c : option Client) (w : World) : World :=
  {| isProcessing := isProcessing w; stats := stats w; db := db w;
     discordClient := c; listeners := listeners w;
     api := api w; trace := trace w |}.

Definition set_listeners (l : BotEvent.t → list Handler) (w : World) : World :=
  {| isProcessing := isProcessing w; stats := stats w; db := db w;
     discordClient := discordClient w; listeners := l;
     api := api w; trace := trace w |}.

Definition add_action (a : Action) (w : World) : World :=
  {| isProcessing := isProcessing w; stats := stats w; db := db w;
     discordClient := discordClient w; listeners := listeners w;
     api := api w; trace := trace w ++ [a] |}.

(** ** Computations: state and exceptions *)

Definition M (A : Type) : Type := World → Outcome A * World.

Definition ret {A} (a : A) : M A := λ w, (Ok a, w).

Definition throw {A} (e : Exn) : M A := λ w, (Throw e, w).

Definition bind {A B} (m : M A) (k : A → M B) : M B :=
  λ w, match m w with
       | (Ok a, w') => k a w'
       | (Throw e, w') => (Throw e, w')
       end.

(** [try { body } catch (error) { handler }] *)
Definition try_catch {A} (body : M A) (handler : Exn → M A) : M A :=
  λ w, match body w with
       | (Ok a, w') => (Ok a, w')
       | (Throw e, w') => handler e w'
       end.

(** [try { body } finally { cleanup }]: the cleanup runs on every exit; the
    outcome is the body's unless the cleanup throws. *)
Definition try_finally {A} (body : M A) (cleanup : M unit) : M A :=
  λ w, match body w with
       | (r, w') =>
           match cleanup w' with
           | (Ok _, w'') => (r, w'')
           | (Throw e, w'') => (Throw e, w'')
           end
       end.

Definition get : M World := λ w, (Ok w, w).

Definition modify (f : World → World) : M unit := λ w, (Ok tt, f w).

Declare Scope M_scope.
Delimit Scope M_scope with M.
Bind Scope M_scope with M.
Notation "x <- y ;; z" := (bind y (λ x, z))
  (at level 20, y at level 99, z at level 200, only parsing) : M_scope.
Notation "y ;; z" := (bind y (λ _, z))
  (at level 100, z at level 200, only parsing, right associativity) : M_scope.
Open Scope M_scope.

Definition act (a : Action) : M unit := modify (add_action a).

(** [logger.<level>(category, message)] *)
Definition log (l : LogLevel.t) (c : LogCategory.t) (m : string) : M unit :=
  act (ALog (entry l c m)).

(** [for (const x of l) { body x }] *)
Fixpoint for_each {A} (l : list A) (body : A → M unit) : M unit :=
  match l with
  | [] => ret tt
  | x :: l' => (body x ;; for_each l' body)%M
  end.

(** [await new Promise(resolve => setTimeout(resolve, ms))] *)
Definition delay (ms : Z) : M unit := act (ADelay ms).

Definition lift {A} (o : Outcome A) : M A :=
  match o with
  | Ok a => ret a
  | Throw e => throw e
  end.

Definition show_nat (n : nat) : string := numberToString (Z.of_nat n).

Definition show_type (t : ListingType) : string :=
  match t with sell => "sell" | buy => "buy" end.

(** ** Event emitter (utils/events.ts) *)

(** What Node's [EventEmitter] throws when an ['error'] event that is not
    an [Error] instance is emitted and no listener is registered for it. *)
Definition ERR_UNHANDLED_ERROR : Exn :=
  mkExn "Error" (Some "ERR_UNHANDLED_ERROR") "Unhandled error.".

(** Listeners are called synchronously in registration order; an
    exception of a listener propagates to the caller of [emit]. *)
Fixpoint call_listeners (hs : list Handler) : M unit :=
  match hs with
  | [] => ret tt
  | Returns :: hs' => call_listeners hs'
  | Throws e :: _ => throw e
  end.

(** [this.emit(event, payload)] of Node's [EventEmitter], which
    [BotEventEmitter] extends.  [BotEvent.ERROR] is the string ['error'],
    the one event name Node treats specially: when an ['error'] event is
    emitted and the emitter has no listener registered for it, [emit]
    throws (the emitted value if it is an [Error], an [ERR_UNHANDLED_ERROR]
    wrapping it otherwise; here the payload is a plain object). *)
Definition emit (ev : BotEvent.t) : M unit :=
  (act (AEmit ev) ;;
   w <- get ;;
   match listeners w ev with
   | [] =>
       if decide (ev = BotEvent.ERROR) then throw ERR_UNHANDLED_ERROR
       else ret tt
   | hs => call_listeners hs
   end)%M.

(** [botEvents.on(event, handler)] *)
Definition on (ev : BotEvent.t) (h : Handler) : M unit :=
  modify (λ w, set_listeners
                 (λ ev', if decide (ev' = ev) then listeners w ev' ++ [h]
                         else listeners w ev') w).

Definition emitNewListing (listing : Listing) : M unit :=
  (log LogLevel.DEBUG LogCategory.SYSTEM
     ("New listing event emitted: " +:+ show_type (listing_type listing)
      +:+ " - " +:+ side_name (selling listing)
      +:+ " -> " +:+ side_name (buying listing)) ;;
   emit BotEvent.NEW_LISTING)%M.

Definition emitNewListingsBatch (newListings : list Listing) : M unit :=
  (log LogLevel.INFO LogCategory.SYSTEM
     ("New listings batch event emitted: " +:+ show_nat (length newListings)
      +:+ " new listings") ;;
   emit BotEvent.NEW_LISTINGS_BATCH)%M.

Definition emitListingPosted (listing : Listing) : M unit :=
  (log LogLevel.DEBUG LogCategory.DISCORD
     ("Listing posted event emitted for: " +:+ listing_id listing) ;;
   emit BotEvent.LISTING_POSTED)%M.

Definition emitBatchPosted (posted : list Listing) (batchNumber : Z) : M unit :=
  (log LogLevel.INFO LogCategory.DISCORD
     ("Batch posted event emitted: Batch #" +:+ numberToString batchNumber
      +:+ " with " +:+ show_nat (length posted) +:+ " listings") ;;
   emit BotEvent.BATCH_POSTED)%M.

Definition emitError (error : Exn) (context : string) : M unit :=
  (log LogLevel.ERROR LogCategory.ERROR
     ("Error event emitted"
      +:+ (if decide (context = "") then "" else " in " +:+ context)
      +:+ ": " +:+ exn_message error) ;;
   emit BotEvent.ERROR)%M.

(** The three listeners the repository registers
    (custom-purchase-logic.ts, [initializeCustomPurchaseLogic]); each of
    them only logs and returns. *)
Definition initializeCustomPurchaseLogic : M unit :=
  (on BotEvent.NEW_LISTING Returns ;;
   on BotEvent.NEW_LISTINGS_BATCH Returns ;;
   on BotEvent.PURCHASE_BUTTON_CLICKED Returns ;;
   log LogLevel.INFO LogCategory.SYSTEM "Custom purchase logic handlers registered" ;;
   log LogLevel.INFO LogCategory.SYSTEM
     "Bot will now evaluate listings against your custom rules")%M.

Section Pipeline.

(** The reading of the clock for the k-th batch ([new Date()]), the time
    stamp the database rows get ([new Date().toISOString()]), the value of
    [new Date(s).getTime()], and the configuration loaded at start-up. *)
Variable clock : nat → Z.
Variable now : string.
Variable getTime : string → number.
Variable config : Config.

(** ** Database layer (database/db.ts) *)

Definition getDatabase : M Database :=
  (w <- get ;;
   match db w with
   | Some database => ret database
   | None => throw (mkError "Database not initialized. Call initializeDatabase() first.")
   end)%M.

Definition sqlite_error (code : string) : Exn :=
  mkExn "SqliteError" (Some code) code.

(** [listingToDbListing], with the two columns the insert statement adds. *)
Definition listingToDbListing (listing : Listing) (fetched_at : string) : DbListing :=
  {| db_id := listing_id listing;
     db_type := listing_type listing;
     db_user_id := user_id listing;
     db_status := status listing;
     db_description := description listing;
     db_selling_id := side_id (selling listing);
     db_selling_name := side_name (selling listing);
     db_selling_icon := side_icon (selling listing);
     db_selling_amount := side_amount (selling listing);
     db_buying_id := side_id (buying listing);
     db_buying_name := side_name (buying listing);
     db_buying_icon := side_icon (buying listing);
     db_buying_amount := side_amount (buying listing);
     db_user_full_name := full_name (user_profile listing);
     db_user_username := username (user_profile listing);
     db_user_avatar_url :=
       (if falsy (avatar_url (user_profile listing)) then None
        else avatar_url (user_profile listing));
     db_user_embark_id := embark_id (user_profile listing);
     db_created_at := created_at listing;
     db_updated_at := updated_at listing;
     db_fetched_at := fetched_at;
     db_posted_to_discord := 0 |}.

Definition dbListingToListing (dbListing : DbListing) : Listing :=
  {| listing_id := db_id dbListing;
     listing_type := db_type dbListing;
     user_id := db_user_id dbListing;
     status := db_status dbListing;
     description := db_description dbListing;
     selling := {| side_id := db_selling_id dbListing;
                   side_name := db_selling_name dbListing;
                   side_icon := db_selling_icon dbListing;
                   side_amount := db_selling_amount dbListing;
                   side_rarity := None |};
     buying := {| side_id := db_buying_id dbListing;
                  side_name := db_buying_name dbListing;
                  side_icon := db_buying_icon dbListing;
                  side_amount := db_buying_amount dbListing;
                  side_rarity := None |};
     user_profile :=
       {| full_name := db_user_full_name dbListing;
          username := db_user_username dbListing;
          avatar_url :=
            (if falsy (db_user_avatar_url dbListing) then None
             else db_user_avatar_url dbListing);
          embark_id := db_user_embark_id dbListing |};
     created_at := db_created_at dbListing;
     updated_at := db_updated_at dbListing |}.

(** The columns declared [NOT NULL] that can receive a null. *)
Definition not_null_columns_ok (row : DbListing) : bool :=
  bool_decide (is_Some (db_selling_id row))
  && bool_decide (is_Some (db_selling_amount row))
  && bool_decide (is_Some (db_buying_id row))
  && bool_decide (is_Some (db_buying_amount row)).

(** [INSERT INTO listings (...) VALUES (...)]: SQLite checks [NOT NULL]
    before the primary key. *)
Definition run_insert_listing (row : DbListing) : M unit :=
  (database <- getDatabase ;;
   if negb (not_null_columns_ok row) then
     throw (sqlite_error "SQLITE_CONSTRAINT_NOTNULL")
   else if bool_decide (db_id row ∈ db_id <$> tbl_listings database) then
     throw (sqlite_error "SQLITE_CONSTRAINT_PRIMARYKEY")
   else
     modify (set_db (Some {| tbl_listings := tbl_listings database ++ [row];
                             tbl_posted_listings := tbl_posted_listings database |})) ;;
     act (AInsertListing (db_id row)))%M.

Definition insertListing (listing : Listing) : M bool :=
  (_ <- getDatabase ;;
   try_catch
     (run_insert_listing (listingToDbListing listing now) ;;
      log LogLevel.DEBUG LogCategory.DATABASE
        ("Inserted listing: " +:+ listing_id listing) ;;
      ret true)
     (λ error,
        if decide (exn_code error = Some "SQLITE_CONSTRAINT_PRIMARYKEY") then
          log LogLevel.DEBUG LogCategory.DATABASE
            ("Listing already exists: " +:+ listing_id listing) ;;
          ret false
        else
          log LogLevel.ERROR LogCategory.DATABASE
            ("Error inserting listing: " +:+ listing_id listing) ;;
          throw error))%M.

(** The [for] loop of [insertListings], with [insertedCount]. *)
Fixpoint insertListings_loop (l : list Listing) (insertedCount : Z) : M Z :=
  match l with
  | [] => ret insertedCount
  | listing :: l' =>
      (inserted <- insertListing listing ;;
       insertListings_loop l' (if inserted then insertedCount + 1 else insertedCount))%M
  end.

Definition insertListings (newListings : list Listing) : M Z :=
  (log LogLevel.INFO LogCategory.DATABASE
     ("Inserting " +:+ show_nat (length newListings) +:+ " listings...") ;;
   insertedCount <- insertListings_loop newListings 0 ;;
   log LogLevel.INFO LogCategory.DATABASE
     ("Inserted " +:+ numberToString insertedCount +:+ " new listings ("
      +:+ numberToString (Z.of_nat (length newListings) - insertedCount)
      +:+ " duplicates skipped)") ;;
   ret insertedCount)%M.

Definition listingExists (listingId : string) : M bool :=
  (database <- getDatabase ;;
   ret (bool_decide (listingId ∈ db_id <$> tbl_listings database)))%M.

Definition find_listing (listingId : string) (database : Database) : option DbListing :=
  list_find (λ row, db_id row = listingId) (tbl_listings database) ≫= (λ p, Some p.2).

Definition getListingById (listingId : string) : M (option Listing) :=
  (database <- getDatabase ;;
   match find_listing listingId database with
   | Some row => ret (Some (dbListingToListing row))
   | None =>
       log LogLevel.DEBUG LogCategory.DATABASE
         ("Listing not found: " +:+ listingId) ;;
       ret None
   end)%M.

Definition mark_posted (ids : list string) (row : DbListing) : DbListing :=
  if bool_decide (db_id row ∈ ids) then
    {| db_id := db_id row; db_type := db_type row; db_user_id := db_user_id row;
       db_status := db_status row; db_description := db_description row;
       db_selling_id := db_selling_id row; db_selling_name := db_selling_name row;
       db_selling_icon := db_selling_icon row;
       db_selling_amount := db_selling_amount row;
       db_buying_id := db_buying_id row; db_buying_name := db_buying_name row;
       db_buying_icon := db_buying_icon row;
       db_buying_amount := db_buying_amount row;
       db_user_full_name := db_user_full_name row;
       db_user_username := db_user_username row;
       db_user_avatar_url := db_user_avatar_url row;
       db_user_embark_id := db_user_embark_id row;
       db_created_at := db_created_at row; db_updated_at := db_updated_at row;
       db_fetched_at := db_fetched_at row;
       db_posted_to_discord := 1 |}
  else row.

(** [markListingsAsPosted]: [UPDATE listings SET posted_to_discord = 1
    WHERE id IN (...)]. *)
Definition markListingsAsPosted (listingIds : list string) : M unit :=
  match listingIds with
  | [] => ret tt
  | _ =>
      (database <- getDatabase ;;
       log LogLevel.INFO LogCategory.DATABASE
         ("Marking " +:+ show_nat (length listingIds) +:+ " listings as posted") ;;
       modify (set_db (Some {| tbl_listings := mark_posted listingIds <$> tbl_listings database;
                               tbl_posted_listings := tbl_posted_listings database |})) ;;
       act (AMarkPosted listingIds) ;;
       log LogLevel.INFO LogCategory.DATABASE
         ("Marked "
          +:+ show_nat (length (filter (λ row, db_id row ∈ listingIds) (tbl_listings database)))
          +:+ " listings as posted"))%M
  end.

(** [INSERT INTO posted_listings ...]: the primary key is [listing_id];
    with foreign keys on, the listing must exist in [listings]. *)
Definition run_insert_posted (row : DbPostedListing) : M unit :=
  (database <- getDatabase ;;
   if bool_decide (pl_listing_id row ∈ pl_listing_id <$> tbl_posted_listings database) then
     throw (sqlite_error "SQLITE_CONSTRAINT_PRIMARYKEY")
   else if negb (bool_decide (pl_listing_id row ∈ db_id <$> tbl_listings database)) then
     throw (sqlite_error "SQLITE_CONSTRAINT_FOREIGNKEY")
   else
     modify (set_db (Some {| tbl_listings := tbl_listings database;
                             tbl_posted_listings := tbl_posted_listings database ++ [row] |})) ;;
     act (AInsertPosted row))%M.

(** [insertPostedListing]; the argument has no [posted_at] yet. *)
Definition insertPostedListing (listing_id message_id channel_id : string)
    (batch_number batch_position : Z) : M unit :=
  (_ <- getDatabase ;;
   try_catch
     (run_insert_posted {| pl_listing_id := listing_id; pl_message_id := message_id;
                           pl_channel_id := channel_id;
                           pl_batch_number := batch_number;
                           pl_batch_position := batch_position;
                           pl_posted_at := now |} ;;
      log LogLevel.DEBUG LogCategory.DATABASE
        ("Recorded posted listing: " +:+ listing_id +:+ " in batch "
         +:+ numberToString batch_number))
     (λ error,
        if bool_decide (exn_code error = Some "SQLITE_CONSTRAINT_PRIMARYKEY")
           || bool_decide (exn_code error = Some "SQLITE_CONSTRAINT_UNIQUE") then
          log LogLevel.DEBUG LogCategory.DATABASE
            ("Listing already recorded as posted: " +:+ listing_id)
        else
          log LogLevel.ERROR LogCategory.DATABASE
            ("Error recording posted listing: " +:+ listing_id) ;;
          throw error))%M.

(** Modelled from the spec: [getPostedListings], which index.ts imports
    from database/db.ts but which is not among the sources.  The spec has
    it as [listAll() -> list<(Listing, DeliveryRecord)>]: every delivery
    record (in table order) with the listing it refers to. *)
Definition getPostedListings : M (list (Listing * DbPostedListing)) :=
  (database <- getDatabase ;;
   ret (omap (λ postedInfo,
               match find_listing (pl_listing_id postedInfo) database with
               | Some row => Some (dbListingToListing row, postedInfo)
               | None => None
               end)
             (tbl_posted_listings database)))%M.

Definition set_status (id st updated : string) (row : DbListing) : DbListing :=
  if decide (db_id row = id) then
    {| db_id := db_id row; db_type := db_type row; db_user_id := db_user_id row;
       db_status := st; db_description := db_description row;
       db_selling_id := db_selling_id row; db_selling_name := db_selling_name row;
       db_selling_icon := db_selling_icon row;
       db_selling_amount := db_selling_amount row;
       db_buying_id := db_buying_id row; db_buying_name := db_buying_name row;
       db_buying_icon := db_buying_icon row;
       db_buying_amount := db_buying_amount row;
       db_user_full_name := db_user_full_name row;
       db_user_username := db_user_username row;
       db_user_avatar_url := db_user_avatar_url row;
       db_user_embark_id := db_user_embark_id row;
       db_created_at := db_created_at row; db_updated_at := updated;
       db_fetched_at := db_fetched_at row;
       db_posted_to_discord := db_posted_to_discord row |}
  else row.

(** Modelled from the spec: [updateListingStatus], imported by index.ts
    from database/db.ts and not among the sources.  The spec has it as
    [setStatus(id, status, updatedAt)]: the row of that id gets the new
    status and update time. *)
Definition updateListingStatus (id st updated : string) : M unit :=
  (database <- getDatabase ;;
   modify (set_db (Some {| tbl_listings := set_status id st updated <$> tbl_listings database;
                           tbl_posted_listings := tbl_posted_listings database |})) ;;
   act (AUpdateStatus id st updated))%M.

(** ** Remote source (api/metaforge.ts) *)

(** [axios.get(url, { params })] *)
Definition axios_get (t : ListingType) : M (list ApiListing) :=
  (act (AHttpGet t) ;;
   w <- get ;;
   match api w t with
   | AxiosData data => ret data
   | AxiosRejects e => throw e
   end)%M.

(** [getSellListings] and [getBuyListings]: the same text but for the
    words sell and buy. *)
Definition getListingsOfType (t : ListingType) : M (list Listing) :=
  (log LogLevel.INFO LogCategory.API
     ("Fetching " +:+ show_type t +:+ " listings from MetaForge...") ;;
   log LogLevel.DEBUG LogCategory.API
     "URL: https://metaforge.app/api/arc-raiders/trade/listings" ;;
   try_catch
     (fetched <- axios_get t ;;
      log LogLevel.INFO LogCategory.API
        ("Fetched " +:+ show_nat (length fetched) +:+ " " +:+ show_type t
         +:+ " listings") ;;
      log LogLevel.DEBUG LogCategory.API "Response size" ;;
      transformedListings <- lift (outcome_map transformApiListing fetched) ;;
      log LogLevel.DEBUG LogCategory.API
        ("Transformed " +:+ show_nat (length transformedListings) +:+ " "
         +:+ show_type t +:+ " listings") ;;
      ret transformedListings)
     (λ error,
        log LogLevel.ERROR LogCategory.API
          ("Failed to fetch " +:+ show_type t +:+ " listings") ;;
        match exn_response error with
        | Some (code, text) =>
            log LogLevel.ERROR LogCategory.API
              ("API responded with status " +:+ numberToString code +:+ ": " +:+ text)
        | None =>
            if exn_request error then
              log LogLevel.ERROR LogCategory.API "No response received from API"
            else ret tt
        end ;;
        throw error))%M.

Definition getSellListings : M (list Listing) := getListingsOfType sell.

Definition getBuyListings : M (list Listing) := getListingsOfType buy.

(** [await Promise.all([p1, p2])]: both computations are started and run;
    the result is rejected with an exception of one of them if there is
    one.  The two runs are put one after the other here. *)
Definition promise_all2 {A B} (p1 : M A) (p2 : M B) : M (A * B) :=
  λ w, match p1 w with
       | (r1, w1) =>
           match p2 w1 with
           | (r2, w2) =>
               match r1, r2 with
               | Ok a, Ok b => (Ok (a, b), w2)
               | Throw e, _ => (Throw e, w2)
               | Ok _, Throw e => (Throw e, w2)
               end
           end
       end.

Definition number_sub (a b : number) : number :=
  match a, b with
  | Num x, Num y => Num (x - y)
  | _, _ => NaN
  end.

(** [x] is placed after [y] when the comparator is positive on them; a
    [NaN] counts as zero. *)
Definition sorts_after (v : number) : bool :=
  match v with
  | Num z => bool_decide (0 < z)
  | NaN => false
  end.

Fixpoint insert_sorted {A} (cmp : A → A → number) (x : A) (l : list A) : list A :=
  match l with
  | [] => [x]
  | y :: l' => if sorts_after (cmp x y) then y :: insert_sorted cmp x l' else x :: l
  end.

(** [Array.prototype.sort(cmp)], which is stable. *)
Definition array_sort {A} (cmp : A → A → number) (l : list A) : list A :=
  foldr (insert_sorted cmp) [] l.

Definition getAllListings : M (list Listing) :=
  (log LogLevel.INFO LogCategory.API
     "Fetching all listings (buy + sell) from MetaForge..." ;;
   try_catch
     (both <- promise_all2 getSellListings getBuyListings ;;
      let sellListings := both.1 in
      let buyListings := both.2 in
      let allListings :=
        array_sort (λ a b, number_sub (getTime (created_at b)) (getTime (created_at a)))
                   (sellListings ++ buyListings) in
      log LogLevel.INFO LogCategory.API
        ("Fetched and sorted " +:+ show_nat (length allListings) +:+ " total listings ("
         +:+ show_nat (length sellListings) +:+ " sell, "
         +:+ show_nat (length buyListings) +:+ " buy)") ;;
      ret allListings)
     (λ error,
        log LogLevel.ERROR LogCategory.API "Failed to fetch all listings" ;;
        throw error))%M.

(** ** Message rendering (bot/formatters.ts) *)

Definition formatListingEntry (listing : Listing) (position : Z) : Entry :=
  {| entry_position := position; entry_listing := listing |}.

Definition createBatchEmbed (batch : ListingBatch) : Embed :=
  {| embed_batch_number := batch_number batch;
     embed_entries :=
       imap (λ index listing, formatListingEntry listing (Z.of_nat index + 1))
            (batch_listings batch);
     embed_footer_count := length (batch_listings batch);
     embed_kind := NewBatchEmbed |}.

Definition recreateBatchEmbed (updatedListings : list Listing) (batchNumber : Z) : Embed :=
  {| embed_batch_number := batchNumber;
     embed_entries :=
       imap (λ index listing, formatListingEntry listing (Z.of_nat index + 1))
            updatedListings;
     embed_footer_count := length updatedListings;
     embed_kind := StatusUpdateEmbed |}.

(** ** Discord bot (bot/discord.ts) *)

Definition getDiscordClient : M Client :=
  (w <- get ;;
   match discordClient w with
   | Some client => ret client
   | None => throw (mkError "Discord client not initialized. Call initializeDiscordBot() first.")
   end)%M.

Definition discord_api_error (message : string) : Exn :=
  mkExn "DiscordAPIError" None message.

(** [client.channels.fetch(channelId)] *)
Definition channels_fetch (client : Client) (channelId : string) : M (option Channel) :=
  match channels client !! channelId with
  | Some (Chan channel) => ret (Some channel)
  | Some NullChannel => ret None
  | None => throw (discord_api_error "Unknown Channel")
  end.

Definition put_channel (channelId : string) (channel : Channel) : M unit :=
  modify (λ w,
    match discordClient w with
    | Some client =>
        set_discordClient (Some {| channels := <[channelId := Chan channel]> (channels client) |}) w
    | None => w
    end).

(** [channel.send({ embeds: [embed], components: [buttons] })] on the
    channel fetched under [channelId]. *)
Definition channel_send (channelId : string) (channel : Channel)
    (embed : Embed) (buttons : list Button) : M Message :=
  match write_error channel with
  | Some e => throw e
  | None =>
      let message := {| message_id := numberToString (next_message_id channel);
                        message_embed := embed;
                        message_components := buttons |} in
      (put_channel channelId
         {| isTextBased := isTextBased channel;
            write_error := write_error channel;
            messages := messages channel ++ [message];
            next_message_id := next_message_id channel + 1 |} ;;
       act (ASend channelId message) ;;
       ret message)%M
  end.

(** [channel.messages.fetch(messageId)]: an unknown id is rejected, so the
    [!message] test that follows the call in the source never fires. *)
Definition messages_fetch (channel : Channel) (messageId : string) : M Message :=
  match list_find (λ m, message_id m = messageId) (messages channel) with
  | Some (_, message) => ret message
  | None => throw (discord_api_error "Unknown Message")
  end.

(** [message.edit({ embeds: [embed], components })] *)
Definition message_edit (channelId : string) (channel : Channel) (message : Message)
    (embed : Embed) (components : list Button) : M unit :=
  match write_error channel with
  | Some e => throw e
  | None =>
      (put_channel channelId
         {| isTextBased := isTextBased channel;
            write_error := write_error channel;
            messages :=
              (λ m, if decide (message_id m = message_id message) then
                      {| message_id := message_id m; message_embed := embed;
                         message_components := components |}
                    else m) <$> messages channel;
            next_message_id := next_message_id channel |} ;;
       act (AEdit channelId (message_id message) embed))%M
  end.

(** The loop of [postBatchToDiscord] that records the posted listings;
    [i] is the index and [listingIds] the ids pushed so far. *)
Fixpoint record_posted (l : list Listing) (i : nat) (messageId targetChannelId : string)
    (batchNumber : Z) (listingIds : list string) : M (list string) :=
  match l with
  | [] => ret listingIds
  | listing :: l' =>
      (insertPostedListing (listing_id listing) messageId targetChannelId
         batchNumber (Z.of_nat i + 1) ;;
       record_posted l' (S i) messageId targetChannelId batchNumber
         (listingIds ++ [listing_id listing]))%M
  end.

Definition postBatchToDiscord (batch : ListingBatch) (channelId : option string)
    : M (option Message) :=
  try_catch
    (client <- getDiscordClient ;;
     let targetChannelId := or_default channelId (discord_channelId config) in
     log LogLevel.INFO LogCategory.DISCORD
       ("Posting batch #" +:+ numberToString (batch_number batch)
        +:+ " to channel " +:+ targetChannelId) ;;
     fetched <- channels_fetch client targetChannelId ;;
     match fetched with
     | Some channel =>
         if isTextBased channel then
           let embed := createBatchEmbed batch in
           let buttons := createBatchButtons batch in
           message <- channel_send targetChannelId channel embed buttons ;;
           log LogLevel.INFO LogCategory.DISCORD
             ("Posted batch #" +:+ numberToString (batch_number batch)
              +:+ " successfully (Message ID: " +:+ message_id message +:+ ")") ;;
           listingIds <- record_posted (batch_listings batch) 0 (message_id message)
                           targetChannelId (batch_number batch) [] ;;
           markListingsAsPosted listingIds ;;
           emitBatchPosted (batch_listings batch) (batch_number batch) ;;
           for_each (batch_listings batch) emitListingPosted ;;
           ret (Some message)
         else
           log LogLevel.ERROR LogCategory.DISCORD
             ("Channel not found or not text-based: " +:+ targetChannelId) ;;
           ret None
     | None =>
         log LogLevel.ERROR LogCategory.DISCORD
           ("Channel not found or not text-based: " +:+ targetChannelId) ;;
         ret None
     end)
    (λ error,
       log LogLevel.ERROR LogCategory.DISCORD
         ("Error posting batch #" +:+ numberToString (batch_number batch) +:+ ":") ;;
       emitError error "postBatchToDiscord" ;;
       ret None)%M.

(** [createListingBatches] with what it logs. *)
Definition createListingBatches_logged (toPost : list Listing) : M (list ListingBatch) :=
  (log LogLevel.INFO LogCategory.BATCH
     ("Creating batches from " +:+ show_nat (length toPost) +:+ " listings") ;;
   let batches := createListingBatches clock toPost in
   for_each batches (λ batch,
     log LogLevel.DEBUG LogCategory.BATCH
       ("Created batch #" +:+ numberToString (batch_number batch) +:+ " with "
        +:+ show_nat (length (batch_listings batch)) +:+ " listings")) ;;
   log LogLevel.INFO LogCategory.BATCH
     ("Created " +:+ show_nat (length batches) +:+ " batches") ;;
   ret batches)%M.

(** The [for (const batch of batches)] loop of [postListingsToDiscord];
    [total] is [batches.length]. *)
Fixpoint post_batches (l : list ListingBatch) (channelId : option string)
    (total : nat) (successCount : Z) : M Z :=
  match l with
  | [] => ret successCount
  | batch :: l' =>
      (message <- postBatchToDiscord batch channelId ;;
       match message with
       | Some _ =>
           (if bool_decide (successCount + 1 < Z.of_nat total) then
              log LogLevel.DEBUG LogCategory.DISCORD
                "Waiting 500ms before posting next batch..." ;;
              delay 500
            else ret tt) ;;
           post_batches l' channelId total (successCount + 1)
       | None => post_batches l' channelId total successCount
       end)%M
  end.

Definition postListingsToDiscord (toPost : list Listing) (channelId : option string) : M Z :=
  match toPost with
  | [] =>
      (log LogLevel.WARN LogCategory.DISCORD "No listings to post" ;;
       ret 0)%M
  | _ =>
      (log LogLevel.INFO LogCategory.DISCORD
         ("Posting " +:+ show_nat (length toPost) +:+ " listings to Discord...") ;;
       batches <- createListingBatches_logged toPost ;;
       log LogLevel.INFO LogCategory.DISCORD
         ("Created " +:+ show_nat (length batches) +:+ " batches") ;;
       successCount <- post_batches batches channelId (length batches) 0 ;;
       log LogLevel.INFO LogCategory.DISCORD
         ("Posted " +:+ numberToString successCount +:+ "/"
          +:+ show_nat (length batches) +:+ " batches successfully") ;;
       ret successCount)%M
  end.

(** The loop of [updateMessageWithStatus] that reads the listings back. *)
Fixpoint read_listings (listingIds : list string) (updatedListings : list Listing)
    : M (list Listing) :=
  match listingIds with
  | [] => ret updatedListings
  | listingId :: ids' =>
      (found <- getListingById listingId ;;
       match found with
       | Some listing => read_listings ids' (updatedListings ++ [listing])
       | None => read_listings ids' updatedListings
       end)%M
  end.

Definition updateMessageWithStatus (messageId channelId : string)
    (listingIds : list string) (batchNumber : Z) : M bool :=
  try_catch
    (client <- getDiscordClient ;;
     log LogLevel.INFO LogCategory.DISCORD
       ("Updating message " +:+ messageId +:+ " with status changes") ;;
     fetched <- channels_fetch client channelId ;;
     match fetched with
     | Some channel =>
         if isTextBased channel then
           message <- messages_fetch channel messageId ;;
           updatedListings <- read_listings listingIds [] ;;
           match updatedListings with
           | [] =>
               log LogLevel.WARN LogCategory.DISCORD
                 ("No listings found for message " +:+ messageId) ;;
               ret false
           | _ =>
               let updatedEmbed := recreateBatchEmbed updatedListings batchNumber in
               let originalButtons := message_components message in
               message_edit channelId channel message updatedEmbed originalButtons ;;
               log LogLevel.INFO LogCategory.DISCORD
                 ("Successfully updated message " +:+ messageId +:+ " with new status") ;;
               ret true
           end
         else
           log LogLevel.ERROR LogCategory.DISCORD
             ("Channel not found or not text-based: " +:+ channelId) ;;
           ret false
     | None =>
         log LogLevel.ERROR LogCategory.DISCORD
           ("Channel not found or not text-based: " +:+ channelId) ;;
         ret false
     end)
    (λ error,
       log LogLevel.ERROR LogCategory.DISCORD
         ("Error updating message " +:+ messageId +:+ ":") ;;
       ret false)%M.

(** ** Orchestrator (index.ts) *)

(** A value of the [messageGroups] map. *)
Record MessageGroup := {
  group_channelId : string;
  group_batchNumber : Z;
  group_listings : list (string * Z)
}.

(** [messageGroups.get(key)!.listings.push(item)] on the map kept as a
    list of entries in insertion order. *)
Definition group_push (key : string) (item : string * Z)
    (groups : list (string * MessageGroup)) : list (string * MessageGroup) :=
  (λ kv : string * MessageGroup,
     if decide (kv.1 = key) then
       (kv.1, {| group_channelId := group_channelId kv.2;
                 group_batchNumber := group_batchNumber kv.2;
                 group_listings := group_listings kv.2 ++ [item] |})
     else kv) <$> groups.

(** The first loop of [checkStatusChanges], over the posted listings, with
    [messageGroups] and [statusChangedCount]. *)
Fixpoint scan_posted (l : list (Listing * DbPostedListing))
    (fetchedListings : gmap string Listing)
    (messageGroups : list (string * MessageGroup)) (statusChangedCount : Z)
    : M (list (string * MessageGroup) * Z) :=
  match l with
  | [] => ret (messageGroups, statusChangedCount)
  | (listing, postedInfo) :: l' =>
      match fetchedListings !! listing_id listing with
      | Some apiListing =>
          if decide (status apiListing ≠ status listing) then
            log LogLevel.INFO LogCategory.SYSTEM
              ("Status change detected for listing " +:+ listing_id listing +:+ ": "
               +:+ status listing +:+ " -> " +:+ status apiListing) ;;
            updateListingStatus (listing_id listing) (status apiListing)
              (updated_at apiListing) ;;
            let groups1 :=
              if bool_decide (pl_message_id postedInfo ∈ messageGroups.*1) then messageGroups
              else messageGroups ++
                     [(pl_message_id postedInfo,
                       {| group_channelId := pl_channel_id postedInfo;
                          group_batchNumber := pl_batch_number postedInfo;
                          group_listings := [] |})] in
            let groups2 :=
              group_push (pl_message_id postedInfo)
                (listing_id listing, pl_batch_position postedInfo) groups1 in
            scan_posted l' fetchedListings groups2 (statusChangedCount + 1)
          else scan_posted l' fetchedListings messageGroups statusChangedCount
      | None => scan_posted l' fetchedListings messageGroups statusChangedCount
      end
  end.

Definition checkStatusChanges (fetchedListings : gmap string Listing) : M unit :=
  try_catch
    (log LogLevel.DEBUG LogCategory.SYSTEM
       "Checking for status changes in posted listings..." ;;
     postedListings <- getPostedListings ;;
     match postedListings with
     | [] =>
         log LogLevel.DEBUG LogCategory.SYSTEM
           "No posted listings to check for status changes"
     | _ =>
         scanned <- scan_posted postedListings fetchedListings [] 0 ;;
         let messageGroups := scanned.1 in
         let statusChangedCount := scanned.2 in
         if decide (statusChangedCount = 0) then
           log LogLevel.DEBUG LogCategory.SYSTEM "No status changes detected"
         else
           log LogLevel.INFO LogCategory.SYSTEM
             ("Detected " +:+ numberToString statusChangedCount
              +:+ " status changes across " +:+ show_nat (length messageGroups)
              +:+ " messages") ;;
           for_each messageGroups (λ kv,
             let messageId := kv.1 in
             let groupData := kv.2 in
             let sorted :=
               array_sort (λ a b : string * Z, Num (a.2 - b.2))
                          (group_listings groupData) in
             let listingIds := sorted.*1 in
             _ <- updateMessageWithStatus messageId (group_channelId groupData)
                    listingIds (group_batchNumber groupData) ;;
             delay 200) ;;
           log LogLevel.INFO LogCategory.SYSTEM
             ("Updated " +:+ show_nat (length messageGroups)
              +:+ " Discord messages with status changes")
     end)
    (λ error,
       log LogLevel.ERROR LogCategory.SYSTEM "Error checking status changes:").

Definition add_fetched (n : Z) (s : Stats) : Stats :=
  {| totalPollsCompleted := totalPollsCompleted s;
     totalListingsFetched := totalListingsFetched s + n;
     totalNewListingsDetected := totalNewListingsDetected s;
     totalBatchesPosted := totalBatchesPosted s |}.

Definition add_new_detected (n : Z) (s : Stats) : Stats :=
  {| totalPollsCompleted := totalPollsCompleted s;
     totalListingsFetched := totalListingsFetched s;
     totalNewListingsDetected := totalNewListingsDetected s + n;
     totalBatchesPosted := totalBatchesPosted s |}.

Definition add_batches_posted (n : Z) (s : Stats) : Stats :=
  {| totalPollsCompleted := totalPollsCompleted s;
     totalListingsFetched := totalListingsFetched s;
     totalNewListingsDetected := totalNewListingsDetected s;
     totalBatchesPosted := totalBatchesPosted s + n |}.

Definition poll_completed (s : Stats) : Stats :=
  {| totalPollsCompleted := totalPollsCompleted s + 1;
     totalListingsFetched := totalListingsFetched s;
     totalNewListingsDetected := totalNewListingsDetected s;
     totalBatchesPosted := totalBatchesPosted s |}.

Definition update_stats (f : Stats → Stats) : M unit :=
  modify (λ w, set_stats (f (stats w)) w).

(** [fetchedListings.forEach(l => { if (listingExists(l.id))
    existingIds.add(l.id) })] *)
Fixpoint collect_existing (l : list Listing) (existingIds : gset string) : M (gset string) :=
  match l with
  | [] => ret existingIds
  | listing :: l' =>
      known <- listingExists (listing_id listing) ;;
      collect_existing l' (if known then existingIds ∪ {[listing_id listing]}
                           else existingIds)
  end.

(** [join(', ')] *)
Fixpoint join_comma (l : list string) : string :=
  match l with
  | [] => ""
  | [x] => x
  | x :: l' => x +:+ ", " +:+ join_comma l'
  end.

(** [getNewListings] with what it logs. *)
Definition getNewListings_logged (fetchedListings : list Listing)
    (existingListingIds : gset string) : M (list Listing) :=
  let newListings := getNewListings fetchedListings existingListingIds in
  log LogLevel.INFO LogCategory.API
    ("Found " +:+ show_nat (length newListings) +:+ " new listings out of "
     +:+ show_nat (length fetchedListings) +:+ " fetched") ;;
  (match newListings with
   | [] => ret tt
   | _ => log LogLevel.DEBUG LogCategory.API
            ("New listing IDs: " +:+ join_comma (listing_id <$> newListings))
   end) ;;
  ret newListings.

(** [new Map(fetchedListings.map(l => [l.id, l]))]: a later entry replaces
    an earlier one with the same id. *)
Definition listings_by_id (fetchedListings : list Listing) : gmap string Listing :=
  foldl (λ m listing, <[listing_id listing := listing]> m) ∅ fetchedListings.

Definition pollListings : M unit :=
  w <- get ;;
  if isProcessing w then
    log LogLevel.WARN LogCategory.SYSTEM
      "Previous poll still processing, skipping this cycle"
  else
    modify (set_isProcessing true) ;;
    try_finally
      (try_catch
         (log LogLevel.INFO LogCategory.SYSTEM "Starting polling cycle..." ;;
          log LogLevel.INFO LogCategory.API
            "Step 1/6: Fetching listings from MetaForge API..." ;;
          fetchedListings <- getAllListings ;;
          update_stats (add_fetched (Z.of_nat (length fetchedListings))) ;;
          log LogLevel.INFO LogCategory.API
            ("Fetched " +:+ show_nat (length fetchedListings) +:+ " listings from API") ;;
          let fetchedListingsMap := listings_by_id fetchedListings in
          log LogLevel.INFO LogCategory.SYSTEM "Step 2/6: Checking for status changes..." ;;
          checkStatusChanges fetchedListingsMap ;;
          log LogLevel.INFO LogCategory.DATABASE "Step 3/6: Checking for new listings..." ;;
          existingIds <- collect_existing fetchedListings ∅ ;;
          newListings <- getNewListings_logged fetchedListings existingIds ;;
          match newListings with
          | [] =>
              log LogLevel.INFO LogCategory.SYSTEM "No new listings detected" ;;
              log LogLevel.INFO LogCategory.SYSTEM "Polling cycle completed" ;;
              update_stats poll_completed
          | _ =>
              log LogLevel.INFO LogCategory.SYSTEM
                ("Found " +:+ show_nat (length newListings) +:+ " new listings!") ;;
              update_stats (add_new_detected (Z.of_nat (length newListings))) ;;
              log LogLevel.INFO LogCategory.DATABASE
                "Step 4/6: Saving new listings to database..." ;;
              _ <- insertListings newListings ;;
              log LogLevel.INFO LogCategory.SYSTEM
                "Step 5/6: Emitting events for custom purchase logic..." ;;
              emitNewListingsBatch newListings ;;
              for_each newListings emitNewListing ;;
              log LogLevel.INFO LogCategory.DISCORD
                "Step 6/6: Posting new listings to Discord..." ;;
              batchesPosted <- postListingsToDiscord newListings None ;;
              update_stats (add_batches_posted batchesPosted) ;;
              log LogLevel.INFO LogCategory.SYSTEM
                ("Polling cycle completed successfully ("
                 +:+ show_nat (length newListings) +:+ " new listings, "
                 +:+ numberToString batchesPosted +:+ " batches posted)") ;;
              update_stats poll_completed
          end)
         (λ error,
            log LogLevel.ERROR LogCategory.SYSTEM "Error during polling cycle:" ;;
            emitError error "pollListings"))
      (modify (set_isProcessing false)).

End Pipeline.

(** ** Notions used to state the properties *)

(** The character [c] occurs in [s]. *)
Fixpoint contains (c : ascii) (s : string) : bool :=
  match s with
  | String c' s' => bool_decide (c' = c) || contains c s'
  | EmptyString => false
  end.

(** Value of a decimal numeral read from its most significant digit, with
    [acc] the value of the digits already read. *)
Fixpoint uint_val (d : Decimal.uint) (acc : Z) : Z :=
  match d with
  | Decimal.Nil => acc
  | Decimal.D0 d => uint_val d (10 * acc + 0)
  | Decimal.D1 d => uint_val d (10 * acc + 1)
  | Decimal.D2 d => uint_val d (10 * acc + 2)
  | Decimal.D3 d => uint_val d (10 * acc + 3)
  | Decimal.D4 d => uint_val d (10 * acc + 4)
  | Decimal.D5 d => uint_val d (10 * acc + 5)
  | Decimal.D6 d => uint_val d (10 * acc + 6)
  | Decimal.D7 d => uint_val d (10 * acc + 7)
  | Decimal.D8 d => uint_val d (10 * acc + 8)
  | Decimal.D9 d => uint_val d (10 * acc + 9)
  end.

(** ** Sample data used by the examples *)

Definition sample_profile : UserProfile :=
  {| full_name := "Ada"; username := "ada#0001"; avatar_url := None;
     embark_id := "ada#1234" |}.

Definition sample_side (id : string) (amount : Z) : TradeSide :=
  {| side_id := Some id; side_amount := Some amount; side_name := id;
     side_icon := "icon"; side_rarity := None |}.

(** A sell listing with the given id and status. *)
Definition sample_listing (id st : string) : Listing :=
  {| listing_id := id; listing_type := sell; user_id := "user-1";
     status := st; description := None;
     created_at := "2026-01-01T00:00:00Z";
     updated_at := "2026-01-01T00:00:00Z";
     selling := sample_side "iron-scrap" 3;
     buying := sample_side "assorted-seeds" 120;
     user_profile := sample_profile |}.

(** A minimal environment with the two required variables. *)
Definition sample_env : gmap string string :=
  <["DISCORD_BOT_TOKEN" := "token"]> (<["DISCORD_CHANNEL_ID" := "chan-1"]> ∅).

(** A batch of two listings. *)
Definition sample_batch : ListingBatch :=
  {| batch_number := 1;
     batch_listings := [sample_listing "l-1" "active";
                        sample_listing "l-2" "active"];
     batch_created_at := 0 |}.

Definition sample_item (id : string) : Item :=
  {| item_id := id; item_name := id; item_icon := "icon";
     item_rarity := None; item_type := None |}.

(** A raw sell record for three iron scrap, with the given id, status and
    price, and no barter fields. *)
Definition sample_api (id st : string) (price : option Z) : ApiListing :=
  {| api_id := id; api_listing_type := sell; api_user_id := "user-1";
     api_status := st; api_description := None;
     api_created_at := "2026-01-01T00:00:00Z";
     api_updated_at := "2026-01-02T00:00:00Z";
     api_item_id := "iron-scrap"; api_item := sample_item "iron-scrap";
     api_quantity := 3; api_price := price;
     api_wanted_item_id := None; api_wanted_item := None;
     api_wanted_quantity := None;
     api_user_profile := sample_profile |}.

(** A raw record that offers a barter: no price, all three barter fields. *)
Definition sample_barter (t : ListingType) : ApiListing :=
  {| api_id := "b-1"; api_listing_type := t; api_user_id := "user-1";
     api_status := "active"; api_description := None;
     api_created_at := "2026-01-01T00:00:00Z";
     api_updated_at := "2026-01-02T00:00:00Z";
     api_item_id := "iron-scrap"; api_item := sample_item "iron-scrap";
     api_quantity := 3; api_price := None;
     api_wanted_item_id := Some "copper-wire";
     api_wanted_item := Some (sample_item "copper-wire");
     api_wanted_quantity := Some 2;
     api_user_profile := sample_profile |}.

Definition sample_config : Config :=
  {| discord_token := "token"; discord_channelId := "chan-1";
     polling_interval := Num 5000; database_path := "./data/listings.db";
     logging_level := LogLevel.INFO; autoPurchase_enabled := true |}.

Definition sample_clock : nat → Z := λ _, 0.
Definition sample_now : string := "2026-01-03T00:00:00Z".
Definition sample_getTime : string → number := λ _, Num 0.

(** The message that delivered listings l-1 and l-2 as batch 1. *)
Definition sample_message : Message :=
  {| message_id := "100";
     message_embed := createBatchEmbed sample_batch;
     message_components := createBatchButtons sample_batch |}.

Definition sample_channel : Channel :=
  {| isTextBased := true; write_error := None;
     messages := [sample_message]; next_message_id := 101 |}.

Definition sample_client : Client :=
  {| channels := {[ "chan-1" := Chan sample_channel ]} |}.

Definition sample_posted (id : string) (position : Z) : DbPostedListing :=
  {| pl_listing_id := id; pl_message_id := "100"; pl_channel_id := "chan-1";
     pl_batch_number := 1; pl_batch_position := position;
     pl_posted_at := "2026-01-01T00:00:05Z" |}.

(** Listings l-1 and l-2 stored, marked posted, and tracked at positions
    1 and 2 of message 100. *)
Definition sample_database : Database :=
  {| tbl_listings :=
       mark_posted ["l-1"; "l-2"] <$>
         [listingToDbListing (sample_listing "l-1" "active") "2026-01-01T00:00:04Z";
          listingToDbListing (sample_listing "l-2" "active") "2026-01-01T00:00:04Z"];
     tbl_posted_listings := [sample_posted "l-1" 1; sample_posted "l-2" 2] |}.

(** The listeners after start-up: those of the repository, none for
    ['error']. *)
Definition repo_listeners : BotEvent.t → list Handler :=
  λ ev, match ev with
        | BotEvent.NEW_LISTING | BotEvent.NEW_LISTINGS_BATCH
        | BotEvent.PURCHASE_BUTTON_CLICKED => [Returns]
        | _ => []
        end.

Definition empty_stats : Stats :=
  {| totalPollsCompleted := 0; totalListingsFetched := 0;
     totalNewListingsDetected := 0; totalBatchesPosted := 0 |}.

(** The bot after start-up and one delivered batch, with the remote API
    answering [sells] and [buys]. *)
Definition sample_world (sells buys : AxiosOutcome) : World :=
  {| isProcessing := false; stats := empty_stats;
     db := Some sample_database; discordClient := Some sample_client;
     listeners := repo_listeners;
     api := λ t, match t with sell => sells | buy => buys end;
     trace := [] |}.

Definition network_error : Exn :=
  {| exn_name := "AxiosError"; exn_code := Some "ECONNREFUSED";
     exn_message := "connect ECONNREFUSED"; exn_response := None;
     exn_request := true |}.

(** The side of a listing that is given in exchange for the traded item:
    what a sell listing asks for, what a buy listing offers. *)
Definition counter_side (l : Listing) : TradeSide :=
  match listing_type l with
  | sell => buying l
  | buy => selling l
  end.

(** A raw record is well formed when it has a price or all three barter
    fields. *)
Definition well_formed (a : ApiListing) : Prop :=
  is_Some (api_price a)
  ∨ (is_Some (api_wanted_item_id a) ∧ is_Some (api_wanted_item a)
     ∧ is_Some (api_wanted_quantity a)).

(** A raw record is malformed in the sense of the barter rule: no price
    and none of the three barter fields. *)
Definition malformed (a : ApiListing) : Prop :=
  api_price a = None ∧ api_wanted_item_id a = None
  ∧ api_wanted_item a = None ∧ api_wanted_quantity a = None.

Definition is_log (a : Action) : bool :=
  match a with ALog _ => true | _ => false end.

(** The actions of a trace other than logging. *)
Definition effects (t : list Action) : list Action :=
  List.filter (λ a, negb (is_log a)) t.

(** A sell batch of two records of which the second has no price and no
    barter fields. *)
Definition malformed_record : ApiListing := sample_api "l-4" "active" None.

Definition malformed_batch_world : World :=
  sample_world (AxiosData [sample_api "l-3" "active" (Some 120); malformed_record])
               (AxiosData []).

(** The remote API is unreachable. *)
Definition offline_world : World :=
  sample_world (AxiosRejects network_error) (AxiosRejects network_error).

(** The remote API reports l-1 unchanged and l-2 as in progress. *)
Definition status_flip_world : World :=
  sample_world (AxiosData [sample_api "l-1" "active" (Some 120);
                           sample_api "l-2" "in-progress" (Some 120)])
               (AxiosData []).

(** The fetched listings of [status_flip_world], by id. *)
Definition status_flip_fetched : gmap string Listing :=
  listings_by_id
    match outcome_map transformApiListing
            [sample_api "l-1" "active" (Some 120);
             sample_api "l-2" "in-progress" (Some 120)] with
    | Ok ls => ls
    | Throw _ => []
    end.

(** A cycle is in flight. *)
Definition busy_world : World := set_isProcessing true status_flip_world.

(** The ids of the listings an embed shows, in order. *)
Definition embed_listing_ids (e : Embed) : list string :=
  (λ x, listing_id (entry_listing x)) <$> embed_entries e.

(** Every run of [m] relates the world it starts in to the world it ends
    in by [R]. *)
Definition preserves (R : World → World → Prop) {A} (m : M A) : Prop :=
  ∀ w r w', m w = (r, w') → R w w'.

(** A write to the delivery tracker or to the posted flag. *)
Definition is_tracker_write (a : Action) : bool :=
  match a with
  | AInsertPosted _ | AMarkPosted _ => true
  | _ => false
  end.

(** The trace only got longer. *)
Definition grows (w w' : World) : Prop :=
  ∃ new, trace w' = trace w ++ new.

(** The database is the same and the trace got longer by actions that
    are not tracker writes. *)
Definition quiet (w w' : World) : Prop :=
  db w' = db w
  ∧ ∃ new, trace w' = trace w ++ new
           ∧ Forall (λ a, is_tracker_write a = false) new.

(** In a list of actions every tracker write comes after a successful
    send to [target]. *)
Definition writes_follow_send (target : string) (new : list Action) : Prop :=
  ∀ pre a post, new = pre ++ a :: post → is_tracker_write a = true →
    ∃ m, ASend target m ∈ pre.

(** The send of a message to [target] goes through: the client is there,
    the channel exists and is text based, and the write is not rejected. *)
Definition can_deliver (w : World) (target : string) : Prop :=
  ∃ client channel,
    discordClient w = Some client
    ∧ channels client !! target = Some (Chan channel)
    ∧ isTextBased channel = true
    ∧ write_error channel = None.

(** The channel of the sample world rejects writes. *)
Definition read_only_world : World :=
  set_discordClient
    (Some {| channels :=
               {[ "chan-1" := Chan {| isTextBased := true;
                                      write_error := Some (discord_api_error "Missing Permissions");
                                      messages := [sample_message];
                                      next_message_id := 101 |} ]} |})
    status_flip_world.

(** The listeners and the answers of the remote API are the same. *)
Definition same_env (w w' : World) : Prop :=
  listeners w' = listeners w ∧ api w' = api w.

(** * More of the program *)

(** ** Database layer, continued (database/db.ts) *)

(** [closeDatabase] *)
Definition closeDatabase : M unit :=
  w <- get ;;
  match db w with
  | Some _ =>
      log LogLevel.INFO LogCategory.DATABASE "Closing database connection" ;;
      modify (set_db None)
  | None => ret tt
  end.

(** [UPDATE listings SET posted_to_discord = 1 WHERE id = ?] of
    [markListingAsPosted]; [result.changes] is the number of rows with
    that id. *)
Definition markListingAsPosted (listingId : string) : M unit :=
  database <- getDatabase ;;
  modify (set_db (Some {| tbl_listings := mark_posted [listingId] <$> tbl_listings database;
                          tbl_posted_listings := tbl_posted_listings database |})) ;;
  act (AMarkPosted [listingId]) ;;
  if bool_decide (listingId ∈ db_id <$> tbl_listings database) then
    log LogLevel.DEBUG LogCategory.DATABASE
      ("Marked listing as posted: " +:+ listingId)
  else
    log LogLevel.WARN LogCategory.DATABASE
      ("Failed to mark listing as posted (not found): " +:+ listingId).

(** The rows of [SELECT l.* FROM listings l INNER JOIN posted_listings pl
    ON l.id = pl.listing_id WHERE pl.message_id = ? AND pl.batch_position
    = ?].  A [NaN] position is bound as NULL and equals nothing. *)
Definition joined_rows (messageId : string) (batchPosition : number)
    (database : Database) : list DbListing :=
  omap (λ pl,
          if bool_decide (pl_message_id pl = messageId
                          ∧ Num (pl_batch_position pl) = batchPosition)
          then find_listing (pl_listing_id pl) database
          else None)
       (tbl_posted_listings database).

(** [getListingByMessageId]: the first row of the join, if any. *)
Definition getListingByMessageId (messageId : string) (batchPosition : number)
    : M (option Listing) :=
  database <- getDatabase ;;
  log LogLevel.DEBUG LogCategory.DATABASE
    ("Looking up listing by message ID: " +:+ messageId +:+ ", position: "
     +:+ show_number batchPosition) ;;
  match joined_rows messageId batchPosition database with
  | row :: _ => ret (Some (dbListingToListing row))
  | [] =>
      log LogLevel.WARN LogCategory.DATABASE
        ("Listing not found for message: " +:+ messageId +:+ ", position: "
         +:+ show_number batchPosition) ;;
      ret None
  end.

(** ** Discord bot, continued (bot/discord.ts) *)

(** [disconnectDiscordBot] *)
Definition disconnectDiscordBot : M unit :=
  w <- get ;;
  match discordClient w with
  | Some _ =>
      log LogLevel.INFO LogCategory.DISCORD "Disconnecting Discord bot..." ;;
      modify (set_discordClient None) ;;
      log LogLevel.INFO LogCategory.DISCORD "Discord bot disconnected"
  | None => ret tt
  end.

(** [createErrorMessage] *)
Definition createErrorMessage (error : string) : string :=
  "❌ **Error**" +:+ String "010" (String "010" error).

(** [createPurchaseConfirmationMessage] *)
Definition createPurchaseConfirmationMessage : string := "Feature not available".

(** An ephemeral reply to an interaction. *)
Record Reply := {
  reply_content : string;
  reply_ephemeral : bool
}.

(** A button interaction: the custom id of the button, the message it
    sits on, the user, the error with which Discord rejects a reply if it
    does, and the replies sent so far. *)
Record Interaction := {
  interaction_customId : string;
  interaction_messageId : string;
  interaction_userId : string;
  interaction_userTag : string;
  reply_error : option Exn;
  replies : list Reply
}.

(** [interaction.reply({ content, ephemeral: true })]: rejected by Discord,
    or refused because the interaction was already replied to, or
    recorded. *)
Definition interaction_reply (content : string) (interaction : Interaction)
    : M Interaction :=
  match reply_error interaction with
  | Some e => throw e
  | None =>
      match replies interaction with
      | [] =>
          ret {| interaction_customId := interaction_customId interaction;
                 interaction_messageId := interaction_messageId interaction;
                 interaction_userId := interaction_userId interaction;
                 interaction_userTag := interaction_userTag interaction;
                 reply_error := reply_error interaction;
                 replies := [{| reply_content := content; reply_ephemeral := true |}] |}
      | _ => throw (mkExn "Error" (Some "InteractionAlreadyReplied")
                      "The reply to this interaction has already been sent or deferred.")
      end
  end.

Definition emitPurchaseButtonClicked (username : string) (listing : Listing) : M unit :=
  log LogLevel.INFO LogCategory.AUTO_PURCHASE
    ("Purchase button clicked by " +:+ username +:+ " for listing: "
     +:+ listing_id listing) ;;
  emit BotEvent.PURCHASE_BUTTON_CLICKED.

(** [handleButtonInteraction]; the result is the interaction with the
    reply it received, if any.  A reply that throws leaves the interaction
    as it was, and nothing can throw after a reply that went through, so
    the catch block sees the interaction without a reply. *)
Definition handleButtonInteraction (interaction : Interaction) : M Interaction :=
  try_catch
    (log LogLevel.INFO LogCategory.DISCORD
       ("Button clicked by " +:+ interaction_userTag interaction +:+ ": "
        +:+ interaction_customId interaction) ;;
     match parseButtonCustomId (interaction_customId interaction) with
     | None =>
         interaction_reply
           (createErrorMessage "Invalid button. This listing may be outdated.")
           interaction
     | Some buttonData =>
         found <- getListingByMessageId (interaction_messageId interaction)
                    (batch_position buttonData) ;;
         match found with
         | None =>
             interaction_reply
               (createErrorMessage
                  "Listing not found. It may have been removed or is no longer available.")
               interaction
         | Some listing =>
             emitPurchaseButtonClicked (interaction_userTag interaction) listing ;;
             replied <- interaction_reply createPurchaseConfirmationMessage interaction ;;
             log LogLevel.INFO LogCategory.DISCORD
               ("Purchase intent registered for " +:+ interaction_userTag interaction
                +:+ ": " +:+ side_name (selling listing) +:+ " -> "
                +:+ side_name (buying listing)) ;;
             ret replied
         end
     end)
    (λ error,
       log LogLevel.ERROR LogCategory.DISCORD "Error handling button interaction:" ;;
       try_catch
         (interaction_reply
            (createErrorMessage
               "An error occurred while processing your request. Please try again.")
            interaction)
         (λ replyError,
            log LogLevel.ERROR LogCategory.DISCORD
              "Failed to send error message to user:" ;;
            ret interaction)).

(** ** Notions used to state further properties *)

(** The side of a listing that holds the traded item: what a sell listing
    offers, what a buy listing asks for. *)
Definition item_side (l : Listing) : TradeSide :=
  match listing_type l with
  | sell => selling l
  | buy => buying l
  end.

(** A listing as the database gives it back: no rarity, and an empty
    avatar URL read as a missing one. *)
Definition stored_view (l : Listing) : Listing :=
  {| listing_id := listing_id l;
     listing_type := listing_type l;
     user_id := user_id l;
     status := status l;
     description := description l;
     created_at := created_at l;
     updated_at := updated_at l;
     selling := {| side_id := side_id (selling l);
                   side_amount := side_amount (selling l);
                   side_name := side_name (selling l);
                   side_icon := side_icon (selling l);
                   side_rarity := None |};
     buying := {| side_id := side_id (buying l);
                  side_amount := side_amount (buying l);
                  side_name := side_name (buying l);
                  side_icon := side_icon (buying l);
                  side_rarity := None |};
     user_profile :=
       {| full_name := full_name (user_profile l);
          username := username (user_profile l);
          avatar_url := (if falsy (avatar_url (user_profile l)) then None
                         else avatar_url (user_profile l));
          embark_id := embark_id (user_profile l) |} |}.

(** The four fields of a listing that go to [NOT NULL] columns and can be
    null are all there. *)
Definition storable (l : Listing) : Prop :=
  is_Some (side_id (selling l)) ∧ is_Some (side_amount (selling l))
  ∧ is_Some (side_id (buying l)) ∧ is_Some (side_amount (buying l)).

(** The ids of the stored listings, in table order. *)
Definition stored_ids (w : World) : list string :=
  match db w with
  | Some database => db_id <$> tbl_listings database
  | None => []
  end.

(** Only the trace differs between the two worlds. *)
Definition only_trace (w w' : World) : Prop :=
  isProcessing w' = isProcessing w ∧ stats w' = stats w ∧ db w' = db w
  ∧ discordClient w' = discordClient w ∧ listeners w' = listeners w
  ∧ api w' = api w.

(** The creation time of a listing as the sort reads it (0 when the date
    does not parse). *)
Definition time_of (getTime : string → number) (l : Listing) : Z :=
  match getTime (created_at l) with
  | Num z => z
  | NaN => 0
  end.

(** A raw barter record whose wanted item is there but whose wanted item
    id is missing. *)
Definition half_barter : ApiListing :=
  {| api_id := "h-1"; api_listing_type := sell; api_user_id := "user-1";
     api_status := "active"; api_description := None;
     api_created_at := "2026-01-01T00:00:00Z";
     api_updated_at := "2026-01-02T00:00:00Z";
     api_item_id := "iron-scrap"; api_item := sample_item "iron-scrap";
     api_quantity := 3; api_price := None;
     api_wanted_item_id := None;
     api_wanted_item := Some (sample_item "copper-wire");
     api_wanted_quantity := Some 2;
     api_user_profile := sample_profile |}.

(** The comparator [(a, b) => key(b) - key(a)]: descending by key. *)
Definition by_key_desc {A} (key : A → Z) (a b : A) : number :=
  Num (key b - key a).

(** The keys of the two tables are unique and every tracker row refers
    to a stored listing. *)
Definition db_consistent (d : Database) : Prop :=
  NoDup (db_id <$> tbl_listings d)
  ∧ NoDup (pl_listing_id <$> tbl_posted_listings d)
  ∧ ∀ id, id ∈ pl_listing_id <$> tbl_posted_listings d → id ∈ db_id <$> tbl_listings d.

(** The database between two worlds: it stays closed if it was closed;
    if it was open it stays open, the stored ids and the tracker rows are
    only appended to, and consistency is kept. *)
Definition append_only (w w' : World) : Prop :=
  match db w with
  | Some d =>
      ∃ d', db w' = Some d'
        ∧ (db_id <$> tbl_listings d) `prefix_of` (db_id <$> tbl_listings d')
        ∧ tbl_posted_listings d `prefix_of` tbl_posted_listings d'
        ∧ (db_consistent d → db_consistent d')
  | None => db w' = None
  end.

(** An interaction after its handler ran: as it was, or with one
    ephemeral reply if it had none. *)
Definition answered (i i' : Interaction) : Prop :=
  replies i' = replies i
  ∨ (replies i = []
     ∧ ∃ content, replies i' = [{| reply_content := content; reply_ephemeral := true |}]).

(** A button interaction that has not been answered and that Discord
    accepts a reply to. *)
Definition button_click (customId messageId : string) : Interaction :=
  {| interaction_customId := customId;
     interaction_messageId := messageId;
     interaction_userId := "42";
     interaction_userTag := "ada#0001";
     reply_error := None;
     replies := [] |}.

(** The tracker rows written for a posted batch: one per listing, in
    order, with positions from 1. *)
Definition tracker_rows (now messageId channelId : string) (batchNumber : Z)
    (posted : list Listing) : list DbPostedListing :=
  imap (λ i listing,
          {| pl_listing_id := listing_id listing;
             pl_message_id := messageId;
             pl_channel_id := channelId;
             pl_batch_number := batchNumber;
             pl_batch_position := Z.of_nat i + 1;
             pl_posted_at := now |})
       posted.

(** Listings l-7 and l-8 stored and not posted yet, and batch 2 made of
    them. *)
Definition unposted_world : World :=
  set_db (Some {| tbl_listings :=
                    [listingToDbListing (sample_listing "l-7" "active") sample_now;
                     listingToDbListing (sample_listing "l-8" "active") sample_now];
                  tbl_posted_listings := [] |})
         status_flip_world.

Definition unposted_batch : ListingBatch :=
  {| batch_number := 2;
     batch_listings := [sample_listing "l-7" "active"; sample_listing "l-8" "active"];
     batch_created_at := 0 |}.


(** * Properties *)

(** ** Diff engine *)

Section filter_facts.
Context {A : Type} (P : A → Prop) `{!∀ x, Decision (P x)}.

  (** A filter keeps every order-preserving selection whose elements all
      satisfy the predicate: it is the largest such selection. *)
Lemma sublist_filter_max (l' l : list A) :
    l' `sublist_of` l → Forall P l' → l' `sublist_of` filter P l.
  Proof.
    induction 1 as [|x l1 l2 Hsub IH|x l1 l2 Hsub IH]; intros HP.
    - constructor.
    - apply Forall_cons in HP as [Hx HP].
      rewrite filter_cons_True by done. constructor. by apply IH.
    - rewrite filter_cons. case_decide.
      + constructor. by apply IH.
      + by apply IH.
  Qed.

Lemma filter_none (l : list A) :
    (∀ x, x ∈ l → ¬ P x) → filter P l = [].
  Proof.
    induction l as [|x l IH]; intros Hall; [done|].
    rewrite filter_cons_False.
    - apply IH. intros y Hy. apply Hall. by right.
    - apply Hall. by left.
  Qed.
End filter_facts.

(** C1.  [getNewListings F K] is exactly the part of [F] whose ids are not
    in [K]: it has the same members, it is an order-preserving selection
    of [F], and every order-preserving selection of [F] made of unknown
    ids is already inside it (so no occurrence is dropped).  Rerunning
    with the result's ids added to [K] returns the empty list. *)
Theorem getNewListings_exact_and_idempotent
    (F : list Listing) (K : gset string) :
  (∀ x, x ∈ getNewListings F K ↔ x ∈ F ∧ listing_id x ∉ K)
  ∧ getNewListings F K `sublist_of` F
  ∧ (∀ l', l' `sublist_of` F → Forall (λ x, listing_id x ∉ K) l' →
           l' `sublist_of` getNewListings F K)
  ∧ getNewListings F (K ∪ list_to_set (listing_id <$> getNewListings F K)) = [].
Proof.
  unfold getNewListings. split_and!.
  - intros x. rewrite list_elem_of_filter. tauto.
  - apply sublist_filter.
  - intros l' Hsub Hall. by apply sublist_filter_max.
  - apply filter_none. intros x Hx Hnot. apply Hnot.
    destruct (decide (listing_id x ∈ K)) as [HK|HK]; [set_solver|].
    apply elem_of_union_r, elem_of_list_to_set, list_elem_of_fmap.
    exists x. split; [done|]. by apply list_elem_of_filter.
Qed.

(** ** Batcher *)

Section Batcher_facts.
Variable clock : nat → Z.

Lemma slice_length {A} (l : list A) (i : nat) :
    length (slice i (i + LISTINGS_PER_BATCH) l)
    = ((length l - i) `min` LISTINGS_PER_BATCH)%nat.
  Proof. unfold slice. rewrite length_take, length_drop. lia. Qed.

Lemma slice_drop {A} (l : list A) (i : nat) :
    slice i (i + LISTINGS_PER_BATCH) l ++ drop (i + LISTINGS_PER_BATCH) l
    = drop i l.
  Proof.
    unfold slice. replace (i + LISTINGS_PER_BATCH - i)%nat with LISTINGS_PER_BATCH by lia.
    rewrite <- drop_drop. apply take_drop.
  Qed.

  (** Invariant of the batching loop: what one run of the loop from index
      [i] appends to [batches]. *)
Lemma batch_loop_spec (listings : list Listing) (i : nat) (bn : Z)
      (batches : list ListingBatch) :
    ∃ new,
      batch_loop clock listings i bn batches = batches ++ new
      ∧ length new = ((length listings - i + 4) / 5)%nat
      ∧ concat (batch_listings <$> new) = drop i listings
      ∧ ∀ (k : nat) b, new !! k = Some b →
          batch_number b = bn + Z.of_nat k
          ∧ batch_listings b
            = slice (i + 5 * k)%nat (i + 5 * k + LISTINGS_PER_BATCH)%nat listings
          ∧ batch_created_at b = clock (length batches + k)%nat.
  Proof.
    funelim (batch_loop clock listings i bn batches).
    - destruct H as (new & -> & Hlen & Hcat & Hk). clear Heqcall.
      eexists (_ :: new). split; [by rewrite <- app_assoc|]. split; [|split].
      + cbn [length]. rewrite Hlen. unfold LISTINGS_PER_BATCH.
        clear -l. zify. Z.div_mod_to_equations. lia.
      + rewrite fmap_cons. cbn [concat batch_listings]. rewrite Hcat.
        apply slice_drop.
      + intros [|k] b Hb; simpl in Hb.
        * inversion Hb; subst; cbn [batch_number batch_listings batch_created_at].
          split_and!; [lia|f_equal; lia|f_equal; lia].
        * apply Hk in Hb as (Hn & Hl & Hc). rewrite Hn, Hl, Hc.
          rewrite length_app; simpl. unfold LISTINGS_PER_BATCH. split_and!.
          -- lia.
          -- f_equal; lia.
          -- f_equal; lia.
    - exists []. rewrite app_nil_r. split; [done|]. split; [|split].
      + cbn [length]. symmetry. apply Nat.div_small. lia.
      + simpl. symmetry. apply drop_ge. lia.
      + intros k b Hb. done.
  Qed.

  (** C2.  [createListingBatches] cuts a list of [N] listings into
      [ceil (N / 5)] contiguous batches: every batch holds between one and
      five listings, every batch but the last holds exactly five, the
      batches concatenated give back the input, and the batch numbers are
      1, 2, ... in order of creation. *)
Theorem createListingBatches_partition (listings : list Listing) :
    let batches := createListingBatches clock listings in
    length batches = ((length listings + 4) / 5)%nat
    ∧ (∀ (k : nat) b, batches !! k = Some b →
         batch_listings b = slice (5 * k)%nat (5 * k + 5)%nat listings
         ∧ (1 ≤ length (batch_listings b) ≤ 5)%nat
         ∧ ((S k < length batches)%nat → length (batch_listings b) = 5%nat)
         ∧ batch_number b = Z.of_nat k + 1)
    ∧ concat (batch_listings <$> batches) = listings.
  Proof.
    unfold createListingBatches.
    destruct (batch_loop_spec listings 0 1 []) as (new & -> & Hlen & Hcat & Hk).
    simpl. rewrite Nat.sub_0_r in Hlen. split; [done|]. split; [|done].
    intros k b Hb. pose proof (lookup_lt_Some _ _ _ Hb) as Hlt.
    apply Hk in Hb as (Hn & Hl & _). simpl in Hl.
    split; [done|]. rewrite Hl.
    change (5 * k + 5)%nat with (5 * k + LISTINGS_PER_BATCH)%nat.
    rewrite slice_length. unfold LISTINGS_PER_BATCH.
    rewrite Hlen in *. clear -Hlt Hn.
    split_and!; [| |intros Hlast|]; zify; Z.div_mod_to_equations; lia.
  Qed.
End Batcher_facts.

(** ** Strings and numbers *)

Lemma split_no_sep (sep : ascii) (s : string) :
  contains sep s = false → split sep s = [s].
Proof.
  induction s as [|c s IH]; simpl; [done|].
  intros H. apply orb_false_iff in H as [Hc Hs].
  apply bool_decide_eq_false in Hc. rewrite decide_False by done.
  by rewrite IH.
Qed.

Lemma split_app_sep (sep : ascii) (a b : string) :
  contains sep a = false →
  split sep (a +:+ String sep b) = a :: split sep b.
Proof.
  induction a as [|c a IH]; simpl.
  - intros _. by rewrite decide_True.
  - intros H. apply orb_false_iff in H as [Hc Ha].
    apply bool_decide_eq_false in Hc. rewrite decide_False by done.
    by rewrite IH.
Qed.

Lemma split_nonempty (sep : ascii) (s : string) : split sep s ≠ [].
Proof.
  destruct s as [|c s]; simpl; [done|].
  case_decide; [done|]. by destruct (split sep s).
Qed.

Lemma parse_digits_uint (d : Decimal.uint) (a : Z) :
  parse_digits (NilEmpty.string_of_uint d) (Some a) = Some (uint_val d a).
Proof.
  revert a. induction d; intros a; simpl; rewrite ?IHd; done.
Qed.

Lemma parse_digits_uint_start (d : Decimal.uint) :
  d ≠ Decimal.Nil →
  parse_digits (NilEmpty.string_of_uint d) None = Some (uint_val d 0).
Proof.
  destruct d; intros Hd; [done|..]; simpl; apply parse_digits_uint.
Qed.

Lemma uint_val_of_lu (d d' : Decimal.uint) :
  uint_val d (Z.of_N (DecimalPos.Unsigned.of_lu d'))
  = Z.of_N (DecimalPos.Unsigned.of_lu (Decimal.revapp d d')).
Proof.
  revert d'. induction d; intros d'; simpl; [done|..];
    rewrite <- IHd; f_equal; cbn [DecimalPos.Unsigned.of_lu]; lia.
Qed.

Lemma uint_val_of_uint (d : Decimal.uint) :
  uint_val d 0 = Z.of_N (Pos.of_uint d).
Proof.
  rewrite DecimalPos.Unsigned.of_uint_alt. unfold Decimal.rev.
  by rewrite <- uint_val_of_lu.
Qed.

Lemma uint_string_no_colon (d : Decimal.uint) :
  contains ":" (NilEmpty.string_of_uint d) = false.
Proof. induction d; simpl; done. Qed.

Lemma uint_string_head (d : Decimal.uint) :
  d ≠ Decimal.Nil →
  ∃ c s, NilEmpty.string_of_uint d = String c s
         ∧ is_white_space c = false ∧ c ≠ "-"%char ∧ c ≠ "+"%char.
Proof.
  destruct d; intros Hd; [done|..]; simpl; eexists _, _;
    (split; [reflexivity|]); split_and!; done.
Qed.

Lemma string_of_uint_nonnil (d : Decimal.uint) :
  d ≠ Decimal.Nil → NilZero.string_of_uint d = NilEmpty.string_of_uint d.
Proof. by destruct d. Qed.

Lemma parseInt_uint (d : Decimal.uint) :
  d ≠ Decimal.Nil →
  parseInt (NilEmpty.string_of_uint d) = Num (Z.of_N (Pos.of_uint d)).
Proof.
  intros Hd. destruct (uint_string_head d Hd) as (c & s & Hs & Hws & Hm & Hp).
  pose proof (parse_digits_uint_start d Hd) as Hparse.
  rewrite Hs in *. unfold parseInt. cbn [trim_start]. rewrite Hws.
  destruct c as [[] [] [] [] [] [] [] []]; try done;
    rewrite Hparse, uint_val_of_uint; f_equal; lia.
Qed.

(** Printing an integer and reading it back with [parseInt]. *)
Lemma parseInt_numberToString (z : Z) : parseInt (numberToString z) = Num z.
Proof.
  unfold numberToString. destruct z as [|p|p]; [done|..]; simpl;
    pose proof (DecimalPos.Unsigned.to_uint_nonnil p) as Hnil;
    rewrite string_of_uint_nonnil by done.
  - rewrite parseInt_uint by done. by rewrite DecimalPos.Unsigned.of_to.
  - unfold parseInt. cbn [trim_start].
    replace (is_white_space "-") with false by done.
    rewrite parse_digits_uint_start by done.
    rewrite uint_val_of_uint, DecimalPos.Unsigned.of_to. f_equal; lia.
Qed.

Lemma numberToString_no_colon (z : Z) :
  contains ":" (numberToString z) = false.
Proof.
  unfold numberToString. destruct z as [|p|p]; [done|..]; simpl;
    pose proof (DecimalPos.Unsigned.to_uint_nonnil p) as Hnil;
    rewrite string_of_uint_nonnil by done; simpl;
    apply uint_string_no_colon.
Qed.

(** ** Button custom ids *)

Lemma createBatchButtons_lookup (batch : ListingBatch) (i : nat) (listing : Listing) :
  batch_listings batch !! i = Some listing →
  createBatchButtons batch !! i = Some (batchButton i listing).
Proof.
  intros H. unfold createBatchButtons. by rewrite list_lookup_imap, H.
Qed.

Lemma split_customId (id pos : string) :
  contains ":" id = false → contains ":" pos = false →
  split ":" ("buy:" +:+ id +:+ ":" +:+ pos) = ["buy"; id; pos].
Proof.
  intros Hid Hpos.
  change ("buy:" +:+ id +:+ ":" +:+ pos)
    with ("buy" +:+ String ":" (id +:+ String ":" pos)).
  rewrite split_app_sep by done. rewrite split_app_sep by done.
  by rewrite split_no_sep.
Qed.

(** C10.  For the listing at index [i] of a batch (position [i + 1]) whose
    id has no colon, the button made by [createBatchButtons] carries the
    custom id [buy:<id>:<position>], and [parseButtonCustomId] reads it
    back as the action [buy], that id and that position.  A string that
    does not split on [:] into exactly three parts of which the first is
    [buy] is parsed to null. *)
Theorem button_customId_roundtrip
    (batch : ListingBatch) (i : nat) (listing : Listing) (s : string) :
  batch_listings batch !! i = Some listing →
  contains ":" (listing_id listing) = false →
  (∃ b, createBatchButtons batch !! i = Some b
        ∧ button_customId b
          = "buy:" +:+ listing_id listing +:+ ":" +:+ numberToString (Z.of_nat i + 1)
        ∧ parseButtonCustomId (button_customId b)
          = Some {| action := buy_action;
                    bd_listing_id := listing_id listing;
                    batch_position := Num (Z.of_nat i + 1) |})
  ∧ ((¬ ∃ p1 p2, split ":" s = ["buy"; p1; p2]) → parseButtonCustomId s = None).
Proof.
  intros Hl Hid. split.
  - exists (batchButton i listing). split; [by apply createBatchButtons_lookup|].
    split; [done|]. unfold parseButtonCustomId. cbn [batchButton button_customId].
    rewrite split_customId by (done || apply numberToString_no_colon).
    rewrite decide_True by done. by rewrite parseInt_numberToString.
  - intros Hshape. unfold parseButtonCustomId.
    destruct (split ":" s) as [|p0 [|p1 [|p2 [|p3 ps]]]]; try done.
    case_decide; [|done]. subst p0. exfalso. apply Hshape. by exists p1, p2.
Qed.

Lemma button_customId_roundtrip_witness :
  batch_listings sample_batch !! 1%nat = Some (sample_listing "l-2" "active")
  ∧ contains ":" (listing_id (sample_listing "l-2" "active")) = false
  ∧ parseButtonCustomId "buy:l-2:2"
    = Some {| action := buy_action; bd_listing_id := "l-2";
              batch_position := Num 2 |}
  ∧ parseButtonCustomId "purchase:l-2:2" = None.
Proof.
  destruct (button_customId_roundtrip sample_batch 1 (sample_listing "l-2" "active")
              "purchase:l-2:2" eq_refl eq_refl) as [(b & Hb & Hid & Hparse) Hnull].
  split; [reflexivity|]. split; [reflexivity|]. split.
  - rewrite Hid in Hparse. exact Hparse.
  - apply Hnull. intros (p1 & p2 & Hs). vm_compute in Hs. discriminate Hs.
Defined.

(** ** Configuration *)

(** With both required variables set, the interval of the configuration
    is whatever [parseInt] makes of [POLL_INTERVAL] (or of ["5000"] when it
    is unset or empty): the validation only logs. *)
Lemma loadConfig_interval (env : gmap string string) :
  falsy (env !! "DISCORD_BOT_TOKEN") = false →
  falsy (env !! "DISCORD_CHANNEL_ID") = false →
  ∃ logs config,
    loadConfig env = (logs, Ok config)
    ∧ polling_interval config
      = parseInt (or_default (env !! "POLL_INTERVAL") "5000").
Proof.
  intros Ht Hc. unfold loadConfig. rewrite Ht, Hc. by eexists _, _.
Qed.

(** The default applies when the variable is unset. *)
Lemma loadConfig_interval_unset :
  ∃ logs config,
    loadConfig sample_env = (logs, Ok config)
    ∧ polling_interval config = Num 5000.
Proof. by eexists _, _. Qed.

(** C9, on the input that separates the code from the claim: with
    [POLL_INTERVAL=500] the loader warns that it is "using default:
    5000ms" and returns a configuration whose interval is 500. *)
Theorem loadConfig_keeps_interval_below_minimum :
  ∃ logs config,
    loadConfig (<["POLL_INTERVAL" := "500"]> sample_env) = (logs, Ok config)
    ∧ polling_interval config = Num 500
    ∧ entry LogLevel.WARN LogCategory.SYSTEM
        "Invalid POLL_INTERVAL: 500. Using default: 5000ms" ∈ logs.
Proof.
  eexists _, _. split; [vm_compute; reflexivity|]. split; [reflexivity|].
  apply list_elem_of_In. vm_compute. tauto.
Qed.

(** The same for a value that is not a number: the interval is [NaN]. *)
Lemma loadConfig_keeps_interval_NaN :
  ∃ logs config,
    loadConfig (<["POLL_INTERVAL" := "soon"]> sample_env) = (logs, Ok config)
    ∧ polling_interval config = NaN.
Proof. eexists _, _. split; [vm_compute; reflexivity|]. reflexivity. Qed.


(** ** Listing transform *)

(** C4.  On a well-formed raw record the transform succeeds, and the
    counter-side of the listing (what a sell listing asks for, what a buy
    listing offers) follows the settlement rule: with a price it is the
    currency pseudo-item [assorted-seeds] / [Assorted Seeds] with the
    fixed icon and the price as amount; without a price its id, amount,
    name and icon are the wanted-item fields of the record.  The two
    mappers of the original script build the same counter-side. *)
Theorem transformApiListing_settlement_rule (a : ApiListing) :
  well_formed a →
  ∃ l, transformApiListing a = Ok l
    ∧ listing_type l = api_listing_type a
    ∧ match api_price a with
      | Some price =>
          side_id (counter_side l) = Some "assorted-seeds"
          ∧ side_name (counter_side l) = "Assorted Seeds"
          ∧ side_icon (counter_side l)
            = "https://cdn.metaforge.app/arc-raiders/icons/assorted-seeds.webp"
          ∧ side_amount (counter_side l) = Some price
      | None =>
          ∃ wanted, api_wanted_item a = Some wanted
            ∧ side_id (counter_side l) = api_wanted_item_id a
            ∧ side_amount (counter_side l) = api_wanted_quantity a
            ∧ side_name (counter_side l) = item_name wanted
            ∧ side_icon (counter_side l) = item_icon wanted
      end
    ∧ (∃ s, Legacy.sell_mapper a = Ok s
            ∧ (api_listing_type a = sell →
               side_id (buying s) = side_id (counter_side l)
               ∧ side_amount (buying s) = side_amount (counter_side l)
               ∧ side_name (buying s) = side_name (counter_side l)
               ∧ side_icon (buying s) = side_icon (counter_side l)))
    ∧ (∃ b, Legacy.buy_mapper a = Ok b
            ∧ (api_listing_type a = buy →
               side_id (selling b) = side_id (counter_side l)
               ∧ side_amount (selling b) = side_amount (counter_side l)
               ∧ side_name (selling b) = side_name (counter_side l)
               ∧ side_icon (selling b) = side_icon (counter_side l))).
Proof.
  intros Hwf.
  assert (Hcounter : ∃ c, Legacy.counter_side a = Ok c
            ∧ match api_price a with
              | Some price =>
                  side_id c = Some "assorted-seeds"
                  ∧ side_name c = "Assorted Seeds"
                  ∧ side_icon c
                    = "https://cdn.metaforge.app/arc-raiders/icons/assorted-seeds.webp"
                  ∧ side_amount c = Some price
              | None =>
                  ∃ wanted, api_wanted_item a = Some wanted
                    ∧ side_id c = api_wanted_item_id a
                    ∧ side_amount c = api_wanted_quantity a
                    ∧ side_name c = item_name wanted
                    ∧ side_icon c = item_icon wanted
              end).
  { unfold Legacy.counter_side.
    destruct (api_price a) as [price|] eqn:Hprice; [by eexists|].
    destruct Hwf as [[? ?]|(_ & [wanted Hw] & _)]; [congruence|]. rewrite Hw.
    eexists. split; [done|]. by exists wanted. }
  destruct Hcounter as (c & Hc & Hrule).
  unfold transformApiListing, Legacy.sell_mapper, Legacy.buy_mapper, barter_side.
  rewrite Hc. unfold Legacy.counter_side in Hc.
  destruct (api_price a) as [price|] eqn:Hprice.
  - injection Hc as <-.
    destruct (api_listing_type a) eqn:Ht; simpl;
      (eexists; split; [reflexivity|]); unfold counter_side; simpl; rewrite ?Ht;
      split_and!; try done; eexists; (split; [reflexivity|]); done.
  - destruct Hrule as (wanted & Hw & Hrule). rewrite Hw in Hc |- *.
    injection Hc as <-.
    destruct (api_listing_type a) eqn:Ht; simpl;
      (eexists; split; [reflexivity|]); unfold counter_side; simpl; rewrite ?Ht;
      (split; [done|]); (split; [by exists wanted|]);
      split; eexists; (split; [reflexivity|]); done.
Qed.

Lemma transformApiListing_settlement_rule_witness :
  well_formed (sample_barter buy)
  ∧ ∃ l, transformApiListing (sample_barter buy) = Ok l
      ∧ side_id (selling l) = Some "copper-wire"
      ∧ side_amount (selling l) = Some 2.
Proof.
  assert (Hwf : well_formed (sample_barter buy)).
  { right. split_and!; eexists; reflexivity. }
  split; [exact Hwf|].
  destruct (transformApiListing_settlement_rule (sample_barter buy) Hwf)
    as (l & Hl & Ht & Hrule & _).
  exists l. split; [exact Hl|].
  cbn in Hrule. destruct Hrule as (wanted & _ & Hid & Hamount & _).
  unfold counter_side in Hid, Hamount. rewrite Ht in Hid, Hamount.
  split; [exact Hid|exact Hamount].
Defined.

(** The transform throws exactly on the records that have neither a price
    nor a wanted item, and then it is the [TypeError] of reading [name]. *)
Lemma transformApiListing_throws (a : ApiListing) :
  api_price a = None → api_wanted_item a = None →
  transformApiListing a = Throw (null_property_error "name").
Proof.
  intros Hp Hw. unfold transformApiListing, barter_side. rewrite Hp, Hw.
  by destruct (api_listing_type a).
Qed.

Lemma transformApiListing_throw_inv (a : ApiListing) (e : Exn) :
  transformApiListing a = Throw e → e = null_property_error "name".
Proof.
  unfold transformApiListing, barter_side.
  destruct (api_listing_type a), (api_price a), (api_wanted_item a);
    simpl; congruence.
Qed.

(** One record that throws makes the whole [map] throw. *)
Lemma outcome_map_transform_throws (data : list ApiListing) (a : ApiListing) :
  a ∈ data → api_price a = None → api_wanted_item a = None →
  outcome_map transformApiListing data = Throw (null_property_error "name").
Proof.
  intros Hin Hp Hw. induction data as [|x data IH]; [by apply not_elem_of_nil in Hin|].
  simpl. destruct (transformApiListing x) as [y|e] eqn:Hx; simpl.
  - apply elem_of_cons in Hin as [->|Hin].
    + rewrite transformApiListing_throws in Hx by done. done.
    + by rewrite IH.
  - by rewrite (transformApiListing_throw_inv x e Hx).
Qed.

(** ** Fetching: a malformed record *)

Section Pipeline_facts.
Variable clock : nat → Z.
Variable now : string.
Variable getTime : string → number.
Variable config : Config.

(** C5, as the code has it.  When a fetched batch contains a record with
    no price and no barter fields, [transformApiListing] throws a
    [TypeError] on it; [getSellListings] / [getBuyListings] log the
    failure and rethrow, so the fetch returns no record of the batch: the
    malformed record fails the whole batch.  Nothing is written to the
    database. *)
Theorem getListingsOfType_malformed_record_fails_batch
    (t : ListingType) (w : World) (data : list ApiListing) (a : ApiListing) :
  api w t = AxiosData data → a ∈ data → malformed a →
  transformApiListing a = Throw (null_property_error "name")
  ∧ ∃ w', getListingsOfType t w = (Throw (null_property_error "name"), w')
      ∧ db w' = db w
      ∧ ALog (entry LogLevel.ERROR LogCategory.API
                ("Failed to fetch " +:+ show_type t +:+ " listings")) ∈ trace w'.
Proof.
  intros Hapi Hin (Hp & _ & Hw & _).
  split; [by apply transformApiListing_throws|].
  pose proof (outcome_map_transform_throws data a Hin Hp Hw) as Hmap.
  unfold getListingsOfType, axios_get, try_catch, bind, log, act, modify, get, lift.
  simpl. rewrite Hapi. simpl. rewrite Hmap. simpl.
  eexists. split; [reflexivity|]. split; [reflexivity|].
  simpl. rewrite !elem_of_app. right. apply list_elem_of_singleton. reflexivity.
Qed.

Lemma getListingsOfType_malformed_record_fails_batch_witness :
  api malformed_batch_world sell
  = AxiosData [sample_api "l-3" "active" (Some 120); malformed_record]
  ∧ malformed_record ∈ [sample_api "l-3" "active" (Some 120); malformed_record]
  ∧ malformed malformed_record
  ∧ ∃ w', getSellListings malformed_batch_world
          = (Throw (null_property_error "name"), w').
Proof.
  assert (Hin : malformed_record
                ∈ [sample_api "l-3" "active" (Some 120); malformed_record]).
  { apply list_elem_of_In. right. left. reflexivity. }
  assert (Hbad : malformed malformed_record) by (repeat split).
  destruct (getListingsOfType_malformed_record_fails_batch sell
              malformed_batch_world _ malformed_record eq_refl Hin Hbad)
    as (_ & w' & Hrun & _).
  split; [reflexivity|]. split; [exact Hin|]. split; [exact Hbad|].
  exists w'. exact Hrun.
Defined.

(** C5 as stated fails: in a batch of a good and a malformed record the
    good record is normalizable, yet the fetch returns no listing at all. *)
Lemma getSellListings_skips_malformed_record_counterexample :
  malformed malformed_record
  ∧ (∃ l, transformApiListing (sample_api "l-3" "active" (Some 120)) = Ok l)
  ∧ ¬ ∃ kept w', getSellListings malformed_batch_world = (Ok kept, w').
Proof.
  split; [repeat split|]. split; [by eexists|].
  intros (kept & w' & Hrun). vm_compute in Hrun. discriminate Hrun.
Qed.

(** ** The poll cycle *)

(** C6.  A tick that finds the previous cycle still processing logs one
    warning and returns: no fetch, no write to the database, nothing sent
    or edited, statistics and flag untouched. *)
Theorem pollListings_skips_while_processing (w : World) :
  isProcessing w = true →
  ∃ w', pollListings clock now getTime config w = (Ok tt, w')
    ∧ trace w' = trace w ++
        [ALog (entry LogLevel.WARN LogCategory.SYSTEM
                 "Previous poll still processing, skipping this cycle")]
    ∧ db w' = db w
    ∧ discordClient w' = discordClient w
    ∧ stats w' = stats w
    ∧ isProcessing w' = true
    ∧ effects (trace w') = effects (trace w).
Proof.
  intros Hbusy. unfold pollListings, bind, get. rewrite Hbusy.
  eexists. split; [reflexivity|]. simpl. split_and!; try done.
  unfold effects. rewrite List.filter_app. simpl. by rewrite app_nil_r.
Qed.

(** On every path out of a cycle that started, the flag is reset. *)
Lemma pollListings_resets_isProcessing (w : World) :
  isProcessing w = false →
  isProcessing (pollListings clock now getTime config w).2 = false.
Proof.
  intros Hidle. unfold pollListings, bind at 1, get. rewrite Hidle.
  unfold bind at 1, modify at 1, try_finally.
  match goal with |- context [try_catch ?b ?h ?w0] =>
    destruct (try_catch b h w0) as [r w1] end.
  by destruct r.
Qed.

End Pipeline_facts.

Lemma pollListings_skips_while_processing_witness :
  isProcessing busy_world = true
  ∧ ∃ w', pollListings sample_clock sample_now sample_getTime sample_config busy_world
          = (Ok tt, w')
      ∧ db w' = db busy_world
      ∧ effects (trace w') = [].
Proof.
  split; [reflexivity|].
  destruct (pollListings_skips_while_processing sample_clock sample_now
              sample_getTime sample_config busy_world eq_refl)
    as (w' & Hrun & _ & Hdb & _ & _ & _ & Heff).
  exists w'. split; [exact Hrun|]. split; [exact Hdb|exact Heff].
Defined.

(** C7, on the input that separates the code from the claim.  No listener
    is registered for ['error'] (the repository registers none) and the
    remote API is unreachable.  The exception of the fetch is caught at
    the cycle boundary; the catch block calls [emitError], whose
    [emit('error', ...)] throws; the flag is reset by [finally], and the
    new exception leaves [pollListings]. *)
Theorem pollListings_rethrows_without_error_listener :
  listeners offline_world BotEvent.ERROR = []
  ∧ ∃ w', pollListings sample_clock sample_now sample_getTime sample_config
            offline_world
          = (Throw ERR_UNHANDLED_ERROR, w')
      ∧ isProcessing w' = false
      ∧ effects (trace w') = [AHttpGet sell; AHttpGet buy; AEmit BotEvent.ERROR].
Proof.
  split; [reflexivity|]. eexists. split; [vm_compute; reflexivity|].
  split; reflexivity.
Qed.

(** With a listener for ['error'] the same cycle ends normally. *)
Lemma pollListings_catches_with_error_listener :
  ∃ w', pollListings sample_clock sample_now sample_getTime sample_config
          (set_listeners
             (λ ev, if decide (ev = BotEvent.ERROR) then [Returns]
                    else repo_listeners ev)
             offline_world)
        = (Ok tt, w')
    ∧ isProcessing w' = false.
Proof. eexists. split; [vm_compute; reflexivity|reflexivity]. Qed.

(** ** Status changes *)

(** C3, on the input that separates the code from the claim.  Message 100
    was posted with listings l-1 (position 1) and l-2 (position 2); the
    fetch reports l-2 as in progress.  The scan stores the new status,
    then requests one edit of message 100; the embed of that edit shows
    l-2 only, as entry 1: l-1, which did not change, is gone from the
    message. *)
Theorem checkStatusChanges_edit_shows_changed_listings_only :
  embed_listing_ids (message_embed sample_message) = ["l-1"; "l-2"]
  ∧ ∃ w' embed,
      checkStatusChanges status_flip_fetched status_flip_world
      = (Ok tt, w')
      ∧ effects (trace w')
        = [AUpdateStatus "l-2" "in-progress" "2026-01-02T00:00:00Z";
           AEdit "chan-1" "100" embed;
           ADelay 200]
      ∧ embed_listing_ids embed = ["l-2"]
      ∧ (entry_position <$> embed_entries embed) = [1]
      ∧ (status ∘ entry_listing <$> embed_entries embed) = ["in-progress"].
Proof.
  split; [reflexivity|]. eexists _, _. split; [vm_compute; reflexivity|].
  split_and!; reflexivity.
Qed.

(** ** Running computations *)

Lemma bind_ok {A B} (m : M A) (k : A → M B) (w w1 : World) (a : A) :
  m w = (Ok a, w1) → bind m k w = k a w1.
Proof. intros H. unfold bind. by rewrite H. Qed.

Lemma bind_throw {A B} (m : M A) (k : A → M B) (w w1 : World) (e : Exn) :
  m w = (Throw e, w1) → bind m k w = (Throw e, w1).
Proof. intros H. unfold bind. by rewrite H. Qed.

Lemma try_catch_bind_ok {A B} (m : M A) (k : A → M B) (h : Exn → M B)
    (w w1 : World) (a : A) :
  m w = (Ok a, w1) → try_catch (bind m k) h w = try_catch (k a) h w1.
Proof. intros H. unfold try_catch. by rewrite (bind_ok _ _ _ _ _ H). Qed.

Lemma try_catch_bind_throw {A B} (m : M A) (k : A → M B) (h : Exn → M B)
    (w w1 : World) (e : Exn) :
  m w = (Throw e, w1) → try_catch (bind m k) h w = h e w1.
Proof. intros H. unfold try_catch. by rewrite (bind_throw _ _ _ _ _ H). Qed.

Section preserves_facts.
Context (R : World → World → Prop) `{!Reflexive R} `{!Transitive R}.

Lemma preserves_ret {A} (a : A) : preserves R (ret a).
Proof. intros w r w' [= <- <-]. reflexivity. Qed.

Lemma preserves_throw {A} (e : Exn) : preserves R (@throw A e).
Proof. intros w r w' [= <- <-]. reflexivity. Qed.

Lemma preserves_get : preserves R get.
Proof. intros w r w' [= <- <-]. reflexivity. Qed.

Lemma preserves_lift {A} (o : Outcome A) : preserves R (lift o).
Proof. destruct o; [apply preserves_ret|apply preserves_throw]. Qed.

Lemma preserves_modify (f : World → World) :
  (∀ w, R w (f w)) → preserves R (modify f).
Proof. intros Hf w r w' [= <- <-]. apply Hf. Qed.

Lemma preserves_bind {A B} (m : M A) (k : A → M B) :
  preserves R m → (∀ a, preserves R (k a)) → preserves R (bind m k).
Proof.
  intros Hm Hk w r w' Hrun. unfold bind in Hrun.
  destruct (m w) as [[a|e] w1] eqn:Hmw.
  - transitivity w1; [by eapply Hm|by eapply Hk].
  - injection Hrun as <- <-. by eapply Hm.
Qed.

Lemma preserves_try_catch {A} (body : M A) (h : Exn → M A) :
  preserves R body → (∀ e, preserves R (h e)) → preserves R (try_catch body h).
Proof.
  intros Hb Hh w r w' Hrun. unfold try_catch in Hrun.
  destruct (body w) as [[a|e] w1] eqn:Hbw.
  - injection Hrun as <- <-. by eapply Hb.
  - transitivity w1; [by eapply Hb|by eapply Hh].
Qed.

Lemma preserves_for_each {A} (l : list A) (body : A → M unit) :
  (∀ x, preserves R (body x)) → preserves R (for_each l body).
Proof.
  intros Hbody. induction l as [|x l IH]; simpl.
  - apply preserves_ret.
  - apply preserves_bind; [apply Hbody|intros _; apply IH].
Qed.

Lemma preserves_call_listeners (hs : list Handler) :
  preserves R (call_listeners hs).
Proof.
  induction hs as [|[|e] hs IH]; simpl;
    [apply preserves_ret|apply IH|apply preserves_throw].
Qed.
End preserves_facts.

#[global] Instance grows_refl : Reflexive grows.
Proof. intros w. exists []. by rewrite app_nil_r. Qed.

#[global] Instance grows_trans : Transitive grows.
Proof.
  intros w1 w2 w3 [n1 H1] [n2 H2]. exists (n1 ++ n2).
  by rewrite H2, H1, app_assoc.
Qed.

#[global] Instance quiet_refl : Reflexive quiet.
Proof. intros w. split; [done|]. exists []. by rewrite app_nil_r. Qed.

#[global] Instance quiet_trans : Transitive quiet.
Proof.
  intros w1 w2 w3 [Hd1 (n1 & H1 & F1)] [Hd2 (n2 & H2 & F2)].
  split; [congruence|]. exists (n1 ++ n2).
  split; [by rewrite H2, H1, app_assoc|by apply Forall_app].
Qed.

Lemma quiet_grows (w w' : World) : quiet w w' → grows w w'.
Proof. intros [_ (new & H & _)]. by exists new. Qed.

(** One step of a proof that a computation preserves a relation: follow
    the structure of the computation. *)
Ltac pres_step :=
  lazymatch goal with
  | |- preserves _ (bind _ _) =>
      apply preserves_bind; try apply _; [|intros ?]
  | |- preserves _ (ret _) => apply preserves_ret; apply _
  | |- preserves _ (throw _) => apply preserves_throw; apply _
  | |- preserves _ get => apply preserves_get; apply _
  | |- preserves _ (lift _) => apply preserves_lift; apply _
  | |- preserves _ (try_catch _ _) =>
      apply preserves_try_catch; try apply _; [|intros ?]
  | |- preserves _ (for_each _ _) =>
      apply preserves_for_each; try apply _; intros ?
  | |- preserves _ (call_listeners _) =>
      apply preserves_call_listeners; apply _
  | |- preserves _ (match ?x with _ => _ end) => destruct x
  end.

Lemma grows_act (a : Action) : preserves grows (act a).
Proof. apply preserves_modify. intros w. by exists [a]. Qed.

Lemma quiet_act (a : Action) :
  is_tracker_write a = false → preserves quiet (act a).
Proof.
  intros Ha. apply preserves_modify. intros w. split; [done|].
  exists [a]. split; [done|]. by constructor.
Qed.

Lemma grows_set_db (d : option Database) : preserves grows (modify (set_db d)).
Proof.
  apply preserves_modify. intros w. exists []. simpl. by rewrite app_nil_r.
Qed.

Lemma quiet_log (l : LogLevel.t) (c : LogCategory.t) (m : string) :
  preserves quiet (log l c m).
Proof. by apply quiet_act. Qed.

Lemma grows_log (l : LogLevel.t) (c : LogCategory.t) (m : string) :
  preserves grows (log l c m).
Proof. apply grows_act. Qed.

Lemma quiet_emit (ev : BotEvent.t) : preserves quiet (emit ev).
Proof. unfold emit. repeat pres_step. by apply quiet_act. Qed.

Lemma quiet_emitError (e : Exn) (context : string) :
  preserves quiet (emitError e context).
Proof. unfold emitError. pres_step; [apply quiet_log|apply quiet_emit]. Qed.

Lemma preserves_weaken (R R' : World → World → Prop) {A} (m : M A) :
  (∀ w w', R w w' → R' w w') → preserves R m → preserves R' m.
Proof. intros HR Hm w r w' Hrun. apply HR. by eapply Hm. Qed.

Lemma grows_emit (ev : BotEvent.t) : preserves grows (emit ev).
Proof. eapply preserves_weaken; [apply quiet_grows|apply quiet_emit]. Qed.

Lemma grows_emitError (e : Exn) (context : string) :
  preserves grows (emitError e context).
Proof. eapply preserves_weaken; [apply quiet_grows|apply quiet_emitError]. Qed.

(** Leaves of a proof that the trace only grows. *)
Ltac grows_leaf :=
  first [ apply grows_log | apply grows_act | apply grows_set_db
        | apply grows_emit | apply grows_emitError ].

Lemma grows_getDatabase : preserves grows getDatabase.
Proof. unfold getDatabase. repeat pres_step. Qed.

Lemma grows_emitBatchPosted (posted : list Listing) (n : Z) :
  preserves grows (emitBatchPosted posted n).
Proof. unfold emitBatchPosted. repeat (pres_step || grows_leaf). Qed.

Lemma grows_emitListingPosted (l : Listing) :
  preserves grows (emitListingPosted l).
Proof. unfold emitListingPosted. repeat (pres_step || grows_leaf). Qed.

Lemma grows_markListingsAsPosted (ids : list string) :
  preserves grows (markListingsAsPosted ids).
Proof.
  unfold markListingsAsPosted.
  repeat (pres_step || grows_leaf || apply grows_getDatabase).
Qed.

Section Delivery_facts.
Variable now : string.
Variable config : Config.

Lemma grows_insertPostedListing (id mid cid : string) (bn pos : Z) :
  preserves grows (insertPostedListing now id mid cid bn pos).
Proof.
  unfold insertPostedListing, run_insert_posted.
  repeat (pres_step || grows_leaf || apply grows_getDatabase).
Qed.

Lemma grows_record_posted (l : list Listing) (i : nat) (mid cid : string)
    (bn : Z) (ids : list string) :
  preserves grows (record_posted now l i mid cid bn ids).
Proof.
  revert i ids. induction l as [|x l IH]; intros i ids; simpl.
  - pres_step.
  - pres_step; [apply grows_insertPostedListing|apply IH].
Qed.

(** What the catch block of [postBatchToDiscord] does. *)
Lemma postBatch_catch_block (msg : string) (e : Exn) (w1 : World) :
  ∃ r w',
    (log LogLevel.ERROR LogCategory.DISCORD msg ;;
     emitError e "postBatchToDiscord" ;;
     ret (@None Message)) w1 = (r, w')
    ∧ quiet w1 w' ∧ ∀ m, r ≠ Ok (Some m).
Proof.
  match goal with |- ∃ r w', ?m w1 = _ ∧ _ =>
    destruct (m w1) as [r w'] eqn:Hrun; exists r, w';
    assert (Hq : preserves quiet m) end.
  { repeat (pres_step || apply quiet_log || apply quiet_emitError). }
  split; [done|]. split; [by eapply Hq|].
  unfold bind, log, act, modify in Hrun. simpl in Hrun.
  destruct (emitError _ _ _) as [[[]|e'] w2]; injection Hrun as <- <-; done.
Qed.

Lemma writes_follow_send_quiet (target : string) (new : list Action) :
  Forall (λ a, is_tracker_write a = false) new → writes_follow_send target new.
Proof.
  intros Hall pre a post -> Ha. apply Forall_app in Hall as [_ Hall].
  apply Forall_cons in Hall as [Hfalse _]. congruence.
Qed.

Lemma writes_follow_send_after (target : string) (x : LogEntry) (m : Message)
    (rest : list Action) :
  writes_follow_send target (ALog x :: ASend target m :: rest).
Proof.
  intros pre a post Heq Ha. destruct pre as [|p0 [|p1 pre]]; simpl in Heq.
  - injection Heq as <- _. done.
  - injection Heq as _ <- _. done.
  - injection Heq as <- <- _. exists m. apply list_elem_of_In. right. by left.
Qed.

(** C8.  In every run of [postBatchToDiscord] the writes to the delivery
    tracker and to the posted flag come after a successful send of the
    batch.  When the send does not go through (the channel is missing,
    is not text based, or the send is rejected) the function returns no
    message (null, or the exception of [emitError] when nothing listens
    for ['error']), the database is as before, and no write is among
    the actions performed. *)
Theorem postBatchToDiscord_writes_only_after_send
    (w : World) (batch : ListingBatch) (channelId : option string) :
  ∃ r w' new,
    postBatchToDiscord now config batch channelId w = (r, w')
    ∧ trace w' = trace w ++ new
    ∧ writes_follow_send (or_default channelId (discord_channelId config)) new
    ∧ (¬ can_deliver w (or_default channelId (discord_channelId config)) →
       (∀ m, r ≠ Ok (Some m))
       ∧ db w' = db w
       ∧ Forall (λ a, is_tracker_write a = false) new).
Proof.
  set (target := or_default channelId (discord_channelId config)).
  (* a run that ends quietly from [w] satisfies the statement *)
  assert (Hquiet : ∀ r w', postBatchToDiscord now config batch channelId w = (r, w') →
            quiet w w' → (∀ m, r ≠ Ok (Some m)) →
            ∃ r w' new,
              postBatchToDiscord now config batch channelId w = (r, w')
              ∧ trace w' = trace w ++ new
              ∧ writes_follow_send target new
              ∧ (¬ can_deliver w target →
                 (∀ m, r ≠ Ok (Some m)) ∧ db w' = db w
                 ∧ Forall (λ a, is_tracker_write a = false) new)).
  { intros r w' Hrun [Hdb (new & Htr & Hall)] Hr. exists r, w', new.
    split_and!; try done. by apply writes_follow_send_quiet. }
  unfold postBatchToDiscord in *. fold target in Hquiet |- *.
  destruct (discordClient w) as [client|] eqn:Hclient.
  2: { (* the client is not initialised *)
    rewrite (try_catch_bind_throw _ _ _ w w
               (mkError "Discord client not initialized. Call initializeDiscordBot() first."))
      in Hquiet |- *
      by (unfold getDiscordClient, bind, get; by rewrite Hclient).
    destruct (postBatch_catch_block
                ("Error posting batch #" +:+ numberToString (batch_number batch) +:+ ":")
                (mkError "Discord client not initialized. Call initializeDiscordBot() first.") w)
      as (r & w' & Hrun & Hq & Hr).
    by eapply Hquiet. }
  rewrite (try_catch_bind_ok _ _ _ w w client) in Hquiet |- *
    by (unfold getDiscordClient, bind, get; by rewrite Hclient).
  match goal with |- context [log ?l ?c ?m] =>
    set (w1 := add_action (ALog (entry l c m)) w);
    rewrite (try_catch_bind_ok (log l c m) _ _ w w1 tt) in Hquiet |- * by done
  end.
  assert (Hw1 : quiet w w1).
  { split; [done|]. eexists [_]. split; [done|]. by constructor. }
  unfold channels_fetch in *.
  destruct (channels client !! target) as [[|channel]|] eqn:Hchan.
  - (* the fetch resolves to null *)
    eapply Hquiet.
    + unfold try_catch, bind, ret, log, act, modify. simpl. reflexivity.
    + etrans; [exact Hw1|]. split; [done|]. eexists [_]. split; [done|]. by constructor.
    + done.
  - destruct (isTextBased channel) eqn:Htext.
    + destruct (write_error channel) as [e|] eqn:Hwrite.
      * (* the send is rejected *)
        rewrite (try_catch_bind_ok _ _ _ w1 w1 (Some channel)) in Hquiet |- * by done.
        cbv beta iota in Hquiet |- *. rewrite Htext in Hquiet |- *.
        rewrite (try_catch_bind_throw _ _ _ w1 w1 e) in Hquiet |- *
          by (unfold channel_send; by rewrite Hwrite).
        destruct (postBatch_catch_block
                    ("Error posting batch #" +:+ numberToString (batch_number batch) +:+ ":")
                    e w1) as (r & w' & Hrun & Hq & Hr).
        eapply Hquiet; [exact Hrun| |exact Hr]. by etrans.
      * (* the send goes through *)
        clear Hquiet.
        rewrite (try_catch_bind_ok _ _ _ w1 w1 (Some channel)) by done.
        cbv beta iota. rewrite Htext.
        set (message := {| message_id := numberToString (next_message_id channel);
                           message_embed := createBatchEmbed batch;
                           message_components := createBatchButtons batch |}).
        match goal with |- context [try_catch (bind (channel_send ?t ?c ?e ?b) ?k) ?h w1] =>
          destruct (channel_send t c e b w1) as [rs w2] eqn:Hsend;
          assert (Hs : rs = Ok message ∧ trace w2 = trace w1 ++ [ASend target message])
        end.
        { unfold channel_send in Hsend. rewrite Hwrite in Hsend.
          unfold bind, put_channel, act, modify, ret in Hsend. simpl in Hsend.
          rewrite Hclient in Hsend. by injection Hsend as <- <-. }
        destruct Hs as [-> Htr2].
        rewrite (try_catch_bind_ok _ _ _ w1 w2 message) by done.
        match goal with |- context [try_catch ?body ?h w2] =>
          destruct (try_catch body h w2) as [r w'] eqn:Hrun;
          assert (Hg : preserves grows (try_catch body h))
        end.
        { repeat (pres_step || grows_leaf || apply grows_record_posted
                  || apply grows_markListingsAsPosted
                  || apply grows_emitBatchPosted
                  || apply grows_emitListingPosted). }
        destruct (Hg _ _ _ Hrun) as [rest Hrest].
        exists r, w', (ALog (entry LogLevel.INFO LogCategory.DISCORD
                               ("Posting batch #" +:+ numberToString (batch_number batch)
                                +:+ " to channel " +:+ target))
                       :: ASend target message :: rest).
        split; [done|]. split; [|split].
        -- rewrite Hrest, Htr2. subst w1. simpl. by rewrite <- !app_assoc.
        -- apply writes_follow_send_after.
        -- intros Hno. exfalso. apply Hno. by exists client, channel.
    + (* the channel is not text based *)
      eapply Hquiet.
      * unfold try_catch, bind, ret, log, act, modify. simpl. rewrite Htext. reflexivity.
      * etrans; [exact Hw1|]. split; [done|]. eexists [_]. split; [done|]. by constructor.
      * done.
  - (* the fetch is rejected: unknown channel *)
    rewrite (try_catch_bind_throw _ _ _ w1 w1 (discord_api_error "Unknown Channel"))
      in Hquiet |- * by done.
    destruct (postBatch_catch_block
                ("Error posting batch #" +:+ numberToString (batch_number batch) +:+ ":")
                (discord_api_error "Unknown Channel") w1) as (r & w' & Hrun & Hq & Hr).
    eapply Hquiet; [exact Hrun| |exact Hr]. by etrans.
Qed.

End Delivery_facts.

Lemma postBatchToDiscord_writes_only_after_send_witness :
  ¬ can_deliver read_only_world "chan-1"
  ∧ ∃ r w',
      postBatchToDiscord sample_now sample_config sample_batch None read_only_world
      = (r, w')
      ∧ (∀ m, r ≠ Ok (Some m))
      ∧ db w' = db read_only_world.
Proof.
  assert (Hno : ¬ can_deliver read_only_world "chan-1").
  { intros (client & channel & Hc & Hch & _ & Hw).
    injection Hc as <-. vm_compute in Hch. injection Hch as <-.
    discriminate Hw. }
  split; [exact Hno|].
  destruct (postBatchToDiscord_writes_only_after_send sample_now sample_config
              read_only_world sample_batch None)
    as (r & w' & new & Hrun & _ & _ & Hfail).
  destruct (Hfail Hno) as (Hr & Hdb & _).
  exists r, w'. split; [exact Hrun|]. split; [exact Hr|exact Hdb].
Defined.

(** ** The cycle boundary, in general *)

#[global] Instance same_env_refl : Reflexive same_env.
Proof. by intros w. Qed.

#[global] Instance same_env_trans : Transitive same_env.
Proof. intros w1 w2 w3 [H1 H1'] [H2 H2']. split; congruence. Qed.

Lemma same_env_act (a : Action) : preserves same_env (act a).
Proof. apply preserves_modify. by intros w. Qed.

Lemma same_env_log (l : LogLevel.t) (c : LogCategory.t) (m : string) :
  preserves same_env (log l c m).
Proof. apply same_env_act. Qed.

Lemma same_env_getListingsOfType (t : ListingType) :
  preserves same_env (getListingsOfType t).
Proof.
  unfold getListingsOfType, axios_get.
  repeat (pres_step || apply same_env_log || apply same_env_act).
Qed.

(** A fetch whose request is rejected rethrows the rejection. *)
Lemma getListingsOfType_rejects (t : ListingType) (w : World) (e : Exn) :
  api w t = AxiosRejects e →
  ∃ w', getListingsOfType t w = (Throw e, w') ∧ same_env w w'.
Proof.
  intros Hapi. destruct (getListingsOfType t w) as [r w'] eqn:Hrun.
  exists w'. split; [|by eapply same_env_getListingsOfType].
  f_equal. unfold getListingsOfType, axios_get, try_catch, bind, log, act,
    modify, get in Hrun. simpl in Hrun. rewrite Hapi in Hrun. simpl in Hrun.
  destruct (exn_response e) as [[code text]|]; [|destruct (exn_request e)];
    simpl in Hrun; by injection Hrun as <- _.
Qed.

Section Boundary_facts.
Variable clock : nat → Z.
Variable now : string.
Variable getTime : string → number.
Variable config : Config.

Lemma getAllListings_sell_rejects (w : World) (e : Exn) :
  api w sell = AxiosRejects e →
  ∃ w', getAllListings getTime w = (Throw e, w') ∧ same_env w w'.
Proof.
  intros Hapi. unfold getAllListings.
  set (w1 := add_action (ALog (entry LogLevel.INFO LogCategory.API
               "Fetching all listings (buy + sell) from MetaForge...")) w).
  rewrite (bind_ok _ _ w w1 tt) by done.
  destruct (getListingsOfType_rejects sell w1 e Hapi) as (w2 & Hsell & Henv2).
  destruct (getBuyListings w2) as [r3 w3] eqn:Hbuy.
  assert (Henv3 : same_env w2 w3) by (by eapply same_env_getListingsOfType).
  rewrite (try_catch_bind_throw _ _ _ w1 w3 e).
  - eexists. split; [reflexivity|].
    destruct Henv2 as [? ?], Henv3 as [? ?]. subst w1. simpl in *.
    split; simpl; congruence.
  - unfold promise_all2, getSellListings. rewrite Hsell, Hbuy. by destruct r3.
Qed.

(** With nothing listening for ['error'], [emitError] throws. *)
Lemma emitError_unhandled (e : Exn) (context : string) (w : World) :
  listeners w BotEvent.ERROR = [] →
  ∃ w', emitError e context w = (Throw ERR_UNHANDLED_ERROR, w')
        ∧ isProcessing w' = isProcessing w.
Proof.
  intros Hnone. unfold emitError, emit, bind, log, act, modify, get. simpl.
  rewrite Hnone. by eexists.
Qed.

(** Whenever the fetch of the sell listings is rejected and nothing
    listens for ['error'], the cycle resets the flag and an exception
    leaves [pollListings]. *)
Lemma pollListings_throws_on_fetch_failure (w : World) (e : Exn) :
  isProcessing w = false →
  listeners w BotEvent.ERROR = [] →
  api w sell = AxiosRejects e →
  ∃ w', pollListings clock now getTime config w = (Throw ERR_UNHANDLED_ERROR, w')
        ∧ isProcessing w' = false.
Proof.
  intros Hidle Hnone Hapi.
  pose proof (pollListings_resets_isProcessing clock now getTime config w Hidle)
    as Hreset.
  destruct (pollListings clock now getTime config w) as [r w'] eqn:Hrun.
  exists w'. split; [|exact Hreset]. f_equal.
  unfold pollListings in Hrun. unfold bind at 1, get in Hrun.
  rewrite Hidle in Hrun. unfold bind at 1, modify at 1 in Hrun.
  set (w1 := set_isProcessing true w) in Hrun.
  unfold try_finally in Hrun.
  match type of Hrun with context [try_catch (bind (log ?l ?c ?m) ?k) ?h w1] =>
    set (w2 := add_action (ALog (entry l c m)) w1) in *;
    rewrite (try_catch_bind_ok (log l c m) k h w1 w2 tt) in Hrun by done
  end.
  match type of Hrun with context [try_catch (bind (log ?l ?c ?m) ?k) ?h w2] =>
    set (w3 := add_action (ALog (entry l c m)) w2) in *;
    rewrite (try_catch_bind_ok (log l c m) k h w2 w3 tt) in Hrun by done
  end.
  destruct (getAllListings_sell_rejects w3 e Hapi) as (w4 & Hfetch & Hl4 & _).
  rewrite (try_catch_bind_throw _ _ _ w3 w4 e Hfetch) in Hrun.
  set (w5 := add_action (ALog (entry LogLevel.ERROR LogCategory.SYSTEM
                                 "Error during polling cycle:")) w4) in *.
  rewrite (bind_ok _ _ w4 w5 tt) in Hrun by done.
  destruct (emitError_unhandled e "pollListings" w5) as (w6 & Hemit & _).
  { simpl. by rewrite Hl4. }
  rewrite Hemit in Hrun. simpl in Hrun. by injection Hrun as <- _.
Qed.

End Boundary_facts.

(** * Further properties *)

(** ** Listing transform and fetch *)

Lemma transformApiListing_rejects_iff (a : ApiListing) :
  (∃ e, transformApiListing a = Throw e)
  ↔ api_price a = None ∧ api_wanted_item a = None.
Proof.
  split.
  - intros [e He]. unfold transformApiListing, barter_side in He.
    destruct (api_listing_type a), (api_price a), (api_wanted_item a);
      simpl in He; try discriminate He; done.
  - intros [Hp Hw]. eexists. by apply transformApiListing_throws.
Qed.

Lemma transformApiListing_fields (a : ApiListing) (l : Listing) :
  transformApiListing a = Ok l →
  listing_id l = api_id a
  ∧ listing_type l = api_listing_type a
  ∧ user_id l = api_user_id a
  ∧ status l = api_status a
  ∧ description l = api_description a
  ∧ created_at l = api_created_at a
  ∧ updated_at l = api_updated_at a
  ∧ user_profile l = api_user_profile a
  ∧ item_side l
    = {| side_id := Some (api_item_id a);
         side_amount := Some (api_quantity a);
         side_name := item_name (api_item a);
         side_icon := item_icon (api_item a);
         side_rarity := item_rarity (api_item a) |}.
Proof.
  unfold transformApiListing, barter_side, item_side.
  destruct (api_listing_type a) eqn:Ht, (api_price a), (api_wanted_item a);
    simpl; intros H; try discriminate H; injection H as <-; simpl;
    rewrite ?Ht; split_and!; reflexivity.
Qed.

(** X1.  [transformApiListing] throws exactly on the records that have
    neither a price nor a wanted item; a missing wanted item id or wanted
    quantity alone does not make it throw. *)
Theorem transformApiListing_throws_iff (a : ApiListing) :
  (∃ e, transformApiListing a = Throw e)
  ↔ api_price a = None ∧ api_wanted_item a = None.
Proof. apply transformApiListing_rejects_iff. Qed.

(** X2.  What the transform copies: the identity, type, status, user and
    time stamps of the record, and on the item side (offered by a sell
    listing, asked for by a buy listing) the item id, quantity, name, icon
    and rarity of the record's item. *)
Theorem transformApiListing_copies_record (a : ApiListing) (l : Listing) :
  transformApiListing a = Ok l →
  listing_id l = api_id a
  ∧ listing_type l = api_listing_type a
  ∧ user_id l = api_user_id a
  ∧ status l = api_status a
  ∧ description l = api_description a
  ∧ created_at l = api_created_at a
  ∧ updated_at l = api_updated_at a
  ∧ user_profile l = api_user_profile a
  ∧ item_side l
    = {| side_id := Some (api_item_id a);
         side_amount := Some (api_quantity a);
         side_name := item_name (api_item a);
         side_icon := item_icon (api_item a);
         side_rarity := item_rarity (api_item a) |}.
Proof. apply transformApiListing_fields. Qed.

Lemma transformApiListing_copies_record_witness :
  ∃ l, transformApiListing (sample_barter buy) = Ok l
    ∧ listing_id l = "b-1"
    ∧ side_id (buying l) = Some "iron-scrap".
Proof.
  eexists. split; [reflexivity|].
  destruct (transformApiListing_copies_record (sample_barter buy) _ eq_refl)
    as (Hid & _ & _ & _ & _ & _ & _ & _ & Hside).
  split; [exact Hid|]. exact (f_equal side_id Hside).
Defined.

#[global] Instance only_trace_refl : Reflexive only_trace.
Proof. by intros w. Qed.

#[global] Instance only_trace_trans : Transitive only_trace.
Proof.
  intros w1 w2 w3 (?&?&?&?&?&?) (?&?&?&?&?&?). split_and!; congruence.
Qed.

Lemma only_trace_act (a : Action) : preserves only_trace (act a).
Proof. apply preserves_modify. by intros w. Qed.

Lemma only_trace_log (l : LogLevel.t) (c : LogCategory.t) (m : string) :
  preserves only_trace (log l c m).
Proof. apply only_trace_act. Qed.

Lemma only_trace_emit (ev : BotEvent.t) : preserves only_trace (emit ev).
Proof. unfold emit. repeat (pres_step || apply only_trace_act). Qed.

Lemma only_trace_emitError (e : Exn) (context : string) :
  preserves only_trace (emitError e context).
Proof.
  unfold emitError. repeat (pres_step || apply only_trace_log || apply only_trace_emit).
Qed.

Lemma only_trace_getListingsOfType (t : ListingType) :
  preserves only_trace (getListingsOfType t).
Proof.
  unfold getListingsOfType, axios_get.
  repeat (pres_step || apply only_trace_log || apply only_trace_act).
Qed.

Lemma only_trace_promise_all2 {A B} (p1 : M A) (p2 : M B) :
  preserves only_trace p1 → preserves only_trace p2 →
  preserves only_trace (promise_all2 p1 p2).
Proof.
  intros H1 H2 w r w' Hrun. unfold promise_all2 in Hrun.
  destruct (p1 w) as [r1 w1] eqn:E1. destruct (p2 w1) as [r2 w2] eqn:E2.
  assert (only_trace w w2) by (etrans; [by eapply H1|by eapply H2]).
  destruct r1, r2; by injection Hrun as <- <-.
Qed.

Lemma only_trace_getAllListings (getTime : string → number) :
  preserves only_trace (getAllListings getTime).
Proof.
  unfold getAllListings, getSellListings, getBuyListings.
  repeat (pres_step || apply only_trace_log || apply only_trace_promise_all2
          || apply only_trace_getListingsOfType).
Qed.

(** A fetch that is answered returns the transformed records. *)
Lemma getListingsOfType_answers (t : ListingType) (w : World)
    (data : list ApiListing) (ls : list Listing) :
  api w t = AxiosData data → outcome_map transformApiListing data = Ok ls →
  ∃ w', getListingsOfType t w = (Ok ls, w') ∧ only_trace w w'.
Proof.
  intros Hapi Hmap. destruct (getListingsOfType t w) as [r w'] eqn:Hrun.
  exists w'. split; [|by eapply only_trace_getListingsOfType].
  f_equal. unfold getListingsOfType, axios_get, try_catch, bind, log, act,
    modify, get, lift in Hrun. simpl in Hrun. rewrite Hapi in Hrun.
  simpl in Hrun. rewrite Hmap in Hrun. simpl in Hrun. by injection Hrun as <- _.
Qed.





(** ** Sorting the fetched listings *)

Section sort_facts.
Context {A : Type} (key : A → Z).

Lemma insert_sorted_perm (cmp : A → A → number) (x : A) (l : list A) :
  insert_sorted cmp x l ≡ₚ x :: l.
Proof.
  induction l as [|y l IH]; simpl; [done|].
  destruct (sorts_after (cmp x y)); [|done].
  rewrite IH. apply Permutation_swap.
Qed.

Lemma array_sort_perm (cmp : A → A → number) (l : list A) :
  array_sort cmp l ≡ₚ l.
Proof.
  unfold array_sort. induction l as [|x l IH]; simpl; [done|].
  by rewrite insert_sorted_perm, IH.
Qed.

(** Sorting depends on the comparator only through its values on the
    elements of the list. *)
Lemma insert_sorted_ext (cmp cmp' : A → A → number) (x : A) (l : list A) :
  (∀ y, y ∈ l → cmp x y = cmp' x y) →
  insert_sorted cmp x l = insert_sorted cmp' x l.
Proof.
  induction l as [|y l IH]; simpl; intros H; [done|].
  rewrite (H y) by (by left). rewrite IH; [done|].
  intros z Hz. apply H. by right.
Qed.

Lemma array_sort_ext (cmp cmp' : A → A → number) (l : list A) :
  (∀ x y, x ∈ l → y ∈ l → cmp x y = cmp' x y) →
  array_sort cmp l = array_sort cmp' l.
Proof.
  unfold array_sort. induction l as [|x l IH]; simpl; intros H; [done|].
  rewrite IH by (intros; apply H; by right).
  apply insert_sorted_ext. intros y Hy. apply H; [by left|].
  right. by rewrite <- (array_sort_perm cmp' l).
Qed.

Lemma insert_sorted_sorted (x : A) (l : list A) :
  StronglySorted (λ a b, key b ≤ key a) l →
  StronglySorted (λ a b, key b ≤ key a) (insert_sorted (by_key_desc key) x l).
Proof.
  induction 1 as [|y l Hs IH Hy]; simpl.
  - repeat constructor.
  - case_bool_decide as Hlt.
    + constructor; [done|]. rewrite insert_sorted_perm. constructor; [lia|done].
    + constructor; [by constructor|]. constructor; [lia|].
      eapply Forall_impl; [exact Hy|]. simpl. intros z Hz. lia.
Qed.

Lemma array_sort_sorted (l : list A) :
  StronglySorted (λ a b, key b ≤ key a) (array_sort (by_key_desc key) l).
Proof.
  unfold array_sort. induction l as [|x l IH]; simpl; [constructor|].
  by apply insert_sorted_sorted.
Qed.

Lemma insert_sorted_stable (t : Z) (x : A) (l : list A) :
  filter (λ a, key a = t) (insert_sorted (by_key_desc key) x l)
  = filter (λ a, key a = t) (x :: l).
Proof.
  induction l as [|y l IH]; simpl; [done|].
  case_bool_decide as Hlt; [|done].
  rewrite filter_cons, IH, !filter_cons.
  repeat case_decide; try done; lia.
Qed.

Lemma array_sort_stable (t : Z) (l : list A) :
  filter (λ a, key a = t) (array_sort (by_key_desc key) l) = filter (λ a, key a = t) l.
Proof.
  unfold array_sort. induction l as [|x l IH]; simpl; [done|].
  rewrite insert_sorted_stable, !filter_cons. by rewrite IH.
Qed.
End sort_facts.

Section Fetch_facts.
Variable getTime : string → number.

Lemma created_at_comparator (l : list Listing) :
  Forall (λ x, getTime (created_at x) ≠ NaN) l →
  array_sort (λ a b, number_sub (getTime (created_at b)) (getTime (created_at a))) l
  = array_sort (by_key_desc (time_of getTime)) l.
Proof.
  intros Hall. apply array_sort_ext. intros x y Hx Hy.
  rewrite Forall_forall in Hall. pose proof (Hall x Hx). pose proof (Hall y Hy).
  unfold by_key_desc, time_of.
  by destruct (getTime (created_at x)), (getTime (created_at y)).
Qed.

(** What [getAllListings] returns when both requests are answered. *)
Lemma getAllListings_answers (w : World) (sells buys : list ApiListing)
    (ss bs : list Listing) :
  api w sell = AxiosData sells → api w buy = AxiosData buys →
  outcome_map transformApiListing sells = Ok ss →
  outcome_map transformApiListing buys = Ok bs →
  ∃ w', getAllListings getTime w
        = (Ok (array_sort (λ a b, number_sub (getTime (created_at b))
                                             (getTime (created_at a)))
                          (ss ++ bs)), w')
        ∧ only_trace w w'.
Proof.
  intros Hs Hb Hms Hmb.
  destruct (getAllListings getTime w) as [r w'] eqn:Hrun. exists w'.
  split; [|by eapply only_trace_getAllListings]. f_equal.
  unfold getAllListings in Hrun.
  set (w1 := add_action (ALog (entry LogLevel.INFO LogCategory.API
               "Fetching all listings (buy + sell) from MetaForge...")) w) in *.
  rewrite (bind_ok _ _ w w1 tt) in Hrun by done.
  destruct (getListingsOfType_answers sell w1 sells ss Hs Hms) as (w2 & Hsell & Ht2).
  assert (Hb2 : api w2 buy = AxiosData buys).
  { destruct Ht2 as (_&_&_&_&_&->). exact Hb. }
  destruct (getListingsOfType_answers buy w2 buys bs Hb2 Hmb) as (w3 & Hbuy & _).
  rewrite (try_catch_bind_ok _ _ _ w1 w3 (ss, bs)) in Hrun.
  - unfold try_catch, bind, log, act, modify, ret in Hrun. simpl in Hrun.
    by injection Hrun as <- _.
  - unfold promise_all2, getSellListings, getBuyListings. by rewrite Hsell, Hbuy.
Qed.

(** X4.  When both requests are answered and every record transforms,
    [getAllListings] returns every sell and buy listing exactly once;
    when all creation dates parse, the result is ordered newest first, and
    listings with the same creation time keep their order (sell before
    buy, each in the order of its response). *)
Theorem getAllListings_merges_newest_first (w : World)
    (sells buys : list ApiListing) (ss bs : list Listing) :
  api w sell = AxiosData sells → api w buy = AxiosData buys →
  outcome_map transformApiListing sells = Ok ss →
  outcome_map transformApiListing buys = Ok bs →
  ∃ all w',
    getAllListings getTime w = (Ok all, w')
    ∧ all ≡ₚ ss ++ bs
    ∧ only_trace w w'
    ∧ (Forall (λ x, getTime (created_at x) ≠ NaN) (ss ++ bs) →
       StronglySorted (λ a b, time_of getTime b ≤ time_of getTime a) all
       ∧ ∀ t, filter (λ x, time_of getTime x = t) all
              = filter (λ x, time_of getTime x = t) (ss ++ bs)).
Proof.
  intros Hs Hb Hms Hmb.
  destruct (getAllListings_answers w sells buys ss bs Hs Hb Hms Hmb) as (w' & Hrun & Ht).
  eexists _, w'. split; [exact Hrun|]. split; [apply array_sort_perm|].
  split; [exact Ht|]. intros Hparse. rewrite created_at_comparator by done.
  split; [apply array_sort_sorted|]. intros t. apply array_sort_stable.
Qed.

End Fetch_facts.

Lemma getAllListings_merges_newest_first_witness :
  ∃ all w',
    getAllListings sample_getTime
      (sample_world (AxiosData [sample_api "l-1" "active" (Some 120)])
                    (AxiosData [sample_barter buy]))
    = (Ok all, w')
    ∧ listing_id <$> all = ["l-1"; "b-1"].
Proof.
  destruct (getAllListings_merges_newest_first sample_getTime
              (sample_world (AxiosData [sample_api "l-1" "active" (Some 120)])
                            (AxiosData [sample_barter buy]))
              _ _ _ _ eq_refl eq_refl eq_refl eq_refl)
    as (all & w' & Hrun & _ & _ & Hsorted).
  exists all, w'. split; [exact Hrun|].
  destruct Hsorted as [_ Hstable].
  { repeat constructor; discriminate. }
  specialize (Hstable 0).
  assert (Hall : filter (λ x, time_of sample_getTime x = 0) all = all).
  { clear. induction all as [|x all IH]; [done|].
    rewrite filter_cons_True by done. by rewrite IH. }
  rewrite Hall in Hstable. rewrite Hstable. reflexivity.
Defined.


(** ** Database layer *)

Lemma dbListingToListing_listingToDbListing (l : Listing) (fetched_at : string) :
  dbListingToListing (listingToDbListing l fetched_at) = stored_view l
  ∧ stored_view (stored_view l) = stored_view l
  ∧ (side_rarity (selling l) = None → side_rarity (buying l) = None →
     avatar_url (user_profile l) ≠ Some "" → stored_view l = l).
Proof.
  assert (Havatar : ∀ a : option string,
            (if falsy (if falsy a then None else a) then None
             else if falsy a then None else a)
            = (if falsy a then None else a)).
  { intros a. by destruct (falsy a) eqn:E; simpl; rewrite ?E. }
  split_and!.
  - unfold dbListingToListing, listingToDbListing, stored_view. simpl.
    by rewrite Havatar.
  - unfold stored_view. simpl. by rewrite Havatar.
  - intros Hs Hb Ha.
    destruct l as [? ? ? ? ? ? ? [? ? ? ? sr] [? ? ? ? br] [? ? av ?]]. simpl in *.
    subst. unfold stored_view. simpl. do 2 f_equal.
    destruct av as [s|]; [|done]. simpl.
    rewrite bool_decide_eq_false_2; [done|congruence].
Qed.

(** X6.  Storing a listing and reading it back loses the rarity of both
    sides and turns an empty avatar URL into a missing one; everything
    else comes back as it went in.  A listing without rarity and without
    an empty avatar URL comes back unchanged. *)
Theorem listing_store_round_trip (l : Listing) (fetched_at : string) :
  dbListingToListing (listingToDbListing l fetched_at) = stored_view l
  ∧ stored_view (stored_view l) = stored_view l
  ∧ (side_rarity (selling l) = None → side_rarity (buying l) = None →
     avatar_url (user_profile l) ≠ Some "" → stored_view l = l).
Proof. apply dbListingToListing_listingToDbListing. Qed.

Section Database_facts.
Variable now : string.

Lemma not_null_columns_storable (l : Listing) (t : string) :
  not_null_columns_ok (listingToDbListing l t) = true ↔ storable l.
Proof.
  unfold not_null_columns_ok, storable. simpl.
  rewrite !andb_true_iff, !bool_decide_eq_true. tauto.
Qed.

(** The three ways [insertListing] runs on an open database. *)
Lemma insertListing_fresh (l : Listing) (w : World) (d : Database) :
  db w = Some d → storable l → listing_id l ∉ db_id <$> tbl_listings d →
  ∃ w', insertListing now l w = (Ok true, w')
    ∧ db w' = Some {| tbl_listings := tbl_listings d ++ [listingToDbListing l now];
                      tbl_posted_listings := tbl_posted_listings d |}
    ∧ discordClient w' = discordClient w.
Proof.
  intros Hdb Hst Hnew. apply (not_null_columns_storable l now) in Hst.
  unfold insertListing, run_insert_listing, getDatabase, try_catch, bind, get,
    log, act, modify, ret, throw.
  repeat (rewrite Hdb; cbv beta iota). rewrite Hst. cbn [negb].
  rewrite (bool_decide_eq_false_2
             (db_id (listingToDbListing l now) ∈ db_id <$> tbl_listings d) Hnew).
  by eexists.
Qed.

Lemma insertListing_duplicate (l : Listing) (w : World) (d : Database) :
  db w = Some d → storable l → listing_id l ∈ db_id <$> tbl_listings d →
  ∃ w', insertListing now l w = (Ok false, w') ∧ db w' = db w
        ∧ discordClient w' = discordClient w.
Proof.
  intros Hdb Hst Hold. apply (not_null_columns_storable l now) in Hst.
  unfold insertListing, run_insert_listing, getDatabase, try_catch, bind, get,
    log, act, modify, ret, throw.
  repeat (rewrite Hdb; cbv beta iota). rewrite Hst. cbn [negb].
  rewrite (bool_decide_eq_true_2
             (db_id (listingToDbListing l now) ∈ db_id <$> tbl_listings d) Hold).
  by eexists.
Qed.

Lemma insertListing_null_column (l : Listing) (w : World) (d : Database) :
  db w = Some d → ¬ storable l →
  ∃ w', insertListing now l w = (Throw (sqlite_error "SQLITE_CONSTRAINT_NOTNULL"), w')
        ∧ db w' = db w.
Proof.
  intros Hdb Hst. rewrite <- (not_null_columns_storable l now) in Hst.
  apply not_true_is_false in Hst.
  unfold insertListing, run_insert_listing, getDatabase, try_catch, bind, get,
    log, act, modify, ret, throw.
  repeat (rewrite Hdb; cbv beta iota). rewrite Hst. cbn [negb].
  by eexists.
Qed.

Lemma find_listing_app_new (id : string) (rows : list DbListing) (row : DbListing)
    (posted : list DbPostedListing) :
  id ∉ db_id <$> rows → db_id row = id →
  find_listing id {| tbl_listings := rows ++ [row]; tbl_posted_listings := posted |}
  = Some row.
Proof.
  intros Hnew Hrow. unfold find_listing. simpl.
  induction rows as [|r rows IH]; simpl.
  - by rewrite decide_True.
  - rewrite fmap_cons in Hnew. apply not_elem_of_cons in Hnew as [Hne Hnew].
    rewrite decide_False by done. specialize (IH Hnew).
    destruct (list_find _ (rows ++ [row])) as [[i x]|]; simpl in *; done.
Qed.

Lemma getDatabase_open (w : World) (d : Database) :
  db w = Some d → getDatabase w = (Ok d, w).
Proof. intros Hdb. unfold getDatabase, bind, get. by rewrite Hdb. Qed.

Lemma getDatabase_closed (w : World) :
  db w = None →
  getDatabase w
  = (Throw (mkError "Database not initialized. Call initializeDatabase() first."), w).
Proof. intros Hdb. unfold getDatabase, bind, get. by rewrite Hdb. Qed.

Lemma listingExists_open (id : string) (w : World) (d : Database) :
  db w = Some d →
  listingExists id w = (Ok (bool_decide (id ∈ db_id <$> tbl_listings d)), w).
Proof.
  intros Hdb. unfold listingExists.
  by rewrite (bind_ok _ _ w w d (getDatabase_open w d Hdb)).
Qed.

Lemma getListingById_found (id : string) (w : World) (d : Database) (row : DbListing) :
  db w = Some d → find_listing id d = Some row →
  getListingById id w = (Ok (Some (dbListingToListing row)), w).
Proof.
  intros Hdb Hrow. unfold getListingById.
  rewrite (bind_ok _ _ w w d (getDatabase_open w d Hdb)). by rewrite Hrow.
Qed.

(** X7.  Inserting a listing whose id is not stored yet returns true and
    appends one row, leaving the existing rows and the tracker as they
    were; from then on [listingExists] is true for the id and
    [getListingById] returns the listing as stored. *)
Theorem insertListing_then_lookup (l : Listing) (w : World) (d : Database) :
  db w = Some d → storable l → listing_id l ∉ db_id <$> tbl_listings d →
  ∃ w1,
    insertListing now l w = (Ok true, w1)
    ∧ db w1 = Some {| tbl_listings := tbl_listings d ++ [listingToDbListing l now];
                      tbl_posted_listings := tbl_posted_listings d |}
    ∧ listingExists (listing_id l) w1 = (Ok true, w1)
    ∧ getListingById (listing_id l) w1 = (Ok (Some (stored_view l)), w1).
Proof.
  intros Hdb Hst Hnew.
  destruct (insertListing_fresh l w d Hdb Hst Hnew) as (w1 & Hrun & Hdb1 & _).
  exists w1. split; [exact Hrun|]. split; [exact Hdb1|]. split.
  - rewrite (listingExists_open _ _ _ Hdb1). f_equal. f_equal.
    apply bool_decide_eq_true_2. cbn [tbl_listings].
    rewrite fmap_app. apply elem_of_app. right. by left.
  - rewrite (getListingById_found _ _ _ (listingToDbListing l now) Hdb1).
    + by destruct (dbListingToListing_listingToDbListing l now) as [-> _].
    + by apply find_listing_app_new.
Qed.


(** X9.  A barter record whose wanted item is present but whose wanted
    item id or wanted quantity is null passes the transform; the listing
    it gives cannot be stored: [insertListing] throws the [NOT NULL]
    constraint error of SQLite and leaves the database as it is. *)
Theorem half_barter_record_is_rejected_by_insert
    (a : ApiListing) (wanted : Item) (w : World) (d : Database) :
  api_price a = None → api_wanted_item a = Some wanted →
  api_wanted_item_id a = None ∨ api_wanted_quantity a = None →
  db w = Some d →
  ∃ l w', transformApiListing a = Ok l
    ∧ insertListing now l w = (Throw (sqlite_error "SQLITE_CONSTRAINT_NOTNULL"), w')
    ∧ db w' = db w.
Proof.
  intros Hp Hw Hnull Hdb.
  destruct (transformApiListing a) as [l|e] eqn:Hl.
  2: { assert (He : ∃ e, transformApiListing a = Throw e) by eauto.
       apply transformApiListing_rejects_iff in He as [_ ?]. congruence. }
  assert (Hns : ¬ storable l).
  { unfold transformApiListing, barter_side in Hl. rewrite Hp, Hw in Hl.
    intros (Hsi & Hsa & Hbi & Hba).
    destruct (api_listing_type a); simpl in Hl; injection Hl as <-; simpl in *;
      destruct Hnull as [Hn|Hn]; rewrite Hn in *;
      first [by destruct Hsi|by destruct Hsa|by destruct Hbi|by destruct Hba]. }
  destruct (insertListing_null_column l w d Hdb Hns) as (w' & Hrun & Hdb').
  by exists l, w'.
Qed.
End Database_facts.

Lemma insertListing_then_lookup_witness :
  db status_flip_world = Some sample_database
  ∧ storable (sample_listing "l-9" "active")
  ∧ ("l-9" ∉ db_id <$> tbl_listings sample_database)
  ∧ ∃ w1, insertListing sample_now (sample_listing "l-9" "active") status_flip_world
          = (Ok true, w1)
      ∧ stored_ids w1 = ["l-1"; "l-2"; "l-9"].
Proof.
  assert (Hst : storable (sample_listing "l-9" "active")).
  { split_and!; by eexists. }
  assert (Hnew : "l-9" ∉ db_id <$> tbl_listings sample_database).
  { intros Hin. apply list_elem_of_In in Hin. vm_compute in Hin.
    destruct Hin as [H|[H|[]]]; discriminate H. }
  destruct (insertListing_then_lookup sample_now (sample_listing "l-9" "active")
              status_flip_world sample_database eq_refl Hst Hnew)
    as (w1 & Hrun & Hdb1 & _).
  split; [reflexivity|]. split; [exact Hst|]. split; [exact Hnew|].
  exists w1. split; [exact Hrun|]. unfold stored_ids. rewrite Hdb1. reflexivity.
Defined.


Lemma half_barter_record_is_rejected_by_insert_witness :
  api_price half_barter = None
  ∧ api_wanted_item half_barter = Some (sample_item "copper-wire")
  ∧ api_wanted_item_id half_barter = None
  ∧ ∃ l w', transformApiListing half_barter = Ok l
      ∧ insertListing sample_now l status_flip_world
        = (Throw (sqlite_error "SQLITE_CONSTRAINT_NOTNULL"), w').
Proof.
  destruct (half_barter_record_is_rejected_by_insert sample_now half_barter
              (sample_item "copper-wire") status_flip_world sample_database
              eq_refl eq_refl (or_introl eq_refl) eq_refl)
    as (l & w' & Hl & Hrun & _).
  split; [reflexivity|]. split; [reflexivity|]. split; [reflexivity|].
  exists l, w'. split; [exact Hl|exact Hrun].
Defined.

(** ** Persisting and diffing *)

Section Persist_facts.
Variable now : string.

(** The loop of [insertListings] on an open database: the listings with
    unseen ids are appended in order, the others skipped. *)
Lemma insertListings_loop_spec (ls : list Listing) :
  ∀ (w : World) (d : Database) (c : Z),
    db w = Some d → Forall storable ls →
    ∃ added w',
      insertListings_loop now ls c w = (Ok (c + Z.of_nat (length added)), w')
      ∧ db w' = Some {| tbl_listings :=
                          tbl_listings d ++ ((λ l, listingToDbListing l now) <$> added);
                        tbl_posted_listings := tbl_posted_listings d |}
      ∧ added `sublist_of` ls
      ∧ (∀ l, l ∈ ls →
           listing_id l ∈ (db_id <$> tbl_listings d) ++ (listing_id <$> added))
      ∧ (NoDup (db_id <$> tbl_listings d) →
         NoDup ((db_id <$> tbl_listings d) ++ (listing_id <$> added)))
      ∧ discordClient w' = discordClient w.
Proof.
  induction ls as [|x ls IH]; intros w d c Hdb Hst.
  - exists [], w. simpl. rewrite Z.add_0_r, !app_nil_r. destruct d.
    split_and!; try done. intros l Hl. by apply not_elem_of_nil in Hl.
  - apply Forall_cons in Hst as [Hx Hst]. cbn [insertListings_loop].
    destruct (decide (listing_id x ∈ db_id <$> tbl_listings d)) as [Hold|Hnew].
    + destruct (insertListing_duplicate now x w d Hdb Hx Hold) as (w1 & Hrun & Hdb1 & Hc1).
      rewrite (bind_ok _ _ w w1 false Hrun).
      rewrite Hdb in Hdb1.
      destruct (IH w1 d c Hdb1 Hst) as (added & w' & Hloop & Hdb' & Hsub & Hall & Hnd & Hc).
      exists added, w'. split_and!; try done.
      * by apply sublist_cons.
      * intros l Hl. apply elem_of_cons in Hl as [->|Hl]; [|by apply Hall].
        apply elem_of_app. by left.
      * congruence.
    + destruct (insertListing_fresh now x w d Hdb Hx Hnew) as (w1 & Hrun & Hdb1 & Hc1).
      rewrite (bind_ok _ _ w w1 true Hrun).
      destruct (IH w1 _ (c + 1) Hdb1 Hst) as (added & w' & Hloop & Hdb' & Hsub & Hall & Hnd & Hc).
      cbn [tbl_listings tbl_posted_listings] in *.
      rewrite fmap_app in Hall, Hnd. cbn in Hall, Hnd.
      exists (x :: added), w'. split_and!.
      * rewrite Hloop. do 2 f_equal. rewrite length_cons. lia.
      * rewrite Hdb'. by rewrite fmap_cons, <- app_assoc.
      * by apply sublist_skip.
      * intros l Hl. rewrite fmap_cons.
        apply elem_of_cons in Hl as [->|Hl].
        -- apply elem_of_app. right. by left.
        -- specialize (Hall l Hl). by rewrite <- app_assoc in Hall.
      * intros Hnodup. rewrite fmap_cons.
        rewrite <- app_assoc in Hnd. apply Hnd.
        apply NoDup_app. split_and!; [done| |apply NoDup_singleton].
        intros y Hy Hy'. apply list_elem_of_singleton in Hy'. by subst.
      * congruence.
Qed.

Lemma insertListings_spec (ls : list Listing) (w : World) (d : Database) :
  db w = Some d → Forall storable ls →
  ∃ added w',
    insertListings now ls w = (Ok (Z.of_nat (length added)), w')
    ∧ db w' = Some {| tbl_listings :=
                        tbl_listings d ++ ((λ l, listingToDbListing l now) <$> added);
                      tbl_posted_listings := tbl_posted_listings d |}
    ∧ added `sublist_of` ls
    ∧ (∀ l, l ∈ ls → listing_id l ∈ stored_ids w')
    ∧ (NoDup (db_id <$> tbl_listings d) → NoDup (stored_ids w')).
Proof.
  intros Hdb Hst. unfold insertListings.
  match goal with |- context [bind (log ?l ?c ?m) ?k w] =>
    set (w1 := add_action (ALog (entry l c m)) w);
    rewrite (bind_ok (log l c m) k w w1 tt) by done
  end.
  destruct (insertListings_loop_spec ls w1 d 0 Hdb Hst)
    as (added & w2 & Hloop & Hdb2 & Hsub & Hall & Hnd & _).
  rewrite Z.add_0_l in Hloop. rewrite (bind_ok _ _ w1 w2 _ Hloop).
  unfold bind, log, act, modify, ret. simpl.
  exists added. eexists. split; [reflexivity|].
  unfold stored_ids. simpl. rewrite Hdb2. simpl.
  assert (Hids : db_id <$> (tbl_listings d ++ ((λ l, listingToDbListing l now) <$> added))
                 = (db_id <$> tbl_listings d) ++ (listing_id <$> added)).
  { rewrite fmap_app. f_equal. rewrite <- list_fmap_compose. done. }
  rewrite Hids. split_and!; done.
Qed.


Lemma filter_iff_in {A} (P1 P2 : A → Prop)
    `{!∀ x, Decision (P1 x), !∀ x, Decision (P2 x)} (l : list A) :
  (∀ x, x ∈ l → P1 x ↔ P2 x) → filter P1 l = filter P2 l.
Proof.
  induction l as [|a l IH]; intros Hiff; [done|].
  rewrite !filter_cons, IH by (intros; apply Hiff; by right).
  pose proof (Hiff a (list_elem_of_here _ _)).
  repeat case_decide; tauto.
Qed.

(** The first loop of the diff: the ids of the fetch that are stored. *)
Lemma collect_existing_spec (ls : list Listing) :
  ∀ (K : gset string) (w : World) (d : Database),
    db w = Some d →
    ∃ K', collect_existing ls K w = (Ok K', w)
          ∧ ∀ id, id ∈ K' ↔ id ∈ K ∨ (id ∈ listing_id <$> ls
                                       ∧ id ∈ db_id <$> tbl_listings d).
Proof.
  induction ls as [|x ls IH]; intros K w d Hdb.
  - exists K. split; [done|]. intros id. rewrite fmap_nil, elem_of_nil. tauto.
  - cbn [collect_existing].
    rewrite (bind_ok _ _ w w _ (listingExists_open (listing_id x) w d Hdb)).
    destruct (IH (if bool_decide (listing_id x ∈ db_id <$> tbl_listings d)
                  then K ∪ {[listing_id x]} else K) w d Hdb) as (K' & Hrun & HK').
    exists K'. split; [exact Hrun|]. intros id. rewrite HK', fmap_cons, elem_of_cons.
    case_bool_decide as Hx.
    + rewrite elem_of_union, elem_of_singleton. split.
      * intros [[?|Heq]|[? ?]]; [tauto|subst; tauto|tauto].
      * intros [?|[[Heq|?] ?]]; [tauto|subst; tauto|tauto].
    + split; [tauto|]. intros [?|[[Heq|?] ?]]; [tauto|subst; tauto|tauto].
Qed.

Lemma poll_diff_spec (fetched : list Listing) (w : World) (d : Database) :
  db w = Some d →
  ∃ existingIds,
    collect_existing fetched ∅ w = (Ok existingIds, w)
    ∧ getNewListings fetched existingIds
      = filter (λ l, listing_id l ∉ db_id <$> tbl_listings d) fetched.
Proof.
  intros Hdb. destruct (collect_existing_spec fetched ∅ w d Hdb) as (K & Hrun & HK).
  exists K. split; [exact Hrun|]. unfold getNewListings.
  apply filter_iff_in. intros x Hx. rewrite HK, elem_of_empty.
  assert (listing_id x ∈ listing_id <$> fetched) by (by apply list_elem_of_fmap_2).
  tauto.
Qed.

(** X11.  The diff of a poll cycle: with the ids collected by the
    [listingExists] loop, [getNewListings] returns exactly the fetched
    listings whose id is not stored, in fetch order; the loop itself
    changes nothing. *)
Theorem poll_diff_is_fetched_minus_stored (fetched : list Listing) (w : World)
    (d : Database) :
  db w = Some d →
  ∃ existingIds,
    collect_existing fetched ∅ w = (Ok existingIds, w)
    ∧ getNewListings fetched existingIds
      = filter (λ l, listing_id l ∉ db_id <$> tbl_listings d) fetched.
Proof. apply poll_diff_spec. Qed.

(** X12.  Persist, then diff again: once the new listings of a fetch have
    been stored with [insertListings], the diff of the same fetch against
    the database is empty.  A listing whose delivery failed is thus never
    picked up as new by a later cycle. *)
Theorem stored_listings_are_never_new_again (fetched : list Listing) (w : World)
    (d : Database) :
  db w = Some d → Forall storable fetched →
  ∃ existingIds n w1 existingIds1,
    collect_existing fetched ∅ w = (Ok existingIds, w)
    ∧ insertListings now (getNewListings fetched existingIds) w = (Ok n, w1)
    ∧ collect_existing fetched ∅ w1 = (Ok existingIds1, w1)
    ∧ getNewListings fetched existingIds1 = [].
Proof.
  intros Hdb Hst.
  destruct (poll_diff_spec fetched w d Hdb) as (K & HK & Hnew).
  assert (Hst' : Forall storable (getNewListings fetched K)).
  { rewrite Hnew. apply Forall_forall. intros x [_ Hx]%list_elem_of_filter.
    by apply (proj1 (Forall_forall _ _) Hst). }
  destruct (insertListings_spec _ w d Hdb Hst')
    as (added & w1 & Hins & Hdb1 & _ & Hall & _).
  destruct (poll_diff_spec fetched w1 _ Hdb1) as (K1 & HK1 & Hnew1).
  exists K, (Z.of_nat (length added)), w1, K1. split_and!; try done.
  rewrite Hnew1. apply elem_of_nil_inv. intros x [Hnot Hx]%list_elem_of_filter.
  apply Hnot.
  destruct (decide (listing_id x ∈ db_id <$> tbl_listings d)) as [Hold|Hfresh].
  - cbn [tbl_listings]. rewrite fmap_app. apply elem_of_app. by left.
  - assert (Hin : x ∈ getNewListings fetched K).
    { rewrite Hnew. by apply list_elem_of_filter. }
    specialize (Hall x Hin). unfold stored_ids in Hall. by rewrite Hdb1 in Hall.
Qed.
End Persist_facts.


Lemma poll_diff_is_fetched_minus_stored_witness :
  db status_flip_world = Some sample_database
  ∧ ∃ existingIds,
      collect_existing [sample_listing "l-9" "active"; sample_listing "l-1" "active"]
        ∅ status_flip_world = (Ok existingIds, status_flip_world)
      ∧ getNewListings [sample_listing "l-9" "active"; sample_listing "l-1" "active"]
          existingIds
        = [sample_listing "l-9" "active"].
Proof.
  split; [reflexivity|].
  destruct (poll_diff_is_fetched_minus_stored
              [sample_listing "l-9" "active"; sample_listing "l-1" "active"]
              status_flip_world sample_database eq_refl) as (K & Hrun & Hnew).
  exists K. split; [exact Hrun|]. rewrite Hnew. vm_compute. reflexivity.
Defined.

Lemma stored_listings_are_never_new_again_witness :
  db status_flip_world = Some sample_database
  ∧ Forall storable [sample_listing "l-9" "active"; sample_listing "l-1" "active"]
  ∧ ∃ existingIds n w1 existingIds1,
      insertListings sample_now
        (getNewListings [sample_listing "l-9" "active"; sample_listing "l-1" "active"]
           existingIds) status_flip_world = (Ok n, w1)
      ∧ collect_existing [sample_listing "l-9" "active"; sample_listing "l-1" "active"]
          ∅ w1 = (Ok existingIds1, w1)
      ∧ getNewListings [sample_listing "l-9" "active"; sample_listing "l-1" "active"]
          existingIds1 = [].
Proof.
  assert (Hst : Forall storable [sample_listing "l-9" "active";
                                 sample_listing "l-1" "active"]).
  { repeat (apply List.Forall_cons; [split_and!; by eexists|]). apply List.Forall_nil. }
  destruct (stored_listings_are_never_new_again sample_now _ status_flip_world
              sample_database eq_refl Hst) as (K & n & w1 & K1 & _ & Hins & HK1 & Hnew).
  split; [reflexivity|]. split; [exact Hst|].
  exists K, n, w1, K1. split; [exact Hins|]. split; [exact HK1|exact Hnew].
Defined.

(** ** The database over a whole polling cycle *)

#[global] Instance append_only_refl : Reflexive append_only.
Proof. intros w. unfold append_only. destruct (db w) as [d|]; [|done]. by exists d. Qed.

#[global] Instance append_only_trans : Transitive append_only.
Proof.
  intros w1 w2 w3. unfold append_only. destruct (db w1) as [d1|].
  - intros (d2 & -> & Hl & Hp & Hc) (d3 & Hdb & Hl' & Hp' & Hc').
    exists d3. split_and!; [done|by etrans|by etrans|tauto].
  - by intros ->.
Qed.

Lemma preserves_try_finally (R : World → World → Prop) `{!Transitive R} {A}
    (body : M A) (cleanup : M unit) :
  preserves R body → preserves R cleanup → preserves R (try_finally body cleanup).
Proof.
  intros Hb Hc w r w' Hrun. unfold try_finally in Hrun.
  destruct (body w) as [r1 w1] eqn:Hbw. destruct (cleanup w1) as [[u|e] w2] eqn:Hcw;
    injection Hrun as <- <-; (transitivity w1; [by eapply Hb|by eapply Hc]).
Qed.

Lemma append_only_same_db (w w' : World) : db w' = db w → append_only w w'.
Proof.
  intros H. unfold append_only. rewrite H. destruct (db w) as [d|]; [|done]. by exists d.
Qed.

Lemma append_only_proper (w1 w1' w2 w2' : World) :
  db w1' = db w1 → db w2' = db w2 → append_only w1 w2 → append_only w1' w2'.
Proof. unfold append_only. by intros -> ->. Qed.

Lemma append_only_modify (f : World → World) :
  (∀ w, db (f w) = db w) → preserves append_only (modify f).
Proof. intros Hf. apply preserves_modify. intros w. by apply append_only_same_db. Qed.

Lemma append_only_only_trace {A} (m : M A) :
  preserves only_trace m → preserves append_only m.
Proof.
  apply preserves_weaken. intros w w' (_ & _ & H & _). by apply append_only_same_db.
Qed.

Lemma append_only_act (a : Action) : preserves append_only (act a).
Proof. by apply append_only_modify. Qed.

Lemma append_only_log (l : LogLevel.t) (c : LogCategory.t) (m : string) :
  preserves append_only (log l c m).
Proof. apply append_only_act. Qed.

Lemma append_only_with_db {A} (k : Database → M A) :
  (∀ d w r w', db w = Some d → k d w = (r, w') → append_only w w') →
  preserves append_only (bind getDatabase k).
Proof.
  intros Hk w r w' Hrun. destruct (db w) as [d|] eqn:Hdb.
  - rewrite (bind_ok _ _ w w d (getDatabase_open w d Hdb)) in Hrun. by eapply Hk.
  - rewrite (bind_throw _ _ w w _ (getDatabase_closed w Hdb)) in Hrun.
    injection Hrun as <- <-. reflexivity.
Qed.

Lemma append_only_getDatabase : preserves append_only getDatabase.
Proof.
  intros w r w' Hrun. unfold getDatabase, bind, get in Hrun.
  destruct (db w); injection Hrun as <- <-; reflexivity.
Qed.

Lemma mark_posted_id (ids : list string) (rows : list DbListing) :
  db_id <$> (mark_posted ids <$> rows) = db_id <$> rows.
Proof.
  rewrite <- list_fmap_compose. apply list_fmap_ext. intros _ row _.
  unfold mark_posted; simpl. by case_bool_decide.
Qed.

Lemma set_status_id (id st updated : string) (rows : list DbListing) :
  db_id <$> (set_status id st updated <$> rows) = db_id <$> rows.
Proof.
  rewrite <- list_fmap_compose. apply list_fmap_ext. intros _ row _.
  unfold set_status; simpl. by case_decide.
Qed.

(** A write to the database that keeps the ids of the listings and the
    tracker. *)
Lemma append_only_update (w : World) (d : Database) (rows : list DbListing) :
  db w = Some d → db_id <$> rows = db_id <$> tbl_listings d →
  append_only w (set_db (Some {| tbl_listings := rows;
                                 tbl_posted_listings := tbl_posted_listings d |}) w).
Proof.
  intros Hdb Hids. unfold append_only. rewrite Hdb. eexists. split; [reflexivity|].
  simpl. rewrite Hids. split_and!; [done|done|].
  unfold db_consistent. simpl. by rewrite Hids.
Qed.

Lemma append_only_insert_row (w : World) (d : Database) (row : DbListing) :
  db w = Some d → db_id row ∉ db_id <$> tbl_listings d →
  append_only w (set_db (Some {| tbl_listings := tbl_listings d ++ [row];
                                 tbl_posted_listings := tbl_posted_listings d |}) w).
Proof.
  intros Hdb Hnew. unfold append_only. rewrite Hdb. eexists. split; [reflexivity|].
  simpl. rewrite fmap_app. split_and!; [by apply prefix_app_r|done|].
  intros (Hl & Hp & Hfk). unfold db_consistent. simpl. rewrite fmap_app.
  split_and!; [|done|].
  - apply NoDup_app. split_and!; [done| |apply NoDup_singleton].
    intros x Hx [->|[]%elem_of_nil]%elem_of_cons. done.
  - intros id Hid. apply elem_of_app. left. by apply Hfk.
Qed.

Lemma append_only_insert_posted (w : World) (d : Database) (row : DbPostedListing) :
  db w = Some d →
  pl_listing_id row ∉ pl_listing_id <$> tbl_posted_listings d →
  pl_listing_id row ∈ db_id <$> tbl_listings d →
  append_only w (set_db (Some {| tbl_listings := tbl_listings d;
                                 tbl_posted_listings := tbl_posted_listings d ++ [row] |}) w).
Proof.
  intros Hdb Hnew Hfk. unfold append_only. rewrite Hdb. eexists. split; [reflexivity|].
  simpl. split_and!; [done|by apply prefix_app_r|].
  intros (Hl & Hp & Hfk'). unfold db_consistent. simpl. rewrite fmap_app.
  split_and!; [done| |].
  - apply NoDup_app. split_and!; [done| |apply NoDup_singleton].
    intros x Hx [->|[]%elem_of_nil]%elem_of_cons. done.
  - intros id [Hid|[->|[]%elem_of_nil]%elem_of_cons]%elem_of_app; [by apply Hfk'|done].
Qed.

(** Follow the structure of a computation; at a leaf, a step that leaves
    the database alone. *)
Ltac ao_step :=
  first
    [ pres_step
    | apply append_only_log
    | apply append_only_act
    | apply append_only_getDatabase
    | apply append_only_modify; intros ?; reflexivity ].

Ltac ao_run Hrun :=
  unfold bind, modify, act, log, ret, throw in Hrun;
  repeat (case_match; simplify_eq/=);
  try injection Hrun as <- <-.

Section Integrity_facts.
Variable clock : nat → Z.
Variable now : string.
Variable getTime : string → number.
Variable config : Config.

Lemma append_only_insertListing (l : Listing) :
  preserves append_only (insertListing now l).
Proof.
  unfold insertListing. ao_step; [ao_step|]. ao_step.
  - ao_step; [|repeat ao_step]. unfold run_insert_listing.
    apply append_only_with_db. intros d w r w' Hdb Hrun.
    destruct (negb _); [injection Hrun as <- <-; reflexivity|].
    case_bool_decide as Hid; [injection Hrun as <- <-; reflexivity|].
    unfold bind, modify, act in Hrun. injection Hrun as <- <-.
    transitivity (set_db (Some {| tbl_listings := tbl_listings d ++ [listingToDbListing l now];
                                  tbl_posted_listings := tbl_posted_listings d |}) w).
    + by apply append_only_insert_row.
    + by apply append_only_same_db.
  - case_decide; repeat ao_step.
Qed.

Lemma append_only_insertListings (ls : list Listing) :
  preserves append_only (insertListings now ls).
Proof.
  unfold insertListings. do 2 ao_step; [|repeat ao_step].
  generalize 0. induction ls as [|l ls IH]; intros n; simpl; [ao_step|].
  ao_step; [apply append_only_insertListing|apply IH].
Qed.

Lemma append_only_markListingsAsPosted (ids : list string) :
  preserves append_only (markListingsAsPosted ids).
Proof.
  unfold markListingsAsPosted. destruct ids as [|id ids]; [ao_step|].
  apply append_only_with_db. intros d w r w' Hdb Hrun.
  unfold bind, modify, act, log in Hrun. injection Hrun as <- <-.
  eapply append_only_proper;
    [| |apply (append_only_update w d (mark_posted (id :: ids) <$> tbl_listings d) Hdb),
         mark_posted_id]; done.
Qed.

Lemma append_only_insertPostedListing (id mid cid : string) (bn pos : Z) :
  preserves append_only (insertPostedListing now id mid cid bn pos).
Proof.
  unfold insertPostedListing. ao_step; [ao_step|]. ao_step.
  - ao_step; [|repeat ao_step]. unfold run_insert_posted.
    apply append_only_with_db. intros d w r w' Hdb Hrun.
    case_bool_decide as Hdup; [injection Hrun as <- <-; reflexivity|].
    destruct (negb _) eqn:Hfk; [injection Hrun as <- <-; reflexivity|].
    apply negb_false_iff, bool_decide_eq_true in Hfk.
    unfold bind, modify, act in Hrun. injection Hrun as <- <-.
    eapply append_only_proper; [| |by apply (append_only_insert_posted w d)]; done.
  - destruct (_ || _); repeat ao_step.
Qed.

Lemma append_only_record_posted (l : list Listing) (i : nat) (mid cid : string)
    (bn : Z) (ids : list string) :
  preserves append_only (record_posted now l i mid cid bn ids).
Proof.
  revert i ids. induction l as [|x l IH]; intros i ids; simpl; [ao_step|].
  ao_step; [apply append_only_insertPostedListing|apply IH].
Qed.

Lemma append_only_updateListingStatus (id st updated : string) :
  preserves append_only (updateListingStatus id st updated).
Proof.
  unfold updateListingStatus.
  apply append_only_with_db. intros d w r w' Hdb Hrun.
  unfold bind, modify, act in Hrun. injection Hrun as <- <-.
  eapply append_only_proper;
    [| |apply (append_only_update w d (set_status id st updated <$> tbl_listings d) Hdb),
         set_status_id]; done.
Qed.

Lemma append_only_emit (ev : BotEvent.t) : preserves append_only (emit ev).
Proof. apply append_only_only_trace, only_trace_emit. Qed.

Lemma append_only_emitError (e : Exn) (context : string) :
  preserves append_only (emitError e context).
Proof. apply append_only_only_trace, only_trace_emitError. Qed.

Lemma append_only_put_channel (cid : string) (c : Channel) :
  preserves append_only (put_channel cid c).
Proof.
  apply append_only_modify. intros w. by destruct (discordClient w).
Qed.

Lemma append_only_postBatchToDiscord (batch : ListingBatch) (channelId : option string) :
  preserves append_only (postBatchToDiscord now config batch channelId).
Proof.
  unfold postBatchToDiscord, getDiscordClient, channels_fetch, channel_send,
    emitBatchPosted, emitListingPosted.
  repeat first
    [ apply append_only_record_posted
    | apply append_only_markListingsAsPosted
    | apply append_only_emit
    | apply append_only_emitError
    | apply append_only_put_channel
    | ao_step ].
Qed.

Lemma append_only_post_batches (l : list ListingBatch) (channelId : option string)
    (total : nat) (n : Z) :
  preserves append_only (post_batches now config l channelId total n).
Proof.
  revert n. induction l as [|b l IH]; intros n; simpl; [ao_step|].
  ao_step; [apply append_only_postBatchToDiscord|].
  destruct a; [|apply IH]. ao_step; [|apply IH].
  case_bool_decide; unfold delay; repeat ao_step.
Qed.

Lemma append_only_postListingsToDiscord (ls : list Listing) (channelId : option string) :
  preserves append_only (postListingsToDiscord clock now config ls channelId).
Proof.
  unfold postListingsToDiscord, createListingBatches_logged.
  destruct ls; repeat first [apply append_only_post_batches | ao_step].
Qed.

Lemma append_only_getListingById (id : string) :
  preserves append_only (getListingById id).
Proof. unfold getListingById. repeat ao_step. Qed.

Lemma append_only_read_listings (ids : list string) (acc : list Listing) :
  preserves append_only (read_listings ids acc).
Proof.
  revert acc. induction ids as [|id ids IH]; intros acc; simpl; [ao_step|].
  ao_step; [apply append_only_getListingById|]. destruct a; apply IH.
Qed.

Lemma append_only_updateMessageWithStatus (mid cid : string) (ids : list string)
    (bn : Z) :
  preserves append_only (updateMessageWithStatus mid cid ids bn).
Proof.
  unfold updateMessageWithStatus, getDiscordClient, channels_fetch, messages_fetch,
    message_edit.
  repeat first
    [ apply append_only_read_listings
    | apply append_only_put_channel
    | ao_step ].
Qed.

Lemma append_only_scan_posted (l : list (Listing * DbPostedListing))
    (fetched : gmap string Listing) (groups : list (string * MessageGroup)) (n : Z) :
  preserves append_only (scan_posted l fetched groups n).
Proof.
  revert groups n. induction l as [|[listing posted] l IH]; intros groups n; simpl;
    [ao_step|].
  destruct (fetched !! listing_id listing); [|apply IH].
  case_decide; [|apply IH].
  ao_step; [ao_step|]. ao_step; [apply append_only_updateListingStatus|apply IH].
Qed.

Lemma append_only_checkStatusChanges (fetched : gmap string Listing) :
  preserves append_only (checkStatusChanges fetched).
Proof.
  unfold checkStatusChanges, getPostedListings, delay.
  repeat first
    [ apply append_only_scan_posted
    | apply append_only_updateMessageWithStatus
    | ao_step
    | case_decide ].
Qed.

Lemma append_only_collect_existing (l : list Listing) (K : gset string) :
  preserves append_only (collect_existing l K).
Proof.
  revert K. induction l as [|x l IH]; intros K; simpl; [ao_step|].
  ao_step; [unfold listingExists; repeat ao_step|apply IH].
Qed.

Lemma append_only_pollListings :
  preserves append_only (pollListings clock now getTime config).
Proof.
  unfold pollListings, getNewListings_logged, update_stats,
    emitNewListingsBatch, emitNewListing.
  repeat first
    [ lazymatch goal with
      | |- preserves _ (try_finally _ _) => apply preserves_try_finally; [apply _| |]
      end
    | apply append_only_only_trace, only_trace_getAllListings
    | apply append_only_checkStatusChanges
    | apply append_only_collect_existing
    | apply append_only_insertListings
    | apply append_only_postListingsToDiscord
    | apply append_only_emit
    | apply append_only_emitError
    | ao_step ].
Qed.
End Integrity_facts.

(** X13.  What a polling cycle can do to an open database, however it
    ends: the database stays open, no listing and no tracker row is
    removed or reordered (new ones are appended), and if the ids of the
    listings and of the tracker rows were unique and every tracker row
    referred to a stored listing, this still holds afterwards. *)
Theorem pollListings_database_append_only (clock : nat → Z) (now : string)
    (getTime : string → number) (config : Config) (w : World) (d : Database) :
  db w = Some d →
  ∃ d', db (pollListings clock now getTime config w).2 = Some d'
    ∧ (db_id <$> tbl_listings d) `prefix_of` (db_id <$> tbl_listings d')
    ∧ tbl_posted_listings d `prefix_of` tbl_posted_listings d'
    ∧ (db_consistent d → db_consistent d').
Proof.
  intros Hdb.
  pose proof (append_only_pollListings clock now getTime config w
                (pollListings clock now getTime config w).1
                (pollListings clock now getTime config w).2) as H.
  unfold append_only in H. rewrite Hdb in H. apply H.
  by destruct (pollListings clock now getTime config w).
Qed.

Lemma pollListings_database_append_only_witness :
  db status_flip_world = Some sample_database
  ∧ ∃ d', db (pollListings sample_clock sample_now sample_getTime sample_config
                status_flip_world).2 = Some d'
      ∧ tbl_posted_listings sample_database `prefix_of` tbl_posted_listings d'.
Proof.
  split; [reflexivity|].
  destruct (pollListings_database_append_only sample_clock sample_now sample_getTime
              sample_config status_flip_world sample_database eq_refl)
    as (d' & Hdb & _ & Hp & _).
  by exists d'.
Defined.

(** ** Rejected rows, a closed database, and the tracker *)

Section Edge_facts.
Variable now : string.

Lemma insertListings_loop_app (pre rest : list Listing) :
  ∀ (c c' : Z) (w w' : World),
    insertListings_loop now pre c w = (Ok c', w') →
    insertListings_loop now (pre ++ rest) c w = insertListings_loop now rest c' w'.
Proof.
  induction pre as [|x pre IH]; intros c c' w w' Hrun; simpl in *.
  - by injection Hrun as <- <-.
  - unfold bind in *. destruct (insertListing now x w) as [[b|e] w1]; [|done].
    by apply IH.
Qed.

(** X14.  [insertListings] has no transaction: when a listing with a
    missing [NOT NULL] field is reached, the call throws the constraint
    error, the listings before it stay stored, and the listings after it
    are not looked at. *)
Theorem insertListings_stops_at_rejected_listing (pre post : list Listing)
    (bad : Listing) (w : World) (d : Database) :
  db w = Some d → Forall storable pre → ¬ storable bad →
  ∃ added w',
    insertListings now (pre ++ bad :: post) w
    = (Throw (sqlite_error "SQLITE_CONSTRAINT_NOTNULL"), w')
    ∧ db w' = Some {| tbl_listings :=
                        tbl_listings d ++ ((λ l, listingToDbListing l now) <$> added);
                      tbl_posted_listings := tbl_posted_listings d |}
    ∧ added `sublist_of` pre
    ∧ (∀ l, l ∈ pre → listing_id l ∈ stored_ids w').
Proof.
  intros Hdb Hst Hbad. unfold insertListings.
  match goal with |- context [bind (log ?l ?c ?m) ?k w] =>
    set (w1 := add_action (ALog (entry l c m)) w);
    rewrite (bind_ok (log l c m) k w w1 tt) by done
  end.
  destruct (insertListings_loop_spec now pre w1 d 0 Hdb Hst)
    as (added & w2 & Hloop & Hdb2 & Hsub & Hall & _ & _).
  destruct (insertListing_null_column now bad w2 _ Hdb2 Hbad) as (w3 & Hthrow & Hdb3).
  exists added, w3. split_and!.
  - apply bind_throw. rewrite (insertListings_loop_app pre (bad :: post) _ _ _ _ Hloop).
    cbn [insertListings_loop]. by apply bind_throw.
  - congruence.
  - done.
  - intros l Hl. unfold stored_ids. rewrite Hdb3, Hdb2. cbn [tbl_listings].
    rewrite fmap_app, <- list_fmap_compose. by apply Hall.
Qed.

Lemma closed_database_calls (w : World) :
  db w = None →
  let E := mkError "Database not initialized. Call initializeDatabase() first." in
  closeDatabase w = (Ok tt, w)
  ∧ (∀ l, insertListing now l w = (Throw E, w))
  ∧ (∀ id, listingExists id w = (Throw E, w))
  ∧ (∀ id, getListingById id w = (Throw E, w))
  ∧ (∀ id, markListingAsPosted id w = (Throw E, w))
  ∧ (∀ ids, markListingsAsPosted ids w
            = if decide (ids = []) then (Ok tt, w) else (Throw E, w))
  ∧ (∀ id mid cid bn pos, insertPostedListing now id mid cid bn pos w = (Throw E, w))
  ∧ (∀ mid pos, getListingByMessageId mid pos w = (Throw E, w)).
Proof.
  intros Hdb E. pose proof (getDatabase_closed w Hdb) as Hget. fold E in Hget.
  split_and!; intros.
  - unfold closeDatabase, bind, get. by rewrite Hdb.
  - by apply bind_throw.
  - by apply bind_throw.
  - by apply bind_throw.
  - by apply bind_throw.
  - destruct ids; [done|]. rewrite decide_False by done. by apply bind_throw.
  - by apply bind_throw.
  - by apply bind_throw.
Qed.

(** X15.  [closeDatabase] closes the connection and may be called again;
    after it every database call throws "Database not initialized" and
    changes nothing, [insertListing] and [insertPostedListing] included,
    whose own [try] starts only after the connection is taken.  The one
    exception is [markListingsAsPosted] with no ids, which returns before
    it asks for the connection. *)
Theorem closeDatabase_then_calls_throw (w : World) :
  let E := mkError "Database not initialized. Call initializeDatabase() first." in
  ∃ w0,
    closeDatabase w = (Ok tt, w0)
    ∧ db w0 = None
    ∧ closeDatabase w0 = (Ok tt, w0)
    ∧ (∀ l, insertListing now l w0 = (Throw E, w0))
    ∧ (∀ id, listingExists id w0 = (Throw E, w0))
    ∧ (∀ id, getListingById id w0 = (Throw E, w0))
    ∧ (∀ id, markListingAsPosted id w0 = (Throw E, w0))
    ∧ (∀ ids, markListingsAsPosted ids w0
              = if decide (ids = []) then (Ok tt, w0) else (Throw E, w0))
    ∧ (∀ id mid cid bn pos, insertPostedListing now id mid cid bn pos w0 = (Throw E, w0))
    ∧ (∀ mid pos, getListingByMessageId mid pos w0 = (Throw E, w0)).
Proof.
  intros E. destruct (closeDatabase w) as [r w0] eqn:Hclose.
  assert (r = Ok tt ∧ db w0 = None) as [-> Hdb0].
  { unfold closeDatabase, bind, get, log, act, modify in Hclose.
    destruct (db w) eqn:Hdb; injection Hclose as <- <-; done. }
  exists w0. split; [done|]. split; [done|]. apply (closed_database_calls w0 Hdb0).
Qed.

Lemma omap_first {A B} (f : A → option B) (l : list A) (x : A) (y : B) :
  x ∈ l → f x = Some y → (∀ x', x' ∈ l → f x' = None ∨ f x' = Some y) →
  ∃ rest, omap f l = y :: rest.
Proof.
  induction l as [|a l IH]; intros Hx Hfx Hall; [by apply elem_of_nil in Hx|].
  simpl. destruct (Hall a (list_elem_of_here _ _)) as [Ha|Ha]; rewrite Ha; simpl.
  - apply IH; [|done|intros; apply Hall; by right].
    apply elem_of_cons in Hx as [->|Hx]; [congruence|done].
  - by eexists.
Qed.

Lemma omap_nil {A B} (f : A → option B) (l : list A) :
  (∀ x, x ∈ l → f x = None) → omap f l = [].
Proof.
  induction l as [|a l IH]; intros Hall; [done|]. simpl.
  rewrite (Hall a (list_elem_of_here _ _)). simpl. apply IH. intros; apply Hall; by right.
Qed.

Lemma getListingByMessageId_run (mid : string) (pos : number) (w : World)
    (d : Database) :
  db w = Some d →
  ∃ w', getListingByMessageId mid pos w
        = (Ok (dbListingToListing <$> head (joined_rows mid pos d)), w')
    ∧ only_trace w w'.
Proof.
  intros Hdb. unfold getListingByMessageId.
  rewrite (bind_ok _ _ w w d (getDatabase_open w d Hdb)).
  unfold bind, log, act, modify, ret. simpl.
  destruct (joined_rows mid pos d); simpl; eexists; (split; [reflexivity|done]).
Qed.

Lemma getListingByMessageId_spec (mid : string) (w : World)
    (d : Database) :
  db w = Some d →
  (∀ (pos : Z) (pl : DbPostedListing) (row : DbListing),
     pl ∈ tbl_posted_listings d →
     pl_message_id pl = mid → pl_batch_position pl = pos →
     (∀ pl', pl' ∈ tbl_posted_listings d →
        pl_message_id pl' = mid → pl_batch_position pl' = pos →
        pl_listing_id pl' = pl_listing_id pl) →
     find_listing (pl_listing_id pl) d = Some row →
     ∃ w', getListingByMessageId mid (Num pos) w
           = (Ok (Some (dbListingToListing row)), w')
       ∧ only_trace w w')
  ∧ (∀ pos : number,
       (∀ pl, pl ∈ tbl_posted_listings d →
          ¬ (pl_message_id pl = mid ∧ Num (pl_batch_position pl) = pos)) →
       ∃ w', getListingByMessageId mid pos w = (Ok None, w') ∧ only_trace w w')
  ∧ ∃ w', getListingByMessageId mid NaN w = (Ok None, w') ∧ only_trace w w'.
Proof.
  intros Hdb.
  assert (Hnone : ∀ pos : number,
            (∀ pl, pl ∈ tbl_posted_listings d →
               ¬ (pl_message_id pl = mid ∧ Num (pl_batch_position pl) = pos)) →
            ∃ w', getListingByMessageId mid pos w = (Ok None, w') ∧ only_trace w w').
  { intros pos Hno. destruct (getListingByMessageId_run mid pos w d Hdb) as (w' & Hrun & Ht).
    exists w'. split; [|done]. rewrite Hrun. do 2 f_equal.
    unfold joined_rows. rewrite omap_nil; [done|].
    intros pl Hpl. rewrite bool_decide_eq_false_2; [done|by apply Hno]. }
  split_and!; [|exact Hnone|apply Hnone; by intros pl _ [_ ?]].
  intros pos pl row Hpl Hmid Hpos Huniq Hrow.
  destruct (getListingByMessageId_run mid (Num pos) w d Hdb) as (w' & Hrun & Ht).
  exists w'. split; [|done]. rewrite Hrun.
  destruct (omap_first
              (λ pl, if bool_decide (pl_message_id pl = mid
                                     ∧ Num (pl_batch_position pl) = Num pos)
                     then find_listing (pl_listing_id pl) d else None)
              (tbl_posted_listings d) pl row Hpl) as (rest & Hjoin).
  - rewrite bool_decide_eq_true_2; [done|]. by rewrite Hpos.
  - intros pl' Hpl'. case_bool_decide as Hm; [|by left]. right.
    destruct Hm as [Hm [= Hp]]. by rewrite (Huniq pl' Hpl' Hm Hp).
  - unfold joined_rows. by rewrite Hjoin.
Qed.

(** X16.  [getListingByMessageId] on an open database.  If the tracker
    holds a row for the message and position, no other listing is tracked
    under the same message and position, and the listing of the row is
    stored, the stored listing is returned.  If no tracker row has that
    message and position, as for a position that is not a number, the
    result is null.  Only log entries are added. *)
Theorem getListingByMessageId_resolves_tracked_position (mid : string) (w : World)
    (d : Database) :
  db w = Some d →
  (∀ (pos : Z) (pl : DbPostedListing) (row : DbListing),
     pl ∈ tbl_posted_listings d →
     pl_message_id pl = mid → pl_batch_position pl = pos →
     (∀ pl', pl' ∈ tbl_posted_listings d →
        pl_message_id pl' = mid → pl_batch_position pl' = pos →
        pl_listing_id pl' = pl_listing_id pl) →
     find_listing (pl_listing_id pl) d = Some row →
     ∃ w', getListingByMessageId mid (Num pos) w
           = (Ok (Some (dbListingToListing row)), w')
       ∧ only_trace w w')
  ∧ (∀ pos : number,
       (∀ pl, pl ∈ tbl_posted_listings d →
          ¬ (pl_message_id pl = mid ∧ Num (pl_batch_position pl) = pos)) →
       ∃ w', getListingByMessageId mid pos w = (Ok None, w') ∧ only_trace w w')
  ∧ ∃ w', getListingByMessageId mid NaN w = (Ok None, w') ∧ only_trace w w'.
Proof. apply getListingByMessageId_spec. Qed.
End Edge_facts.

Lemma insertListings_stops_at_rejected_listing_witness :
  db status_flip_world = Some sample_database
  ∧ Forall storable [sample_listing "l-9" "active"]
  ∧ (∀ l, transformApiListing half_barter = Ok l → ¬ storable l)
  ∧ ∀ l, transformApiListing half_barter = Ok l →
      ∃ w', insertListings sample_now
              ([sample_listing "l-9" "active"] ++ l :: [sample_listing "l-8" "active"])
              status_flip_world
            = (Throw (sqlite_error "SQLITE_CONSTRAINT_NOTNULL"), w')
        ∧ "l-9" ∈ stored_ids w' ∧ "l-8" ∉ stored_ids w'.
Proof.
  assert (Hst : Forall storable [sample_listing "l-9" "active"]).
  { repeat (apply List.Forall_cons; [split_and!; by eexists|]). apply List.Forall_nil. }
  assert (Hbad : ∀ l, transformApiListing half_barter = Ok l → ¬ storable l).
  { intros l [= <-] (_ & _ & [x Hx] & _). discriminate Hx. }
  split; [reflexivity|]. split; [exact Hst|]. split; [exact Hbad|].
  intros l Hl.
  destruct (insertListings_stops_at_rejected_listing sample_now
              [sample_listing "l-9" "active"] [sample_listing "l-8" "active"] l
              status_flip_world sample_database eq_refl Hst (Hbad l Hl))
    as (added & w' & Hrun & Hdb & Hsub & Hall).
  exists w'. split; [exact Hrun|]. split.
  - apply (Hall (sample_listing "l-9" "active")). by left.
  - unfold stored_ids. rewrite Hdb. cbn [tbl_listings]. rewrite fmap_app.
    intros [Hin|Hin]%elem_of_app.
    + apply list_elem_of_In in Hin. vm_compute in Hin.
      destruct Hin as [H|[H|[]]]; discriminate H.
    + apply list_elem_of_fmap in Hin as (row & Hrow & Hin).
      apply list_elem_of_fmap in Hin as (x & -> & Hin).
      pose proof (elem_of_sublist _ _ _ Hin Hsub) as Hx.
      apply list_elem_of_singleton in Hx. subst x. discriminate Hrow.
Defined.

Lemma getListingByMessageId_resolves_tracked_position_witness :
  db status_flip_world = Some sample_database
  ∧ ∃ w', getListingByMessageId "100" (Num 2) status_flip_world
          = (Ok (Some (sample_listing "l-2" "active")), w')
      ∧ db w' = db status_flip_world.
Proof.
  split; [reflexivity|].
  destruct (getListingByMessageId_resolves_tracked_position "100" status_flip_world
              sample_database eq_refl) as (Hfound & _).
  destruct (Hfound 2 (sample_posted "l-2" 2)
              (mark_posted ["l-1"; "l-2"]
                 (listingToDbListing (sample_listing "l-2" "active")
                    "2026-01-01T00:00:04Z")))
    as (w' & Hrun & Ht).
  - apply list_elem_of_In. right. by left.
  - reflexivity.
  - reflexivity.
  - intros pl' Hin _ Hp. apply list_elem_of_In in Hin.
    destruct Hin as [<-|[<-|[]]]; [discriminate Hp|reflexivity].
  - reflexivity.
  - exists w'. split; [exact Hrun|]. by destruct Ht as (_ & _ & ? & _).
Defined.

(** ** Button clicks *)

Lemma interaction_reply_inv (content : string) (i : Interaction) (w : World)
    (r : Outcome Interaction) (w' : World) :
  interaction_reply content i w = (r, w') →
  w' = w
  ∧ ∀ i', r = Ok i' →
      reply_error i = None ∧ replies i = []
      ∧ replies i' = [{| reply_content := content; reply_ephemeral := true |}].
Proof.
  unfold interaction_reply. destruct (reply_error i), (replies i);
    intros [= <- <-]; split; try done; by intros i' [= <-].
Qed.

Lemma interaction_reply_fresh (content : string) (i : Interaction) (w : World) :
  reply_error i = None → replies i = [] →
  ∃ i', interaction_reply content i w = (Ok i', w)
    ∧ replies i' = [{| reply_content := content; reply_ephemeral := true |}].
Proof. intros He Hr. unfold interaction_reply. rewrite He, Hr. by eexists. Qed.

Lemma only_trace_getListingByMessageId (mid : string) (pos : number) :
  preserves only_trace (getListingByMessageId mid pos).
Proof.
  unfold getListingByMessageId, getDatabase.
  repeat (pres_step || apply only_trace_log).
Qed.

Lemma only_trace_interaction_reply (content : string) (i : Interaction) :
  preserves only_trace (interaction_reply content i).
Proof. unfold interaction_reply. repeat pres_step. Qed.

Lemma only_trace_handleButtonInteraction (i : Interaction) :
  preserves only_trace (handleButtonInteraction i).
Proof.
  unfold handleButtonInteraction, emitPurchaseButtonClicked.
  repeat first
    [ apply only_trace_getListingByMessageId
    | apply only_trace_interaction_reply
    | apply only_trace_log
    | apply only_trace_emit
    | pres_step ].
Qed.

(** X17.  [handleButtonInteraction] never throws, whatever the button,
    the database, the listeners and Discord do: an exception of the
    lookup, of a listener or of the reply ends in the catch block, whose
    own reply is guarded by a second [try].  The interaction gets at most
    one reply, which is ephemeral, and nothing but the log and the event
    trace changes. *)
Theorem handleButtonInteraction_never_throws (i : Interaction) (w : World) :
  ∃ i' w',
    handleButtonInteraction i w = (Ok i', w')
    ∧ answered i i'
    ∧ only_trace w w'.
Proof.
  destruct (handleButtonInteraction i w) as [r w'] eqn:Hrun.
  pose proof (only_trace_handleButtonInteraction i w r w' Hrun) as Ht.
  assert (∃ i', r = Ok i' ∧ answered i i') as (i' & -> & Ha); [|by exists i', w'].
  unfold handleButtonInteraction, try_catch in Hrun.
  match type of Hrun with context [match ?body w with _ => _ end] =>
    destruct (body w) as [[i1|e] w1] eqn:Hbody
  end.
  - (* the body returned *)
    injection Hrun as <- <-. exists i1. split; [done|].
    unfold bind at 1 in Hbody. unfold log, act, modify in Hbody.
    destruct (parseButtonCustomId _) as [bd|].
    + unfold bind at 1 in Hbody.
      destruct (getListingByMessageId _ _ _) as [[[listing|]|e] w2]; [| |done].
      * unfold bind at 1 in Hbody.
        destruct (emitPurchaseButtonClicked _ _ _) as [[[]|e] w3]; [|done].
        unfold bind at 1 in Hbody.
        destruct (interaction_reply _ _ _) as [[i2|e] w4] eqn:Hreply; [|done].
        unfold bind, log, act, modify, ret in Hbody. injection Hbody as <- <-.
        destruct (interaction_reply_inv _ _ _ _ _ Hreply) as [_ H].
        destruct (H i2 eq_refl) as (_ & ? & ?). right. eauto.
      * destruct (interaction_reply_inv _ _ _ _ _ Hbody) as [_ H].
        destruct (H i1 eq_refl) as (_ & ? & ?). right. eauto.
    + destruct (interaction_reply_inv _ _ _ _ _ Hbody) as [_ H].
      destruct (H i1 eq_refl) as (_ & ? & ?). right. eauto.
  - (* the catch block *)
    unfold bind at 1 in Hrun. unfold log, act, modify in Hrun.
    unfold try_catch in Hrun.
    destruct (interaction_reply _ _ _) as [[i2|e2] w2] eqn:Hreply.
    + injection Hrun as <- <-. exists i2. split; [done|].
      destruct (interaction_reply_inv _ _ _ _ _ Hreply) as [_ H].
      destruct (H i2 eq_refl) as (_ & ? & ?). right. eauto.
    + unfold bind, ret in Hrun. injection Hrun as <- <-. exists i. split; [done|by left].
Qed.

Lemma parseButtonCustomId_buy (id : string) (pos : Z) :
  contains ":" id = false →
  parseButtonCustomId ("buy:" +:+ id +:+ ":" +:+ numberToString pos)
  = Some {| action := buy_action; bd_listing_id := id; batch_position := Num pos |}.
Proof.
  intros Hid. unfold parseButtonCustomId.
  rewrite split_customId by (done || apply numberToString_no_colon).
  rewrite decide_True by done. by rewrite parseInt_numberToString.
Qed.

Lemma call_listeners_return (hs : list Handler) (w : World) :
  Forall (λ h, h = Returns) hs → call_listeners hs w = (Ok tt, w).
Proof.
  induction hs as [|h hs IH]; intros Hall; [done|].
  apply Forall_cons in Hall as [-> Hall]. by apply IH.
Qed.

Lemma call_listeners_throw (hs : list Handler) (w : World) (e : Exn) :
  Throws e ∈ hs → ∃ e', call_listeners hs w = (Throw e', w).
Proof.
  induction hs as [|h hs IH]; intros Hin; [by apply elem_of_nil in Hin|].
  destruct h as [|e0]; simpl.
  - apply IH. apply elem_of_cons in Hin as [?|?]; [done|done].
  - by eexists.
Qed.

Lemma emit_return (ev : BotEvent.t) (w : World) :
  ev ≠ BotEvent.ERROR → Forall (λ h, h = Returns) (listeners w ev) →
  emit ev w = (Ok tt, add_action (AEmit ev) w).
Proof.
  intros Hev Hall. unfold emit, bind, act, modify, get. simpl.
  destruct (listeners w ev) as [|h hs] eqn:Hls.
  - by rewrite decide_False.
  - apply (call_listeners_return (h :: hs)). done.
Qed.

Lemma emit_throw (ev : BotEvent.t) (w : World) (e : Exn) :
  Throws e ∈ listeners w ev →
  ∃ e', emit ev w = (Throw e', add_action (AEmit ev) w).
Proof.
  intros Hin. unfold emit, bind, act, modify, get. simpl.
  destruct (listeners w ev) as [|h hs] eqn:Hls; [by apply elem_of_nil in Hin|].
  apply (call_listeners_throw (h :: hs) _ e Hin).
Qed.

(** X18.  A click on a buy button is resolved by the message and the
    position alone: for a click that has not been answered, whose custom
    id is [buy:<id>:<position>] with any id (without a colon), on a
    message and position under which one listing is tracked, the handler
    emits the purchase event and answers with the confirmation text,
    provided the purchase listeners return.  The listing id carried by
    the button is not compared with the tracked listing. *)
Theorem handleButtonInteraction_resolves_by_position (i : Interaction) (id : string)
    (pos : Z) (w : World) (d : Database) (pl : DbPostedListing) (row : DbListing) :
  reply_error i = None → replies i = [] →
  interaction_customId i = "buy:" +:+ id +:+ ":" +:+ numberToString pos →
  contains ":" id = false →
  db w = Some d →
  pl ∈ tbl_posted_listings d →
  pl_message_id pl = interaction_messageId i → pl_batch_position pl = pos →
  (∀ pl', pl' ∈ tbl_posted_listings d →
     pl_message_id pl' = interaction_messageId i → pl_batch_position pl' = pos →
     pl_listing_id pl' = pl_listing_id pl) →
  find_listing (pl_listing_id pl) d = Some row →
  Forall (λ h, h = Returns) (listeners w BotEvent.PURCHASE_BUTTON_CLICKED) →
  ∃ i' w',
    handleButtonInteraction i w = (Ok i', w')
    ∧ replies i' = [{| reply_content := createPurchaseConfirmationMessage;
                       reply_ephemeral := true |}]
    ∧ AEmit BotEvent.PURCHASE_BUTTON_CLICKED ∈ trace w'.
Proof.
  intros Herr Hrep Hcid Hid Hdb Hpl Hmid Hpos Huniq Hrow Hls.
  unfold handleButtonInteraction.
  match goal with |- context [log ?l ?c ?m] =>
    set (w1 := add_action (ALog (entry l c m)) w);
    rewrite (try_catch_bind_ok (log l c m) _ _ w w1 tt) by done
  end.
  rewrite Hcid, (parseButtonCustomId_buy id pos Hid). cbn [batch_position].
  destruct (getListingByMessageId_spec (interaction_messageId i) w1 d Hdb) as (Hfound & _).
  destruct (Hfound pos pl row Hpl Hmid Hpos Huniq Hrow) as (w2 & Hget & Ht).
  rewrite (try_catch_bind_ok _ _ _ w1 w2 _ Hget). cbv beta iota.
  assert (Hls2 : listeners w2 = listeners w).
  { destruct Ht as (_ & _ & _ & _ & -> & _). done. }
  match goal with |- context [emitPurchaseButtonClicked ?u ?l] =>
    set (w3 := add_action (AEmit BotEvent.PURCHASE_BUTTON_CLICKED)
                 (add_action (ALog (entry LogLevel.INFO LogCategory.AUTO_PURCHASE
                    ("Purchase button clicked by " +:+ u +:+ " for listing: "
                     +:+ listing_id l))) w2));
    rewrite (try_catch_bind_ok (emitPurchaseButtonClicked u l) _ _ w2 w3 tt)
  end.
  2: { unfold emitPurchaseButtonClicked.
       erewrite bind_ok by reflexivity.
       apply emit_return; [done|]. simpl. by rewrite Hls2. }
  destruct (interaction_reply_fresh createPurchaseConfirmationMessage i w3 Herr Hrep)
    as (i' & Hreply & Hi').
  rewrite (try_catch_bind_ok _ _ _ w3 w3 i' Hreply).
  unfold try_catch, bind, log, act, modify, ret. simpl.
  eexists _, _. split; [reflexivity|]. split; [exact Hi'|].
  simpl. apply elem_of_app. left. apply elem_of_app. right. by left.
Qed.

Lemma handleButtonInteraction_resolves_by_position_witness :
  ∃ i' w',
    handleButtonInteraction (button_click "buy:some-other-listing:2" "100")
      status_flip_world = (Ok i', w')
    ∧ replies i' = [{| reply_content := "Feature not available";
                       reply_ephemeral := true |}].
Proof.
  destruct (handleButtonInteraction_resolves_by_position
              (button_click "buy:some-other-listing:2" "100") "some-other-listing" 2
              status_flip_world sample_database (sample_posted "l-2" 2)
              (mark_posted ["l-1"; "l-2"]
                 (listingToDbListing (sample_listing "l-2" "active")
                    "2026-01-01T00:00:04Z")))
    as (i' & w' & Hrun & Hrep & _).
  - reflexivity.
  - reflexivity.
  - reflexivity.
  - reflexivity.
  - reflexivity.
  - apply list_elem_of_In. right. by left.
  - reflexivity.
  - reflexivity.
  - intros pl' Hin _ Hp. apply list_elem_of_In in Hin.
    destruct Hin as [<-|[<-|[]]]; [discriminate Hp|reflexivity].
  - reflexivity.
  - apply List.Forall_cons; [reflexivity|apply List.Forall_nil].
  - by exists i', w'.
Defined.

Lemma getListingByMessageId_not_tracked (mid : string) (pos : number) (w : World)
    (d : Database) :
  db w = Some d →
  (∀ pl, pl ∈ tbl_posted_listings d →
     ¬ (pl_message_id pl = mid ∧ Num (pl_batch_position pl) = pos)) →
  getListingByMessageId mid pos w
  = (Ok None,
     add_action (ALog (entry LogLevel.WARN LogCategory.DATABASE
                   ("Listing not found for message: " +:+ mid +:+ ", position: "
                    +:+ show_number pos)))
       (add_action (ALog (entry LogLevel.DEBUG LogCategory.DATABASE
                      ("Looking up listing by message ID: " +:+ mid +:+ ", position: "
                       +:+ show_number pos))) w)).
Proof.
  intros Hdb Hno. unfold getListingByMessageId.
  rewrite (bind_ok _ _ w w d (getDatabase_open w d Hdb)).
  unfold joined_rows. rewrite omap_nil; [done|].
  intros pl Hpl. rewrite bool_decide_eq_false_2; [done|by apply Hno].
Qed.

(** X19.  The error replies of [handleButtonInteraction] for a click
    that has not been answered: a custom id that does not parse is
    answered with "Invalid button"; a parsed one whose message and
    position are not in the tracker (a position that is not a number
    included) with "Listing not found"; and when the database is closed
    the exception of the lookup is answered with "An error occurred".
    No purchase event is emitted in any of these cases. *)
Theorem handleButtonInteraction_error_replies (i : Interaction) (w : World) :
  reply_error i = None → replies i = [] →
  let answers (text : string) :=
    ∃ i' w',
      handleButtonInteraction i w = (Ok i', w')
      ∧ replies i' = [{| reply_content := createErrorMessage text;
                         reply_ephemeral := true |}]
      ∧ AEmit BotEvent.PURCHASE_BUTTON_CLICKED ∉ drop (length (trace w)) (trace w') in
  (parseButtonCustomId (interaction_customId i) = None →
   answers "Invalid button. This listing may be outdated.")
  ∧ (∀ bd d,
       parseButtonCustomId (interaction_customId i) = Some bd → db w = Some d →
       (∀ pl, pl ∈ tbl_posted_listings d →
          ¬ (pl_message_id pl = interaction_messageId i
             ∧ Num (pl_batch_position pl) = batch_position bd)) →
       answers "Listing not found. It may have been removed or is no longer available.")
  ∧ (∀ bd,
       parseButtonCustomId (interaction_customId i) = Some bd → db w = None →
       answers "An error occurred while processing your request. Please try again.").
Proof.
  intros Herr Hrep answers. subst answers. cbv beta.
  unfold handleButtonInteraction.
  match goal with |- context [log ?l ?c ?m] =>
    set (w1 := add_action (ALog (entry l c m)) w);
    rewrite !(try_catch_bind_ok (log l c m) _ _ w w1 tt) by done
  end.
  split_and!.
  - intros ->.
    destruct (interaction_reply_fresh
                (createErrorMessage "Invalid button. This listing may be outdated.")
                i w1 Herr Hrep) as (i' & Hreply & Hi').
    unfold try_catch. rewrite Hreply. exists i', w1. split_and!; [done|done|].
    subst w1. simpl. rewrite drop_app_length. by intros [= ]%list_elem_of_singleton.
  - intros bd d -> Hdb Hno. cbv beta iota.
    rewrite (try_catch_bind_ok _ _ _ w1 _ _
               (getListingByMessageId_not_tracked _ _ w1 d Hdb Hno)).
    cbv beta iota.
    destruct (interaction_reply_fresh
                (createErrorMessage
                   "Listing not found. It may have been removed or is no longer available.")
                i (add_action (ALog (entry LogLevel.WARN LogCategory.DATABASE
                     ("Listing not found for message: " +:+ interaction_messageId i
                      +:+ ", position: " +:+ show_number (batch_position bd))))
                     (add_action (ALog (entry LogLevel.DEBUG LogCategory.DATABASE
                        ("Looking up listing by message ID: " +:+ interaction_messageId i
                         +:+ ", position: " +:+ show_number (batch_position bd)))) w1))
                Herr Hrep) as (i' & Hreply & Hi').
    unfold try_catch. rewrite Hreply. eexists _, _. split_and!; [done|done|].
    subst w1. simpl. rewrite <- !app_assoc, drop_app_length. simpl.
    intros Hin. apply list_elem_of_In in Hin. simpl in Hin.
    destruct Hin as [H|[H|[H|[]]]]; discriminate H.
  - intros bd -> Hdb. cbv beta iota.
    assert (Hget : getListingByMessageId (interaction_messageId i) (batch_position bd) w1
                   = (Throw (mkError "Database not initialized. Call initializeDatabase() first."),
                      w1)).
    { apply bind_throw. by apply getDatabase_closed. }
    rewrite (try_catch_bind_throw _ _ _ w1 w1 _ Hget).
    unfold bind at 1. unfold log, act, modify.
    destruct (interaction_reply_fresh
                (createErrorMessage
                   "An error occurred while processing your request. Please try again.")
                i (add_action (ALog (entry LogLevel.ERROR LogCategory.DISCORD
                     "Error handling button interaction:")) w1)
                Herr Hrep) as (i' & Hreply & Hi').
    unfold try_catch. rewrite Hreply. eexists _, _. split_and!; [done|done|].
    subst w1. simpl. rewrite <- !app_assoc, drop_app_length. simpl.
    intros Hin. apply list_elem_of_In in Hin. simpl in Hin.
    destruct Hin as [H|[H|[]]]; discriminate H.
Qed.

Lemma handleButtonInteraction_error_replies_witness :
  ∃ i' w',
    handleButtonInteraction (button_click "buy:l-2:two" "100") status_flip_world
    = (Ok i', w')
    ∧ replies i'
      = [{| reply_content :=
              createErrorMessage
                "Listing not found. It may have been removed or is no longer available.";
            reply_ephemeral := true |}].
Proof.
  destruct (handleButtonInteraction_error_replies (button_click "buy:l-2:two" "100")
              status_flip_world eq_refl eq_refl) as (_ & Hmissing & _).
  destruct (Hmissing {| action := buy_action; bd_listing_id := "l-2";
                        batch_position := NaN |} sample_database eq_refl eq_refl)
    as (i' & w' & Hrun & Hrep & _).
  - by intros pl _ [_ ?].
  - by exists i', w'.
Defined.

(** ** Status updates and posting, as a whole *)

Lemma only_trace_getListingById (id : string) :
  preserves only_trace (getListingById id).
Proof.
  unfold getListingById, getDatabase. repeat (pres_step || apply only_trace_log).
Qed.

Lemma only_trace_read_listings (ids : list string) (acc : list Listing) :
  preserves only_trace (read_listings ids acc).
Proof.
  revert acc. induction ids as [|id ids IH]; intros acc; simpl; [pres_step|].
  pres_step; [apply only_trace_getListingById|]. destruct a; apply IH.
Qed.

(** X20.  [updateMessageWithStatus] never throws: a missing client, an
    unknown channel or message, a closed database and a rejected edit all
    end in its catch block, which logs and returns false.  It never
    writes to the database, and when it returns false the Discord side is
    as before. *)
Theorem updateMessageWithStatus_never_throws (messageId channelId : string)
    (listingIds : list string) (batchNumber : Z) (w : World) :
  ∃ b w',
    updateMessageWithStatus messageId channelId listingIds batchNumber w = (Ok b, w')
    ∧ db w' = db w
    ∧ listeners w' = listeners w
    ∧ (b = false → discordClient w' = discordClient w).
Proof.
  assert (Hbody : ∀ (body : M bool) r w1,
            body w = (r, w1) →
            db w1 = db w ∧ listeners w1 = listeners w
            ∧ (r ≠ Ok true → discordClient w1 = discordClient w) →
            ∃ b w',
              try_catch body
                (λ _, log LogLevel.ERROR LogCategory.DISCORD
                        ("Error updating message " +:+ messageId +:+ ":") ;;
                      ret false) w = (Ok b, w')
              ∧ db w' = db w ∧ listeners w' = listeners w
              ∧ (b = false → discordClient w' = discordClient w)).
  { intros body r w1 Hrun (Hdb & Hls & Hcl). unfold try_catch. rewrite Hrun.
    destruct r as [b|e].
    - exists b, w1. split_and!; try done. intros ->. by apply Hcl.
    - unfold bind, log, act, modify, ret. simpl. eexists _, _.
      split_and!; [reflexivity|done|done|]. intros _. by apply Hcl. }
  unfold updateMessageWithStatus.
  match goal with |- context [try_catch ?body _ w] =>
    destruct (body w) as [r w1] eqn:Hrun; apply (Hbody body r w1 Hrun)
  end.
  clear Hbody. unfold getDiscordClient in Hrun.
  unfold bind at 1 in Hrun. unfold bind at 1 in Hrun. unfold get in Hrun.
  destruct (discordClient w) as [client|] eqn:Hclient;
    [|injection Hrun as <- <-; done].
  unfold ret at 1 in Hrun. unfold bind at 1 in Hrun. unfold log, act, modify in Hrun.
  set (w0 := add_action _ w) in Hrun.
  unfold bind at 1 in Hrun. unfold channels_fetch in Hrun.
  destruct (channels client !! channelId) as [[|channel]|];
    [injection Hrun as <- <-; done| |injection Hrun as <- <-; done].
  unfold ret at 1 in Hrun.
  destruct (isTextBased channel); [|injection Hrun as <- <-; done].
  unfold bind at 1 in Hrun. unfold messages_fetch in Hrun.
  destruct (list_find _ _) as [[k message]|]; [|injection Hrun as <- <-; done].
  unfold ret at 1 in Hrun. unfold bind at 1 in Hrun.
  destruct (read_listings listingIds [] w0) as [[updated|e] w2] eqn:Hread.
  2: { injection Hrun as <- <-.
       destruct (only_trace_read_listings _ _ _ _ _ Hread) as (_ & _ & ? & ? & ? & _).
       subst w0. simpl in *. split_and!; congruence. }
  destruct (only_trace_read_listings _ _ _ _ _ Hread) as (_ & _ & Hd & Hc & Hl & _).
  destruct updated as [|u updated];
    [injection Hrun as <- <-; subst w0; simpl in *; split_and!; congruence|].
  unfold bind at 1 in Hrun. unfold message_edit in Hrun.
  destruct (write_error channel);
    [injection Hrun as <- <-; subst w0; simpl in *; split_and!; congruence|].
  unfold bind, put_channel, log, act, modify, ret in Hrun. injection Hrun as <- <-.
  subst w0. simpl in *. split_and!; [by destruct (discordClient w2)|by destruct (discordClient w2)|done].
Qed.

(** X21.  [checkStatusChanges] never throws: whatever fails inside it (a
    closed database, a status that cannot be stored) is logged by its
    catch block, so the steps of the polling cycle that follow it always
    run.  On an open database it removes no listing and no tracker row. *)
Theorem checkStatusChanges_never_throws (fetchedListings : gmap string Listing)
    (w : World) :
  ∃ w',
    checkStatusChanges fetchedListings w = (Ok tt, w')
    ∧ ∀ d, db w = Some d →
        ∃ d', db w' = Some d'
          ∧ (db_id <$> tbl_listings d) `prefix_of` (db_id <$> tbl_listings d')
          ∧ tbl_posted_listings d `prefix_of` tbl_posted_listings d'.
Proof.
  destruct (checkStatusChanges fetchedListings w) as [r w'] eqn:Hrun.
  pose proof (append_only_checkStatusChanges fetchedListings w r w' Hrun) as Ha.
  exists w'. split.
  - f_equal. unfold checkStatusChanges, try_catch in Hrun.
    match type of Hrun with context [match ?body w with _ => _ end] =>
      destruct (body w) as [[[]|e] w1]
    end; by injection Hrun as <- _.
  - intros d Hdb. unfold append_only in Ha. rewrite Hdb in Ha.
    destruct Ha as (d' & ? & ? & ? & _). by exists d'.
Qed.

Section Posting_facts.
Variable clock : nat → Z.
Variable now : string.
Variable config : Config.


End Posting_facts.


(** ** A batch that is posted *)

Section Delivered_facts.
Variable now : string.
Variable config : Config.

Lemma insertPostedListing_fresh (id mid cid : string) (bn pos : Z) (w : World)
    (d : Database) :
  db w = Some d →
  id ∈ db_id <$> tbl_listings d →
  id ∉ pl_listing_id <$> tbl_posted_listings d →
  ∃ w', insertPostedListing now id mid cid bn pos w = (Ok tt, w')
    ∧ db w' = Some {| tbl_listings := tbl_listings d;
                      tbl_posted_listings :=
                        tbl_posted_listings d
                        ++ [{| pl_listing_id := id; pl_message_id := mid;
                               pl_channel_id := cid; pl_batch_number := bn;
                               pl_batch_position := pos; pl_posted_at := now |}] |}
    ∧ discordClient w' = discordClient w ∧ listeners w' = listeners w.
Proof.
  intros Hdb Hfk Hnew.
  unfold insertPostedListing, run_insert_posted, getDatabase, try_catch, bind, get,
    log, act, modify, ret, throw.
  repeat (rewrite Hdb; cbv beta iota). cbn [pl_listing_id].
  rewrite (bool_decide_eq_false_2 _ Hnew), (bool_decide_eq_true_2 _ Hfk). cbn [negb].
  by eexists.
Qed.

Lemma record_posted_spec (mid cid : string) (bn : Z) (l : list Listing) :
  ∀ (i : nat) (ids : list string) (w : World) (d : Database),
    db w = Some d →
    NoDup (listing_id <$> l) →
    (∀ x, x ∈ l → listing_id x ∈ db_id <$> tbl_listings d
                  ∧ listing_id x ∉ pl_listing_id <$> tbl_posted_listings d) →
    ∃ w', record_posted now l i mid cid bn ids w = (Ok (ids ++ (listing_id <$> l)), w')
      ∧ db w' = Some {| tbl_listings := tbl_listings d;
                        tbl_posted_listings :=
                          tbl_posted_listings d
                          ++ imap (λ k x,
                                     {| pl_listing_id := listing_id x;
                                        pl_message_id := mid; pl_channel_id := cid;
                                        pl_batch_number := bn;
                                        pl_batch_position := Z.of_nat (i + k) + 1;
                                        pl_posted_at := now |}) l |}
      ∧ discordClient w' = discordClient w ∧ listeners w' = listeners w.
Proof.
  induction l as [|x l IH]; intros i ids w d Hdb Hnd Hok.
  - exists w. simpl. rewrite !app_nil_r. by destruct d.
  - rewrite fmap_cons in Hnd. apply NoDup_cons in Hnd as [Hx Hnd].
    destruct (Hok x (list_elem_of_here _ _)) as [Hfk Hnew].
    destruct (insertPostedListing_fresh (listing_id x) mid cid bn (Z.of_nat i + 1)
                w d Hdb Hfk Hnew) as (w1 & Hrun & Hdb1 & Hc1 & Hl1).
    cbn [record_posted]. rewrite (bind_ok _ _ w w1 tt Hrun).
    destruct (IH (S i) (ids ++ [listing_id x]) w1 _ Hdb1 Hnd) as (w' & Hrec & Hdb' & Hc & Hl).
    { intros y Hy. destruct (Hok y) as [Hyfk Hynew]; [by right|].
      cbn [tbl_listings tbl_posted_listings]. split; [done|].
      rewrite fmap_app. intros [?|Hin]%elem_of_app; [done|].
      apply list_elem_of_singleton in Hin. simpl in Hin.
      apply Hx. rewrite <- Hin. by apply list_elem_of_fmap_2. }
    exists w'. split_and!.
    + rewrite Hrec. by rewrite <- app_assoc.
    + rewrite Hdb'. cbn [tbl_listings tbl_posted_listings]. do 2 f_equal.
      rewrite <- app_assoc. f_equal. simpl. rewrite Nat.add_0_r. f_equal.
      apply imap_ext. intros k y _. simpl. do 2 f_equal. lia.
    + congruence.
    + congruence.
Qed.

Lemma mark_posted_nil (rows : list DbListing) : mark_posted [] <$> rows = rows.
Proof.
  rewrite <- (list_fmap_id rows) at 2. apply list_fmap_ext. intros _ row _.
  unfold mark_posted. rewrite bool_decide_eq_false_2; [done|apply not_elem_of_nil].
Qed.

Lemma markListingsAsPosted_open (ids : list string) (w : World) (d : Database) :
  db w = Some d →
  ∃ w', markListingsAsPosted ids w = (Ok tt, w')
    ∧ db w' = Some {| tbl_listings := mark_posted ids <$> tbl_listings d;
                      tbl_posted_listings := tbl_posted_listings d |}
    ∧ discordClient w' = discordClient w ∧ listeners w' = listeners w.
Proof.
  intros Hdb. destruct ids as [|id ids].
  - exists w. rewrite mark_posted_nil. by destruct d.
  - unfold markListingsAsPosted.
    rewrite (bind_ok _ _ w w d (getDatabase_open w d Hdb)).
    unfold bind, log, act, modify. by eexists.
Qed.

Lemma for_each_emitListingPosted (l : list Listing) :
  ∀ w, Forall (λ h, h = Returns) (listeners w BotEvent.LISTING_POSTED) →
    ∃ w', for_each l emitListingPosted w = (Ok tt, w')
      ∧ only_trace w w'.
Proof.
  induction l as [|x l IH]; intros w Hls; simpl; [by exists w|].
  unfold emitListingPosted at 1.
  erewrite bind_ok; [|erewrite bind_ok by reflexivity; by apply emit_return].
  destruct (IH (add_action (AEmit BotEvent.LISTING_POSTED)
                  (add_action (ALog (entry LogLevel.DEBUG LogCategory.DISCORD
                     ("Listing posted event emitted for: " +:+ listing_id x))) w)) Hls)
    as (w' & Hrun & Ht).
  exists w'. split; [exact Hrun|]. by destruct Ht as (?&?&?&?&?&?).
Qed.

Lemma postBatchToDiscord_delivers (w : World) (batch : ListingBatch)
    (channelId : option string) (client : Client) (channel : Channel) (d : Database) :
  let target := or_default channelId (discord_channelId config) in
  let mid := numberToString (next_message_id channel) in
  discordClient w = Some client →
  channels client !! target = Some (Chan channel) →
  isTextBased channel = true → write_error channel = None →
  db w = Some d →
  NoDup (listing_id <$> batch_listings batch) →
  (∀ l, l ∈ batch_listings batch →
     listing_id l ∈ db_id <$> tbl_listings d
     ∧ listing_id l ∉ pl_listing_id <$> tbl_posted_listings d) →
  ∃ r w',
    postBatchToDiscord now config batch channelId w = (r, w')
    ∧ db w' = Some {| tbl_listings :=
                        mark_posted (listing_id <$> batch_listings batch)
                          <$> tbl_listings d;
                      tbl_posted_listings :=
                        tbl_posted_listings d
                        ++ tracker_rows now mid target (batch_number batch)
                             (batch_listings batch) |}
    ∧ listeners w' = listeners w
    ∧ (Forall (λ h, h = Returns) (listeners w BotEvent.BATCH_POSTED) →
       Forall (λ h, h = Returns) (listeners w BotEvent.LISTING_POSTED) →
       r = Ok (Some {| message_id := mid;
                       message_embed := createBatchEmbed batch;
                       message_components := createBatchButtons batch |})).
Proof.
  intros target mid Hclient Hchan Htext Hwrite Hdb Hnd Hok.
  unfold postBatchToDiscord. fold target.
  rewrite (try_catch_bind_ok _ _ _ w w client)
    by (unfold getDiscordClient, bind, get; by rewrite Hclient).
  match goal with |- context [log ?l ?c ?m] =>
    set (w1 := add_action (ALog (entry l c m)) w);
    rewrite (try_catch_bind_ok (log l c m) _ _ w w1 tt) by done
  end.
  rewrite (try_catch_bind_ok _ _ _ w1 w1 (Some channel))
    by (unfold channels_fetch; by rewrite Hchan).
  cbv beta iota. rewrite Htext.
  set (message := {| message_id := mid; message_embed := createBatchEmbed batch;
                     message_components := createBatchButtons batch |}).
  match goal with |- context [try_catch (bind (channel_send ?t ?c ?e ?b) ?k) ?h w1] =>
    destruct (channel_send t c e b w1) as [rs w2] eqn:Hsend;
    assert (Hs : rs = Ok message ∧ db w2 = Some d ∧ listeners w2 = listeners w)
  end.
  { unfold channel_send in Hsend. rewrite Hwrite in Hsend.
    unfold bind, put_channel, act, modify, ret in Hsend. simpl in Hsend.
    rewrite Hclient in Hsend. by injection Hsend as <- <-. }
  destruct Hs as (-> & Hdb2 & Hl2).
  rewrite (try_catch_bind_ok _ _ _ w1 w2 message) by done.
  match goal with |- context [log ?l ?c ?m] =>
    set (w3 := add_action (ALog (entry l c m)) w2);
    rewrite (try_catch_bind_ok (log l c m) _ _ w2 w3 tt) by done
  end.
  destruct (record_posted_spec (message_id message) target (batch_number batch)
              (batch_listings batch) 0 [] w3 d Hdb2 Hnd Hok)
    as (w4 & Hrec & Hdb4 & _ & Hl4).
  rewrite (try_catch_bind_ok _ _ _ w3 w4 _ Hrec). rewrite app_nil_l.
  destruct (markListingsAsPosted_open (listing_id <$> batch_listings batch) w4 _ Hdb4)
    as (w5 & Hmark & Hdb5 & _ & Hl5).
  rewrite (try_catch_bind_ok _ _ _ w4 w5 _ Hmark).
  cbn [tbl_listings tbl_posted_listings] in Hdb5.
  assert (Hl : listeners w5 = listeners w) by (subst w3; simpl in *; congruence).
  match goal with |- ∃ r w', try_catch ?body ?h w5 = _ ∧ _ =>
    destruct (try_catch body h w5) as [r w'] eqn:Hrun;
    assert (Ht : preserves only_trace (try_catch body h))
  end.
  { unfold emitBatchPosted, emitListingPosted.
    repeat first [apply only_trace_log | apply only_trace_emit
                 | apply only_trace_emitError | pres_step]. }
  destruct (Ht _ _ _ Hrun) as (_ & _ & Hdb' & _ & Hl' & _).
  exists r, w'. split; [done|]. split; [|split; [congruence|]].
  - rewrite Hdb', Hdb5. done.
  - intros Hb Hp. unfold try_catch in Hrun.
    unfold emitBatchPosted in Hrun.
    erewrite bind_ok in Hrun;
      [|erewrite bind_ok by reflexivity; apply emit_return; [done|]; simpl; by rewrite Hl].
    match type of Hrun with context [bind (for_each ?l ?f) ?k ?w6] =>
      destruct (for_each_emitListingPosted l w6) as (w7 & Hfor & _);
        [simpl; by rewrite Hl|];
      rewrite (bind_ok _ _ w6 w7 tt Hfor) in Hrun
    end.
    by injection Hrun as <- _.
Qed.


Lemma find_listing_stored (id : string) (d : Database) :
  id ∈ db_id <$> tbl_listings d →
  ∃ row, find_listing id d = Some row ∧ db_id row = id.
Proof.
  intros (row & -> & Hin)%list_elem_of_fmap. unfold find_listing.
  destruct (list_find_elem_of (λ r, db_id r = db_id row) (tbl_listings d) row Hin eq_refl)
    as [[k row'] Hfind].
  rewrite Hfind. exists row'. split; [done|].
  by apply list_find_Some in Hfind as (_ & ? & _).
Qed.

Lemma find_listing_mark_posted (ids : list string) (id : string) (d : Database)
    (posted : list DbPostedListing) (row : DbListing) :
  find_listing id d = Some row →
  find_listing id {| tbl_listings := mark_posted ids <$> tbl_listings d;
                     tbl_posted_listings := posted |}
  = Some (mark_posted ids row).
Proof.
  unfold find_listing. cbn [tbl_listings]. rewrite list_find_fmap.
  rewrite (list_find_ext ((λ r, db_id r = id) ∘ mark_posted ids) (λ r, db_id r = id)).
  2: { intros r. simpl. unfold mark_posted. by case_bool_decide. }
  destruct (list_find _ (tbl_listings d)) as [[k r]|]; simpl; [|done].
  by intros [= ->].
Qed.

Lemma dbListingToListing_mark_posted (ids : list string) (row : DbListing) :
  dbListingToListing (mark_posted ids row) = dbListingToListing row.
Proof. unfold mark_posted. by case_bool_decide. Qed.

(** X24.  From posting to clicking: after a batch was delivered as in
    X23 under a message id that no tracker row had before, the button
    made for the listing at index [i] parses to position [i + 1], and
    [getListingByMessageId] with the id of the new message and that
    position returns the stored listing with the id of that very
    listing. *)
Theorem posted_button_leads_to_its_listing (w : World) (batch : ListingBatch)
    (channelId : option string) (client : Client) (channel : Channel) (d : Database)
    (i : nat) (l : Listing) :
  let target := or_default channelId (discord_channelId config) in
  let mid := numberToString (next_message_id channel) in
  discordClient w = Some client →
  channels client !! target = Some (Chan channel) →
  isTextBased channel = true → write_error channel = None →
  db w = Some d →
  NoDup (listing_id <$> batch_listings batch) →
  (∀ x, x ∈ batch_listings batch →
     listing_id x ∈ db_id <$> tbl_listings d
     ∧ listing_id x ∉ pl_listing_id <$> tbl_posted_listings d) →
  (∀ pl, pl ∈ tbl_posted_listings d → pl_message_id pl ≠ mid) →
  batch_listings batch !! i = Some l →
  contains ":" (listing_id l) = false →
  ∃ r w' b bd found w'',
    postBatchToDiscord now config batch channelId w = (r, w')
    ∧ createBatchButtons batch !! i = Some b
    ∧ parseButtonCustomId (button_customId b) = Some bd
    ∧ batch_position bd = Num (Z.of_nat i + 1)
    ∧ getListingByMessageId mid (batch_position bd) w' = (Ok (Some found), w'')
    ∧ listing_id found = listing_id l
    ∧ (∀ row, find_listing (listing_id l) d = Some row → found = dbListingToListing row).
Proof.
  intros target mid Hclient Hchan Htext Hwrite Hdb Hnd Hok Hfresh Hi Hcolon.
  destruct (postBatchToDiscord_delivers w batch channelId client channel d
              Hclient Hchan Htext Hwrite Hdb Hnd Hok) as (r & w' & Hrun & Hdb' & _).
  fold target mid in Hdb'.
  pose proof (list_elem_of_lookup_2 _ _ _ Hi) as Hl.
  destruct (find_listing_stored (listing_id l) d (proj1 (Hok l Hl))) as (row & Hrow & Hid).
  set (ids := listing_id <$> batch_listings batch) in *.
  set (pl := {| pl_listing_id := listing_id l; pl_message_id := mid;
                pl_channel_id := target; pl_batch_number := batch_number batch;
                pl_batch_position := Z.of_nat i + 1; pl_posted_at := now |}).
  destruct (getListingByMessageId_spec mid w' _ Hdb') as (Hfound & _).
  destruct (Hfound (Z.of_nat i + 1) pl (mark_posted ids row)) as (w'' & Hget & _).
  - cbn [tbl_posted_listings]. apply elem_of_app. right.
    unfold tracker_rows. apply list_elem_of_lookup. exists i.
    by rewrite list_lookup_imap, Hi.
  - done.
  - done.
  - cbn [tbl_posted_listings]. intros pl' [Hold|Hnew]%elem_of_app Hm Hp.
    + by destruct (Hfresh pl' Hold).
    + unfold tracker_rows in Hnew.
      apply list_elem_of_lookup in Hnew as (k & Hk). rewrite list_lookup_imap in Hk.
      destruct (batch_listings batch !! k) as [x|] eqn:Hx; [|done].
      injection Hk as <-. simpl in Hp |- *.
      assert (k = i) as -> by lia. congruence.
  - by apply find_listing_mark_posted.
  - exists r, w', (batchButton i l),
      {| action := buy_action; bd_listing_id := listing_id l;
         batch_position := Num (Z.of_nat i + 1) |},
      (dbListingToListing row), w''.
    split_and!.
    + done.
    + by apply createBatchButtons_lookup.
    + by apply parseButtonCustomId_buy.
    + done.
    + cbn [batch_position]. rewrite Hget. by rewrite dbListingToListing_mark_posted.
    + done.
    + intros row' Hrow'. congruence.
Qed.
End Delivered_facts.

Lemma unposted_world_delivers :
  discordClient unposted_world = Some sample_client
  ∧ channels sample_client !! "chan-1" = Some (Chan sample_channel)
  ∧ NoDup (listing_id <$> batch_listings unposted_batch)
  ∧ ∀ l, l ∈ batch_listings unposted_batch →
      listing_id l ∈ ["l-7"; "l-8"] ∧ listing_id l ∉ @nil string.
Proof.
  split_and!; [done|done| |].
  - apply NoDup_cons. split; [by intros [= ]%list_elem_of_singleton|].
    apply NoDup_singleton.
  - intros l Hl. split; [|apply not_elem_of_nil].
    apply list_elem_of_In in Hl. apply list_elem_of_In.
    destruct Hl as [<-|[<-|[]]]; [by left|right; by left].
Qed.


Lemma posted_button_leads_to_its_listing_witness :
  ∃ w' found w'',
    (postBatchToDiscord sample_now sample_config unposted_batch None unposted_world).2
    = w'
    ∧ getListingByMessageId "101" (Num 2) w' = (Ok (Some found), w'')
    ∧ listing_id found = "l-8".
Proof.
  destruct unposted_world_delivers as (Hc & Hch & Hnd & Hok).
  destruct (posted_button_leads_to_its_listing sample_now sample_config unposted_world
              unposted_batch None sample_client sample_channel _ 1
              (sample_listing "l-8" "active")
              Hc Hch eq_refl eq_refl eq_refl Hnd Hok)
    as (r & w' & b & bd & found & w'' & Hrun & Hb & Hparse & Hpos & Hget & Hid & _).
  - intros pl Hpl. by apply elem_of_nil in Hpl.
  - reflexivity.
  - reflexivity.
  - exists w', found, w''. split; [by rewrite Hrun|].
    rewrite Hpos in Hget. split; [exact Hget|exact Hid].
Defined.

(** ** Configuration and custom ids, edge cases *)

(** X25.  [loadConfig] throws exactly when the bot token or the channel
    id is unset or empty.  Otherwise the configuration carries both as
    given; the database path is never empty; the log level is the value
    of [LOG_LEVEL] when that is one of debug, info, warn, error (in lower
    case) and info otherwise; auto-purchase is off only for the exact
    value false. *)
Theorem loadConfig_required_and_fallbacks (env : gmap string string) :
  ((∃ e, (loadConfig env).2 = Throw e)
   ↔ falsy (env !! "DISCORD_BOT_TOKEN") = true
     ∨ falsy (env !! "DISCORD_CHANNEL_ID") = true)
  ∧ ∀ config, (loadConfig env).2 = Ok config →
      env !! "DISCORD_BOT_TOKEN" = Some (discord_token config)
      ∧ discord_token config ≠ ""
      ∧ env !! "DISCORD_CHANNEL_ID" = Some (discord_channelId config)
      ∧ discord_channelId config ≠ ""
      ∧ database_path config ≠ ""
      ∧ logging_level config
        = default LogLevel.INFO (env !! "LOG_LEVEL" ≫= LogLevel.of_string)
      ∧ (autoPurchase_enabled config = false
         ↔ env !! "AUTO_PURCHASE_ENABLED" = Some "false").
Proof.
  unfold loadConfig.
  destruct (env !! "DISCORD_BOT_TOKEN") as [token|] eqn:Ht; simpl.
  2: { split; [split; [by left|by eexists]|done]. }
  case_bool_decide as Htoken; simpl.
  { split; [split; [by left|by eexists]|done]. }
  destruct (env !! "DISCORD_CHANNEL_ID") as [chan|] eqn:Hc; simpl.
  2: { split; [split; [by right|by eexists]|done]. }
  case_bool_decide as Hchan; simpl.
  { split; [split; [by right|by eexists]|done]. }
  split; [split; [by intros [e ?]|by intros [?|?]]|].
  intros config [= <-]. simpl. split_and!; try done.
  - unfold or_default. destruct (env !! "DATABASE_PATH") as [p|]; [|done].
    by case_decide.
  - unfold or_default. destruct (env !! "LOG_LEVEL") as [l|]; simpl; [|done].
    case_decide; [by subst|done].
  - rewrite negb_false_iff. apply bool_decide_eq_true.
Qed.

Lemma split_length_cons (sep c : ascii) (s : string) :
  c ≠ sep → length (split sep (String c s)) = length (split sep s).
Proof.
  intros Hc. simpl. rewrite decide_False by done.
  pose proof (split_nonempty sep s). by destruct (split sep s).
Qed.

Lemma split_length_app (sep : ascii) (a b : string) :
  length (split sep (a +:+ String sep b))
  = (length (split sep a) + length (split sep b))%nat.
Proof.
  induction a as [|c a IH].
  - simpl. by rewrite decide_True.
  - destruct (decide (c = sep)) as [->|Hc].
    + simpl. rewrite !decide_True by done. simpl. by rewrite IH.
    + change (String c a +:+ String sep b) with (String c (a +:+ String sep b)).
      by rewrite !split_length_cons, IH.
Qed.

Lemma split_length_contains (sep : ascii) (s : string) :
  contains sep s = true → (2 ≤ length (split sep s))%nat.
Proof.
  induction s as [|c s IH]; simpl; [done|].
  intros H. case_decide as Hc.
  - simpl. pose proof (split_nonempty sep s). destruct (split sep s); [done|simpl; lia].
  - rewrite bool_decide_eq_false_2 in H by done. simpl in H. specialize (IH H).
    destruct (split sep s); simpl in *; lia.
Qed.

(** X26.  A listing id that contains a colon breaks its button: the
    custom id [buy:<id>:<position>] then splits into more than three
    parts and [parseButtonCustomId] returns null for the button
    [createBatchButtons] made. *)
Theorem createBatchButtons_id_with_colon_does_not_parse
    (batch : ListingBatch) (i : nat) (listing : Listing) :
  batch_listings batch !! i = Some listing →
  contains ":" (listing_id listing) = true →
  ∃ b, createBatchButtons batch !! i = Some b
    ∧ parseButtonCustomId (button_customId b) = None.
Proof.
  intros Hl Hid. exists (batchButton i listing).
  split; [by apply createBatchButtons_lookup|].
  unfold parseButtonCustomId. cbn [batchButton button_customId].
  set (pos := numberToString (Z.of_nat i + 1)).
  assert (Hlen : (4 ≤ length (split ":" ("buy:" +:+ listing_id listing +:+ ":" +:+ pos)))%nat).
  { change ("buy:" +:+ listing_id listing +:+ ":" +:+ pos)
      with ("buy" +:+ String ":" (listing_id listing +:+ String ":" pos)).
    rewrite !split_length_app.
    pose proof (split_length_contains ":" _ Hid).
    pose proof (split_nonempty ":" pos).
    change (length (split ":" "buy")) with 1%nat.
    destruct (split ":" pos); [done|]. cbn [length]. lia. }
  destruct (split ":" _) as [|p0 [|p1 [|p2 [|p3 ps]]]]; cbn [length] in Hlen;
    try done; lia.
Qed.

Lemma createBatchButtons_id_with_colon_does_not_parse_witness :
  ∃ b,
    createBatchButtons {| batch_number := 1;
                          batch_listings := [sample_listing "l:1" "active"];
                          batch_created_at := 0 |} !! 0%nat = Some b
    ∧ button_customId b = "buy:l:1:1"
    ∧ parseButtonCustomId (button_customId b) = None.
Proof.
  destruct (createBatchButtons_id_with_colon_does_not_parse
              {| batch_number := 1; batch_listings := [sample_listing "l:1" "active"];
                 batch_created_at := 0 |} 0 (sample_listing "l:1" "active")
              eq_refl eq_refl) as (b & Hb & Hparse).
  exists b. split; [exact Hb|]. split; [|exact Hparse].
  by injection Hb as <-.
Defined.

(** ** The cycle boundary with an error listener *)

Lemma same_env_only_trace {A} (m : M A) :
  preserves only_trace m → preserves same_env m.
Proof. apply preserves_weaken. by intros w w' (_ & _ & _ & _ & ? & ?). Qed.

Lemma same_env_modify (f : World → World) :
  (∀ w, listeners (f w) = listeners w ∧ api (f w) = api w) →
  preserves same_env (modify f).
Proof. intros Hf. apply preserves_modify. intros w. apply Hf. Qed.

Ltac env_step :=
  first
    [ pres_step
    | apply same_env_log
    | apply same_env_act
    | apply same_env_only_trace, only_trace_emit
    | apply same_env_only_trace, only_trace_emitError
    | apply same_env_modify; intros w0; by destruct (discordClient w0) ].

Section Boundary_listener_facts.
Variable clock : nat → Z.
Variable now : string.
Variable getTime : string → number.
Variable config : Config.

Lemma same_env_insertListings (ls : list Listing) :
  preserves same_env (insertListings now ls).
Proof.
  unfold insertListings. do 2 env_step; [|repeat env_step].
  generalize 0. induction ls as [|l ls IH]; intros n; simpl; [env_step|].
  env_step; [|apply IH].
  unfold insertListing, run_insert_listing, getDatabase. repeat env_step.
Qed.

Lemma same_env_record_posted (l : list Listing) (i : nat) (mid cid : string)
    (bn : Z) (ids : list string) :
  preserves same_env (record_posted now l i mid cid bn ids).
Proof.
  revert i ids. induction l as [|x l IH]; intros i ids; simpl; [env_step|].
  env_step; [|apply IH].
  unfold insertPostedListing, run_insert_posted, getDatabase. repeat env_step.
Qed.

Lemma same_env_postBatchToDiscord (batch : ListingBatch) (channelId : option string) :
  preserves same_env (postBatchToDiscord now config batch channelId).
Proof.
  unfold postBatchToDiscord, getDiscordClient, channels_fetch, channel_send,
    put_channel, markListingsAsPosted, getDatabase, emitBatchPosted, emitListingPosted.
  repeat first [apply same_env_record_posted | env_step].
Qed.

Lemma same_env_post_batches (l : list ListingBatch) (channelId : option string)
    (total : nat) (n : Z) :
  preserves same_env (post_batches now config l channelId total n).
Proof.
  revert n. induction l as [|b l IH]; intros n; simpl; [env_step|].
  env_step; [apply same_env_postBatchToDiscord|].
  destruct a; [|apply IH]. env_step; [|apply IH].
  case_bool_decide; unfold delay; repeat env_step.
Qed.

Lemma same_env_read_listings (ids : list string) (acc : list Listing) :
  preserves same_env (read_listings ids acc).
Proof. apply same_env_only_trace, only_trace_read_listings. Qed.

Lemma same_env_scan_posted (l : list (Listing * DbPostedListing))
    (fetched : gmap string Listing) (groups : list (string * MessageGroup)) (n : Z) :
  preserves same_env (scan_posted l fetched groups n).
Proof.
  revert groups n. induction l as [|[listing posted] l IH]; intros groups n; simpl;
    [env_step|].
  destruct (fetched !! listing_id listing); [|apply IH].
  case_decide; [|apply IH].
  env_step; [env_step|]. env_step; [|apply IH].
  unfold updateListingStatus, getDatabase. repeat env_step.
Qed.

Lemma same_env_checkStatusChanges (fetched : gmap string Listing) :
  preserves same_env (checkStatusChanges fetched).
Proof.
  unfold checkStatusChanges, getPostedListings, getDatabase, delay,
    updateMessageWithStatus, getDiscordClient, channels_fetch, messages_fetch,
    message_edit, put_channel.
  repeat first
    [ apply same_env_scan_posted
    | apply same_env_read_listings
    | env_step
    | case_decide ].
Qed.

Lemma same_env_collect_existing (l : list Listing) (K : gset string) :
  preserves same_env (collect_existing l K).
Proof.
  revert K. induction l as [|x l IH]; intros K; simpl; [env_step|].
  env_step; [unfold listingExists, getDatabase; repeat env_step|apply IH].
Qed.

(** X27.  With a listener registered for ['error'] that returns,
    [pollListings] never throws: whatever a step of the cycle throws is
    logged and handed to the listener, and the call ends normally with
    the processing flag as it found it (false after a cycle that ran). *)
Theorem pollListings_never_throws_with_error_listener (w : World) :
  listeners w BotEvent.ERROR ≠ [] →
  Forall (λ h, h = Returns) (listeners w BotEvent.ERROR) →
  ∃ w',
    pollListings clock now getTime config w = (Ok tt, w')
    ∧ isProcessing w' = isProcessing w.
Proof.
  intros Hne Hret. unfold pollListings. unfold bind at 1. unfold get.
  destruct (isProcessing w) eqn:Hp.
  { unfold log, act, modify. eexists. split; [reflexivity|done]. }
  unfold bind at 1. unfold modify at 1. unfold try_finally.
  set (w1 := set_isProcessing true w).
  match goal with |- context [try_catch ?body ?h w1] =>
    destruct (body w1) as [r w2] eqn:Hbody;
    assert (Henv : preserves same_env body)
  end.
  { unfold getNewListings_logged, update_stats, emitNewListingsBatch, emitNewListing,
      postListingsToDiscord, createListingBatches_logged.
    repeat first
      [ apply same_env_only_trace, only_trace_getAllListings
      | apply same_env_checkStatusChanges
      | apply same_env_collect_existing
      | apply same_env_insertListings
      | apply same_env_post_batches
      | env_step ]. }
  destruct (Henv _ _ _ Hbody) as [Hl _].
  unfold try_catch. rewrite Hbody. destruct r as [[]|e].
  - unfold modify. eexists. split; [reflexivity|done].
  - unfold emitError.
    erewrite bind_ok by reflexivity. erewrite bind_ok by reflexivity.
    unfold emit. erewrite bind_ok by reflexivity. unfold bind at 1. unfold get.
    cbn [listeners add_action]. rewrite Hl. cbn [listeners set_isProcessing w1].
    destruct (listeners w BotEvent.ERROR) as [|h hs] eqn:Hls; [done|].
    rewrite (call_listeners_return (h :: hs) _ Hret).
    unfold modify. eexists. split; [reflexivity|done].
Qed.

End Boundary_listener_facts.

Lemma pollListings_never_throws_with_error_listener_witness :
  ∃ w',
    pollListings sample_clock sample_now sample_getTime sample_config
      (set_listeners (λ ev, if decide (ev = BotEvent.ERROR) then [Returns]
                            else repo_listeners ev)
         offline_world)
    = (Ok tt, w')
    ∧ isProcessing w' = false.
Proof.
  apply (pollListings_never_throws_with_error_listener sample_clock sample_now
           sample_getTime sample_config
           (set_listeners (λ ev, if decide (ev = BotEvent.ERROR) then [Returns]
                                 else repo_listeners ev)
              offline_world)).
  - discriminate.
  - apply List.Forall_cons; [reflexivity|apply List.Forall_nil].
Defined.

(** ** The two versions of the fetchers, and shutdown *)


Section Shutdown_facts.
Variable now : string.
Variable config : Config.

(** X29.  After [disconnectDiscordBot] nothing is delivered or edited:
    the client is gone (a second call does nothing), the database is
    untouched, [updateMessageWithStatus] returns false, and
    [postBatchToDiscord] returns no message and writes nothing to the
    database. *)
Theorem disconnectDiscordBot_stops_delivery (w : World) :
  ∃ w0,
    disconnectDiscordBot w = (Ok tt, w0)
    ∧ discordClient w0 = None
    ∧ db w0 = db w
    ∧ disconnectDiscordBot w0 = (Ok tt, w0)
    ∧ (∀ messageId channelId listingIds batchNumber,
         ∃ w', updateMessageWithStatus messageId channelId listingIds batchNumber w0
               = (Ok false, w')
           ∧ db w' = db w0 ∧ discordClient w' = None)
    ∧ (∀ batch channelId,
         ∃ r w', postBatchToDiscord now config batch channelId w0 = (r, w')
           ∧ (∀ m, r ≠ Ok (Some m))
           ∧ db w' = db w0 ∧ discordClient w' = None).
Proof.
  destruct (disconnectDiscordBot w) as [r w0] eqn:Hrun.
  assert (r = Ok tt ∧ discordClient w0 = None ∧ db w0 = db w) as (-> & Hc & Hdb).
  { unfold disconnectDiscordBot, bind, get, log, act, modify in Hrun.
    destruct (discordClient w) eqn:Hcl; injection Hrun as <- <-; done. }
  assert (Hget : getDiscordClient w0
                 = (Throw (mkError
                      "Discord client not initialized. Call initializeDiscordBot() first."),
                    w0)).
  { unfold getDiscordClient, bind, get. by rewrite Hc. }
  exists w0. split_and!; try done.
  - unfold disconnectDiscordBot, bind, get. by rewrite Hc.
  - intros messageId channelId listingIds batchNumber.
    unfold updateMessageWithStatus.
    rewrite (try_catch_bind_throw _ _ _ w0 w0 _ Hget).
    unfold bind, log, act, modify, ret. by eexists.
  - intros batch channelId. unfold postBatchToDiscord.
    rewrite (try_catch_bind_throw _ _ _ w0 w0 _ Hget).
    match goal with |- ∃ r w', ?m w0 = _ ∧ _ =>
      destruct (m w0) as [r w'] eqn:Hcatch; exists r, w';
      assert (Ht : preserves only_trace m)
    end.
    { repeat first [apply only_trace_log | apply only_trace_emitError | pres_step]. }
    destruct (Ht _ _ _ Hcatch) as (_ & _ & Hd & Hcl & _).
    split_and!; [done| |done|congruence].
    unfold bind at 1 in Hcatch. unfold log, act, modify in Hcatch.
    unfold bind in Hcatch.
    destruct (emitError _ _ _) as [[[]|e'] w2]; injection Hcatch as <- _; done.
Qed.
End Shutdown_facts.
